(** * matrix-stickerbook: the collection and curation engine

    A shallow embedding of the storage layer ([internal/storage]), of the
    usage parser, of the collection workflow ([internal/bot/reactions.go]),
    of the commands and their router ([internal/bot/commands.go]), of the
    event handlers, of the captioning client ([internal/llm]) and of the
    MSC2545 publisher ([internal/matrix], [PublishPack]), followed by the
    properties the specification states about them and by further
    properties of the code.

    Conventions of the embedding:
    - a Go [string] is a Rocq [string] (a sequence of bytes);
    - a Go slice is a [list]; the [nil] slice and the empty slice are both
      [[]] (the code only ever looks at [len] and at the elements);
    - a Go [map[string]T] is a [gmap string T]; the [nil] map is [∅];
    - [int], [int64] and [time.Time] are [Z];
    - a Go [error] is its message; a function returning [(T, error)] returns
      a [result T];
    - [collection.json] and [packs.json] are the two fields of the state the
      storage functions read and write; reading and writing the files
      themselves is assumed to succeed. *)

From Stdlib Require Import Ascii.
From stdpp Require Import base option list strings gmap pretty.

Local Set Warnings "-register-all".

(** ** Errors *)

Inductive result (A : Type) : Type :=
  | Ok (a : A)
  | Err (msg : string).
Arguments Ok {A} a.
Arguments Err {A} msg.

Definition result_bind {A B} (r : result A) (k : A → result B) : result B :=
  match r with
  | Ok a => k a
  | Err msg => Err msg
  end.

(** [fmt.Errorf(prefix + "%w", err)] *)
Definition wrapErr {A} (prefix : string) (r : result A) : result A :=
  match r with
  | Ok a => Ok a
  | Err msg => Err (prefix +:+ msg)
  end.

Definition isOk {A} (r : result A) : bool :=
  match r with Ok _ => true | Err _ => false end.

(** ** The Go [strings] package, as far as the program uses it *)

(** On text with a byte above 0x7F, [ToLower] and [TrimSpace] go through
    Go's Unicode tables, which are not part of this repository: what they
    return on such text is taken as two functions. On ASCII-only text Go
    never consults the tables. *)
Class Unicode := {
  unicodeToLower : string → string;
  unicodeTrimSpace : string → string
}.

(** [strings.Fields] on text with a byte above 0x7F splits around the white
    space of the Unicode tables; what it returns there is taken as a
    function. *)
Class UnicodeFields := {
  unicodeFields : string → list string
}.

Module strings.

Definition isASCIIByte (c : ascii) : bool :=
  bool_decide (nat_of_ascii c < 128).

Fixpoint isASCII (s : string) : bool :=
  match s with
  | EmptyString => true
  | String c s => isASCIIByte c && isASCII s
  end.

(** ['A' <= c && c <= 'Z'] *)
Definition isUpper (c : ascii) : bool :=
  bool_decide (65 ≤ nat_of_ascii c) && bool_decide (nat_of_ascii c ≤ 90).

(** [c += 'a' - 'A'] *)
Definition lowerByte (c : ascii) : ascii :=
  if isUpper c then ascii_of_nat (nat_of_ascii c + 32) else c.

Fixpoint mapBytes (f : ascii → ascii) (s : string) : string :=
  match s with
  | EmptyString => EmptyString
  | String c s => String (f c) (mapBytes f s)
  end.

Fixpoint allBytes (f : ascii → bool) (s : string) : bool :=
  match s with
  | EmptyString => true
  | String c s => f c && allBytes f s
  end.

Definition ToLower `{!Unicode} (s : string) : string :=
  if isASCII s then mapBytes lowerByte s else unicodeToLower s.

(** Go's [asciiSpace] table is stdpp's [Ascii.is_space]:
    tab, line feed, vertical tab, form feed, carriage return, space. *)
Fixpoint trimLeft (s : string) : string :=
  match s with
  | EmptyString => EmptyString
  | String c s' => if Ascii.is_space c then trimLeft s' else s
  end.

Definition trimRight (s : string) : string :=
  String.rev (trimLeft (String.rev s)).

Definition TrimSpace `{!Unicode} (s : string) : string :=
  if isASCII s then trimRight (trimLeft s) else unicodeTrimSpace s.

Fixpoint HasPrefix (s prefix : string) {struct prefix} : bool :=
  match prefix, s with
  | EmptyString, _ => true
  | String a prefix, String b s => bool_decide (a = b) && HasPrefix s prefix
  | String _ _, EmptyString => false
  end.

Fixpoint drop (n : nat) (s : string) : string :=
  match n, s with
  | S n, String _ s => drop n s
  | _, _ => s
  end.

(** [ReplaceAll s old new] for a non-empty [old]: scan from the left,
    replacing each non-overlapping occurrence. [fuel] bounds the number of
    positions visited; [String.length s] is always enough. *)
Fixpoint replaceFrom (fuel : nat) (s old new : string) : string :=
  match fuel with
  | 0 => s
  | S fuel =>
      match s with
      | EmptyString => EmptyString
      | String c rest =>
          if HasPrefix s old
          then new +:+ replaceFrom fuel (drop (String.length old) s) old new
          else String c (replaceFrom fuel rest old new)
      end
  end.

Definition ReplaceAll (s old new : string) : string :=
  replaceFrom (String.length s) s old new.

Fixpoint Join (elems : list string) (sep : string) : string :=
  match elems with
  | [] => ""
  | [e] => e
  | e :: rest => e +:+ sep +:+ Join rest sep
  end.

(** The ASCII path of [Fields]: the text is cut around each run of bytes of
    [asciiSpace]; [field] is the field being read, if one has begun. *)
Fixpoint fieldsFrom (field : option string) (s : string) : list string :=
  match s with
  | EmptyString =>
      match field with
      | Some f => [f]
      | None => []
      end
  | String c s =>
      if Ascii.is_space c
      then match field with
           | Some f => f :: fieldsFrom None s
           | None => fieldsFrom None s
           end
      else fieldsFrom (Some (default EmptyString field
                             +:+ String c EmptyString)) s
  end.

Definition Fields `{!UnicodeFields} (s : string) : list string :=
  if isASCII s then fieldsFrom None s else unicodeFields s.

End strings.

(** ** internal/storage: usage.go *)

(** [ParseUsage]: [nil] (reset) is the empty list. *)
Definition ParseUsage `{!Unicode} (input : string) : result (list string) :=
  let input := strings.ToLower (strings.TrimSpace input) in
  if bool_decide (input = "sticker") then Ok ["sticker"]
  else if bool_decide (input = "emoticon") || bool_decide (input = "emoji")
  then Ok ["emoticon"]
  else if bool_decide (input = "both") then Ok ["sticker"; "emoticon"]
  else if bool_decide (input = "reset") then Ok []
  else Err ("invalid usage type: " +:+ input +:+
            " (valid: sticker, emoticon, emoji, both, reset)").

Definition FormatUsage (usage : list string) : string :=
  if bool_decide (length usage = 0) then "(not set)"
  else
    let hasSticker := bool_decide ("sticker" ∈ usage) in
    let hasEmoticon := bool_decide ("emoticon" ∈ usage) in
    if hasSticker && hasEmoticon then "both"
    else if hasSticker then "sticker"
    else if hasEmoticon then "emoticon"
    else strings.Join usage ", ".

(** [^[a-zA-Z0-9_-]+$], byte by byte *)
Definition isShortcodeByte (c : ascii) : bool :=
  let n := nat_of_ascii c in
  (bool_decide (97 ≤ n) && bool_decide (n ≤ 122))
  || (bool_decide (65 ≤ n) && bool_decide (n ≤ 90))
  || (bool_decide (48 ≤ n) && bool_decide (n ≤ 57))
  || bool_decide (n = 95) || bool_decide (n = 45).

Definition ValidateShortcode (name : string) : result unit :=
  if bool_decide (String.length name = 0)
  then Err "shortcode cannot be empty"
  else if bool_decide (64 < String.length name)
  then Err "shortcode too long (max 64 characters)"
  else if negb (strings.allBytes isShortcodeByte name)
  then Err "shortcode must contain only letters, numbers, underscores, and hyphens"
  else Ok tt.

(** ** internal/storage: the records of types.go *)

Module Sticker.
Record t := mk {
  ID : string;                (* SHA256 hash of image data *)
  Name : string;              (* shortcode, defaults to ID *)
  CollectedAt : Z;
  SourceRoom : string;
  SourceEvent : string;
  SourceMXC : string;
  LocalMXC : string;
  MimeType : string;
  Width : Z;
  Height : Z;
  SizeBytes : Z;
  OriginalBody : string;
  GeneratedAltText : string;
  InPacks : list string;      (* pack names containing this sticker *)
  Usage : list string         (* override; empty: inherit from the pack *)
}.

Definition withName (v : string) (s : t) : t :=
  mk (ID s) v (CollectedAt s) (SourceRoom s) (SourceEvent s) (SourceMXC s)
     (LocalMXC s) (MimeType s) (Width s) (Height s) (SizeBytes s)
     (OriginalBody s) (GeneratedAltText s) (InPacks s) (Usage s).

Definition withGeneratedAltText (v : string) (s : t) : t :=
  mk (ID s) (Name s) (CollectedAt s) (SourceRoom s) (SourceEvent s)
     (SourceMXC s) (LocalMXC s) (MimeType s) (Width s) (Height s)
     (SizeBytes s) (OriginalBody s) v (InPacks s) (Usage s).

Definition withInPacks (v : list string) (s : t) : t :=
  mk (ID s) (Name s) (CollectedAt s) (SourceRoom s) (SourceEvent s)
     (SourceMXC s) (LocalMXC s) (MimeType s) (Width s) (Height s)
     (SizeBytes s) (OriginalBody s) (GeneratedAltText s) v (Usage s).

Definition withUsage (v : list string) (s : t) : t :=
  mk (ID s) (Name s) (CollectedAt s) (SourceRoom s) (SourceEvent s)
     (SourceMXC s) (LocalMXC s) (MimeType s) (Width s) (Height s)
     (SizeBytes s) (OriginalBody s) (GeneratedAltText s) (InPacks s) v.
End Sticker.

Module Pack.
Record t := mk {
  Name : string;                          (* internal, normalized name *)
  DisplayName : string;
  AvatarURL : string;
  Attribution : string;
  StickerIDs : list string;               (* ordered members *)
  PublishedRooms : gmap string string;    (* room ID -> state key *)
  Usage : list string                     (* default usage of the pack *)
}.

Definition withAvatarURL (v : string) (p : t) : t :=
  mk (Name p) (DisplayName p) v (Attribution p) (StickerIDs p)
     (PublishedRooms p) (Usage p).

Definition withStickerIDs (v : list string) (p : t) : t :=
  mk (Name p) (DisplayName p) (AvatarURL p) (Attribution p) v
     (PublishedRooms p) (Usage p).

Definition withPublishedRooms (v : gmap string string) (p : t) : t :=
  mk (Name p) (DisplayName p) (AvatarURL p) (Attribution p) (StickerIDs p)
     v (Usage p).

Definition withUsage (v : list string) (p : t) : t :=
  mk (Name p) (DisplayName p) (AvatarURL p) (Attribution p) (StickerIDs p)
     (PublishedRooms p) v.
End Pack.

(** The data directory: [Collection.Stickers] of collection.json and
    [PacksData.Packs] of packs.json. A missing file reads as the empty list. *)
Record DataDir := {
  collection : list Sticker.t;
  packs : list Pack.t
}.

Definition emptyDir : DataDir := {| collection := []; packs := [] |}.

(** ** State and errors

    A function of the program that reads or writes state [S] and returns
    [(T, error)] is an [M S T]: it maps the state before the call to its
    result and the state after the call. After an error the state is
    whatever had been written until then. *)

Definition M (S A : Type) : Type := S → result A * S.

Definition ret {S A} (a : A) : M S A := λ s, (Ok a, s).

Definition fail {S A} (msg : string) : M S A := λ s, (Err msg, s).

Definition bind {S A B} (m : M S A) (k : A → M S B) : M S B :=
  λ s, match m s with
       | (Ok a, s') => k a s'
       | (Err msg, s') => (Err msg, s')
       end.

Notation "x <- m ;; k" := (bind m (λ x, k))
  (at level 100, m at next level, right associativity).
Notation "m ;;; k" := (bind m (λ _, k))
  (at level 100, right associativity).

(** an [if err != nil { return fmt.Errorf(...) }] around a pure computation *)
Definition liftR {S A} (r : result A) : M S A := λ s, (r, s).

(** [return fmt.Errorf(prefix + "%w", err)] around a call *)
Definition wrap {S A} (prefix : string) (m : M S A) : M S A :=
  λ s, let '(r, s') := m s in (wrapErr prefix r, s').

(** a call whose error is printed and dropped *)
Definition warnOnly {S} (m : M S unit) : M S unit :=
  λ s, let '(_, s') := m s in (Ok tt, s').

Fixpoint forEach {S A} (l : list A) (body : A → M S unit) : M S unit :=
  match l with
  | [] => ret tt
  | x :: l => body x ;;; forEach l body
  end.

Definition LoadCollection : M DataDir (list Sticker.t) :=
  λ d, (Ok (collection d), d).

Definition SaveCollection (c : list Sticker.t) : M DataDir unit :=
  λ d, (Ok tt, {| collection := c; packs := packs d |}).

Definition LoadPacks : M DataDir (list Pack.t) :=
  λ d, (Ok (packs d), d).

Definition SavePacks (p : list Pack.t) : M DataDir unit :=
  λ d, (Ok tt, {| collection := collection d; packs := p |}).

(** The recurring loops of the storage layer:
    [for i, x := range l { if x.Key == key { ...; break } }]. *)
Definition findSticker (id : string) (l : list Sticker.t)
  : option (nat * Sticker.t) :=
  list_find (λ sticker, Sticker.ID sticker = id) l.

Definition findPack (name : string) (l : list Pack.t)
  : option (nat * Pack.t) :=
  list_find (λ pack, Pack.Name pack = name) l.

(** ** internal/storage: collection.go *)

Definition AddSticker (sticker : Sticker.t) : M DataDir unit :=
  collection <- LoadCollection ;;
  match findSticker (Sticker.ID sticker) collection with
  | Some (i, _) =>
      (* Update existing sticker *)
      SaveCollection (<[i := sticker]> collection)
  | None =>
      (* Add new sticker *)
      SaveCollection (collection ++ [sticker])
  end.

Definition GetSticker (id : string) : M DataDir Sticker.t :=
  collection <- LoadCollection ;;
  match findSticker id collection with
  | Some (_, sticker) => ret sticker
  | None => fail ("sticker not found: " +:+ id)
  end.

Definition ListStickers : M DataDir (list Sticker.t) := LoadCollection.

Definition UpdateAltText (id altText : string) : M DataDir unit :=
  collection <- LoadCollection ;;
  match findSticker id collection with
  | Some (i, sticker) =>
      SaveCollection
        (<[i := Sticker.withGeneratedAltText altText sticker]> collection)
  | None => fail ("sticker not found: " +:+ id)
  end.

Definition SetStickerUsage (stickerID : string) (usage : list string)
  : M DataDir unit :=
  collection <- LoadCollection ;;
  match findSticker stickerID collection with
  | Some (i, sticker) =>
      SaveCollection (<[i := Sticker.withUsage usage sticker]> collection)
  | None => fail ("sticker not found: " +:+ stickerID)
  end.

Definition SetStickerName (stickerID name : string) : M DataDir unit :=
  collection <- LoadCollection ;;
  match findSticker stickerID collection with
  | Some (i, sticker) =>
      SaveCollection (<[i := Sticker.withName name sticker]> collection)
  | None => fail ("sticker not found: " +:+ stickerID)
  end.

(** ** internal/storage: packs.go *)

Definition CreatePackWithAttribution (name displayName attribution : string)
  : M DataDir unit :=
  packsData <- LoadPacks ;;
  if bool_decide (name ∈ Pack.Name <$> packsData)
  then fail ("pack already exists: " +:+ name)
  else
    let newPack := Pack.mk name displayName "" attribution [] ∅ [] in
    SavePacks (packsData ++ [newPack]).

Definition CreatePack (name displayName : string) : M DataDir unit :=
  CreatePackWithAttribution name displayName "".

(** The first loop of [AddToPack] over [stickerIDs], on the pack's member
    list held in memory: each id is checked against the collection, then
    appended unless it is already a member; the first unknown id returns. *)
Fixpoint addMembers (collection : list Sticker.t) (stickerIDs : list string)
    (members : list string) : result (list string) :=
  match stickerIDs with
  | [] => Ok members
  | stickerID :: rest =>
      if bool_decide (stickerID ∈ Sticker.ID <$> collection)
      then
        addMembers collection rest
          (if bool_decide (stickerID ∈ members) then members
           else members ++ [stickerID])
      else Err ("sticker not found in collection: " +:+ stickerID)
  end.

(** The second loop of [AddToPack], for one sticker of the collection. *)
Definition markInPack (packName : string) (stickerIDs : list string)
    (sticker : Sticker.t) : Sticker.t :=
  foldl (λ sticker stickerID,
           if bool_decide (Sticker.ID sticker = stickerID)
           then
             if bool_decide (packName ∈ Sticker.InPacks sticker) then sticker
             else Sticker.withInPacks (Sticker.InPacks sticker ++ [packName])
                    sticker
           else sticker)
        sticker stickerIDs.

Definition AddToPack (packName : string) (stickerIDs : list string)
  : M DataDir unit :=
  packsData <- LoadPacks ;;
  collection <- LoadCollection ;;
  match findPack packName packsData with
  | None => fail ("pack not found: " +:+ packName)
  | Some (packIndex, pack) =>
      members <- liftR (addMembers collection stickerIDs
                          (Pack.StickerIDs pack)) ;;
      let packsData :=
        <[packIndex := Pack.withStickerIDs members pack]> packsData in
      let collection := markInPack packName stickerIDs <$> collection in
      wrap "failed to update collection: " (SaveCollection collection) ;;;
      SavePacks packsData
  end.

(** The two loops of [RemoveFromPack]. *)
Definition removeMembers (stickerIDs members : list string) : list string :=
  foldl (λ members stickerID,
           filter (λ existingID, existingID ≠ stickerID) members)
        members stickerIDs.

Definition unmarkInPack (packName : string) (stickerIDs : list string)
    (sticker : Sticker.t) : Sticker.t :=
  foldl (λ sticker stickerID,
           if bool_decide (Sticker.ID sticker = stickerID)
           then Sticker.withInPacks
                  (filter (λ packInList, packInList ≠ packName)
                          (Sticker.InPacks sticker))
                  sticker
           else sticker)
        sticker stickerIDs.

Definition RemoveFromPack (packName : string) (stickerIDs : list string)
  : M DataDir unit :=
  packsData <- LoadPacks ;;
  collection <- LoadCollection ;;
  match findPack packName packsData with
  | None => fail ("pack not found: " +:+ packName)
  | Some (packIndex, pack) =>
      let members := removeMembers stickerIDs (Pack.StickerIDs pack) in
      let packsData :=
        <[packIndex := Pack.withStickerIDs members pack]> packsData in
      let collection := unmarkInPack packName stickerIDs <$> collection in
      wrap "failed to update collection: " (SaveCollection collection) ;;;
      SavePacks packsData
  end.

Definition GetPack (name : string) : M DataDir Pack.t :=
  packsData <- LoadPacks ;;
  match findPack name packsData with
  | Some (_, pack) => ret pack
  | None => fail ("pack not found: " +:+ name)
  end.

Definition UpdatePublished (packName roomID stateKey : string)
  : M DataDir unit :=
  packsData <- LoadPacks ;;
  match findPack packName packsData with
  | Some (i, pack) =>
      SavePacks
        (<[i := Pack.withPublishedRooms
                  (<[roomID := stateKey]> (Pack.PublishedRooms pack)) pack]>
           packsData)
  | None => fail ("pack not found: " +:+ packName)
  end.

Definition SetPackAvatar (packName avatarURL : string) : M DataDir unit :=
  packsData <- LoadPacks ;;
  match findPack packName packsData with
  | Some (i, pack) =>
      SavePacks (<[i := Pack.withAvatarURL avatarURL pack]> packsData)
  | None => fail ("pack not found: " +:+ packName)
  end.

Definition ListPacks : M DataDir (list Pack.t) := LoadPacks.

Definition SetPackUsage (packName : string) (usage : list string)
  : M DataDir unit :=
  packsData <- LoadPacks ;;
  match findPack packName packsData with
  | Some (i, pack) =>
      SavePacks (<[i := Pack.withUsage usage pack]> packsData)
  | None => fail ("pack not found: " +:+ packName)
  end.

(** [DeleteSticker] (collection.go): the sticker is removed and saved first;
    a pack that cannot be updated afterwards is only reported. *)
Definition DeleteSticker (id : string) : M DataDir unit :=
  collection <- LoadCollection ;;
  match findSticker id collection with
  | None => fail ("sticker not found: " +:+ id)
  | Some (i, sticker) =>
      let packNames := Sticker.InPacks sticker in
      wrap "failed to save collection: "
           (SaveCollection (delete i collection)) ;;;
      forEach packNames
        (λ packName, warnOnly (RemoveFromPack packName [id]))
  end.

(** ** JSON documents, as [encoding/json] writes the payload structs *)

Inductive json : Type :=
  | JString (s : string)
  | JNumber (n : Z)
  | JArray (l : list json)
  | JObject (fields : gmap string json).

(** a field tagged [omitempty] *)
Definition omitempty (key : string) (empty : bool) (v : json)
    (fields : gmap string json) : gmap string json :=
  if empty then fields else <[key := v]> fields.

(** ** internal/matrix: the MSC2545 pack types *)

Module PackInfo.
Record t := mk {
  DisplayName : string;       (* json:"display_name" *)
  AvatarURL : string;         (* json:"avatar_url,omitempty" *)
  Usage : list string;        (* json:"usage,omitempty" *)
  Attribution : string        (* json:"attribution,omitempty" *)
}.

Definition marshal (p : t) : json :=
  JObject
    (omitempty "attribution" (bool_decide (Attribution p = ""))
       (JString (Attribution p))
    (omitempty "usage" (bool_decide (length (Usage p) = 0))
       (JArray (JString <$> Usage p))
    (omitempty "avatar_url" (bool_decide (AvatarURL p = ""))
       (JString (AvatarURL p))
    (<["display_name" := JString (DisplayName p)]> ∅)))).
End PackInfo.

Module StickerData.
Record t := mk {
  URL : string;               (* json:"url" *)
  Body : string;              (* json:"body" *)
  Usage : list string;        (* json:"usage,omitempty" *)
  InfoWidth : Z;              (* Info.Width, json:"w" *)
  InfoHeight : Z;             (* Info.Height, json:"h" *)
  InfoSize : Z;               (* Info.Size, json:"size" *)
  InfoMimeType : string       (* Info.MimeType, json:"mimetype" *)
}.

Definition marshalInfo (d : t) : json :=
  JObject
    (<["mimetype" := JString (InfoMimeType d)]>
    (<["size" := JNumber (InfoSize d)]>
    (<["h" := JNumber (InfoHeight d)]>
    (<["w" := JNumber (InfoWidth d)]> ∅)))).

Definition marshal (d : t) : json :=
  JObject
    (<["info" := marshalInfo d]>
    (omitempty "usage" (bool_decide (length (Usage d) = 0))
       (JArray (JString <$> Usage d))
    (<["body" := JString (Body d)]>
    (<["url" := JString (URL d)]> ∅)))).
End StickerData.

Module PackContent.
Record t := mk {
  Pack : PackInfo.t;                      (* json:"pack" *)
  Images : gmap string StickerData.t      (* json:"images" *)
}.

Definition marshal (c : t) : json :=
  JObject
    (<["images" := JObject (StickerData.marshal <$> Images c)]>
    (<["pack" := PackInfo.marshal (Pack c)]> ∅)).
End PackContent.

(** A state event handed to the homeserver. *)
Record StateEvent := {
  evRoom : string;
  evType : string;
  evStateKey : string;
  evContent : PackContent.t
}.

(** ** The collaborators

    What the program obtains from outside this repository: the homeserver
    (through mautrix), the captioning service, and the Go library functions
    whose results depend on data the program does not inspect. One [Env] is
    one set of answers; two runs may meet different ones. *)
Record Env := {
  (* b.client.UserID, and its Homeserver() *)
  UserID : string;
  Homeserver : string;
  (* id.ContentURIString.Parse: the homeserver part of an MXC URI *)
  ParseContentURI : string → result string;
  DownloadBytes : string → result (list Byte.byte);
  UploadBytes : list Byte.byte → string → result string;
  (* the homeserver's answer to SendStateEvent *)
  SendStateEventResult : StateEvent → result string;
  (* llmClient.GenerateAltText *)
  GenerateAltText : list Byte.byte → string → result string;
  (* image.DecodeConfig: width, height, format *)
  DecodeConfig : list Byte.byte → result (Z * Z * string);
  (* hex.EncodeToString of sha256.Sum256 *)
  Sum256Hex : list Byte.byte → string;
  (* time.Now() *)
  Now : Z
}.

(** What a run of the bot acts on: the data directory, and the state events
    it has handed to the homeserver so far (most recent last). *)
Record World := {
  dataDir : DataDir;
  delivered : list StateEvent
}.

Definition initialWorld : World := {| dataDir := emptyDir; delivered := [] |}.

(** a storage call on the bot's data directory *)
Definition onDir {A} (m : M DataDir A) : M World A :=
  λ w, let '(r, d) := m (dataDir w) in
       (r, {| dataDir := d; delivered := delivered w |}).

Definition SendStateEvent (c : Env) (roomID evtType stateKey : string)
    (content : PackContent.t) : M World string :=
  λ w, let evt := {| evRoom := roomID; evType := evtType;
                     evStateKey := stateKey; evContent := content |} in
       (SendStateEventResult c evt,
        {| dataDir := dataDir w; delivered := delivered w ++ [evt] |}).

(** ** internal/matrix: media.go *)

Module ImageInfo.
Record t := mk {
  Width : Z;
  Height : Z;
  SizeBytes : Z;
  MimeType : string
}.
End ImageInfo.

Definition byteAt (data : list Byte.byte) (i : nat) (b : Byte.byte) : bool :=
  match data !! i with
  | Some x => Byte.eqb x b
  | None => false
  end.

Definition detectMimeType (data : list Byte.byte) : string :=
  if bool_decide (length data < 4) then "application/octet-stream"
  else if byteAt data 0 Byte.x89 && byteAt data 1 Byte.x50
          && byteAt data 2 Byte.x4e && byteAt data 3 Byte.x47
  then "image/png"
  else if byteAt data 0 Byte.xff && byteAt data 1 Byte.xd8
          && byteAt data 2 Byte.xff
  then "image/jpeg"
  else if byteAt data 0 Byte.x47 && byteAt data 1 Byte.x49
          && byteAt data 2 Byte.x46
  then "image/gif"
  else if bool_decide (12 ≤ length data)
          && byteAt data 0 Byte.x52 && byteAt data 1 Byte.x49
          && byteAt data 2 Byte.x46 && byteAt data 3 Byte.x46
          && byteAt data 8 Byte.x57 && byteAt data 9 Byte.x45
          && byteAt data 10 Byte.x42 && byteAt data 11 Byte.x50
  then "image/webp"
  else "application/octet-stream".

Definition formatToMimeType (format : string) : string :=
  if bool_decide (format = "png") then "image/png"
  else if bool_decide (format = "jpeg") then "image/jpeg"
  else if bool_decide (format = "gif") then "image/gif"
  else if bool_decide (format = "webp") then "image/webp"
  else "image/" +:+ format.

Definition DownloadMedia (c : Env) (mxcURI : string)
  : result (list Byte.byte * string) :=
  result_bind (wrapErr "failed to parse MXC URI: " (ParseContentURI c mxcURI))
    (λ _,
  result_bind (wrapErr "failed to download media: " (DownloadBytes c mxcURI))
    (λ data, Ok (data, detectMimeType data))).

Definition UploadMedia (c : Env) (data : list Byte.byte) (mimeType : string)
  : result string :=
  wrapErr "failed to upload media: " (UploadBytes c data mimeType).

Definition GetImageInfo (c : Env) (data : list Byte.byte)
  : result ImageInfo.t :=
  match DecodeConfig c data with
  | Err msg => Err ("failed to decode image: " +:+ msg)
  | Ok (w, h, format) =>
      Ok (ImageInfo.mk w h (Z.of_nat (length data)) (formatToMimeType format))
  end.

Definition HashImage (c : Env) (data : list Byte.byte) : string :=
  Sum256Hex c data.

(** ** internal/matrix: PublishPack *)

(** The body of the loop over [pack.StickerIDs], for the sticker found. *)
Definition stickerData (sticker : Sticker.t) : StickerData.t :=
  (* Use alt-text if available, otherwise original body *)
  let body := Sticker.GeneratedAltText sticker in
  let body := if bool_decide (body = "") then Sticker.OriginalBody sticker
              else body in
  StickerData.mk
    (Sticker.LocalMXC sticker)
    body
    (* Include per-sticker usage if set *)
    (if bool_decide (0 < length (Sticker.Usage sticker))
     then Sticker.Usage sticker else [])
    (Sticker.Width sticker) (Sticker.Height sticker)
    (Sticker.SizeBytes sticker) (Sticker.MimeType sticker).

(** Use Name as the shortcode key (defaults to the id if not set). *)
Definition shortcodeOf (stickerID : string) (sticker : Sticker.t) : string :=
  let shortcode := Sticker.Name sticker in
  if bool_decide (shortcode = "") then stickerID else shortcode.

Fixpoint buildImages (collection : list Sticker.t) (stickerIDs : list string)
    (images : gmap string StickerData.t)
  : result (gmap string StickerData.t) :=
  match stickerIDs with
  | [] => Ok images
  | stickerID :: rest =>
      match findSticker stickerID collection with
      | None => Err ("sticker not found in collection: " +:+ stickerID)
      | Some (_, sticker) =>
          buildImages collection rest
            (<[shortcodeOf stickerID sticker := stickerData sticker]> images)
      end
  end.

Definition packInfoOf (pack : Pack.t) : PackInfo.t :=
  let usage := ["sticker"; "emoticon"] in
  (* Use pack's configured usage if set *)
  let usage := if bool_decide (0 < length (Pack.Usage pack))
               then Pack.Usage pack else usage in
  let avatarURL := if bool_decide (Pack.AvatarURL pack ≠ "")
                   then Pack.AvatarURL pack else "" in
  let attribution := if bool_decide (Pack.Attribution pack ≠ "")
                     then Pack.Attribution pack else "" in
  PackInfo.mk (Pack.DisplayName pack) avatarURL usage attribution.

(** The event content [PublishPack] builds from what it loaded. *)
Definition packContentOf (collection : list Sticker.t) (pack : Pack.t)
  : result PackContent.t :=
  result_bind (buildImages collection (Pack.StickerIDs pack) ∅)
    (λ images, Ok (PackContent.mk (packInfoOf pack) images)).

Definition roomEmotes : string := "im.ponies.room_emotes".

Definition PublishPack (c : Env) (packName roomID : string) : M World unit :=
  pack <- wrap "failed to load pack: " (onDir (GetPack packName)) ;;
  collection <- onDir LoadCollection ;;
  content <- liftR (packContentOf collection pack) ;;
  (* State key is the pack name *)
  let stateKey := packName in
  wrap "failed to send state event: "
       (SendStateEvent c roomID roomEmotes stateKey content) ;;;
  wrap "failed to update published rooms: "
       (onDir (UpdatePublished packName roomID stateKey)).

(** ** internal/bot: reactions.go *)

Definition CR : string := String (ascii_of_nat 13) EmptyString.
Definition LF : string := String (ascii_of_nat 10) EmptyString.

(** Clean up alt-text: replace linebreaks with spaces and trim. *)
Definition cleanAltText `{!Unicode} (altText : string) : string :=
  let altText := strings.ReplaceAll altText (CR +:+ LF) " " in
  let altText := strings.ReplaceAll altText LF " " in
  let altText := strings.ReplaceAll altText CR " " in
  strings.TrimSpace altText.

(** The sticker record [collectSticker] creates. *)
Definition newSticker (c : Env) (stickerID roomID eventID mxcURI localMXC
    : string) (imageInfo : ImageInfo.t) (originalBody altText : string)
  : Sticker.t :=
  Sticker.mk
    stickerID
    stickerID                       (* Name: default to SHA256 hash *)
    (Now c)
    roomID eventID mxcURI localMXC
    (ImageInfo.MimeType imageInfo) (ImageInfo.Width imageInfo)
    (ImageInfo.Height imageInfo) (ImageInfo.SizeBytes imageInfo)
    originalBody altText
    []                              (* InPacks: []string{} *)
    [].                             (* Usage: not set *)

Definition collectSticker `{!Unicode} (c : Env)
    (roomID eventID mxcURI originalBody : string) : M DataDir unit :=
  (* Check if media is already on our homeserver *)
  parsedMXC <- liftR (wrapErr "invalid MXC URI: " (ParseContentURI c mxcURI)) ;;
  let localMXC := mxcURI in
  let needsRehost := bool_decide (parsedMXC ≠ Homeserver c) in
  downloaded <- liftR (wrapErr "download failed: " (DownloadMedia c mxcURI)) ;;
  let '(imageData, detectedMimeType) := downloaded in
  imageInfo <- liftR (wrapErr "failed to get image info: "
                        (GetImageInfo c imageData)) ;;
  let imageInfo :=
    if bool_decide (ImageInfo.MimeType imageInfo = "")
       || bool_decide (ImageInfo.MimeType imageInfo
                       = "application/octet-stream")
    then ImageInfo.mk (ImageInfo.Width imageInfo) (ImageInfo.Height imageInfo)
           (ImageInfo.SizeBytes imageInfo) detectedMimeType
    else imageInfo in
  (* Generate sticker ID from hash *)
  let stickerID := HashImage c imageData in
  (* Upload to local homeserver if needed (rehost) *)
  localMXC <- (if needsRehost
               then liftR (wrapErr "upload failed: "
                             (UploadMedia c imageData
                                (ImageInfo.MimeType imageInfo)))
               else ret localMXC) ;;
  altText <- liftR (wrapErr "alt-text generation failed: "
                      (GenerateAltText c imageData
                         (ImageInfo.MimeType imageInfo))) ;;
  let altText := cleanAltText altText in
  let sticker := newSticker c stickerID roomID eventID mxcURI localMXC
                   imageInfo originalBody altText in
  wrap "failed to save sticker: " (AddSticker sticker).

(** ** internal/bot: commands.go

    A command takes the world to the text it answers with and the world it
    leaves. *)

Definition Command : Type := World → string * World.

Definition packCreate `{!Unicode} (c : Env) (name : string) : Command :=
  λ w,
    (* Keep original name for display *)
    let displayName := name in
    (* Sanitize pack name for ID (lowercase, no spaces) *)
    let packID := strings.ToLower (strings.ReplaceAll name " " "-") in
    (* Forbid "unsorted" as it's a virtual pack *)
    if bool_decide (packID = "unsorted")
    then ("❌ Cannot create pack named 'unsorted' - this is a reserved name for stickers not in any pack", w)
    else
      match onDir (CreatePackWithAttribution packID displayName (UserID c)) w
      with
      | (Err msg, w) => ("❌ Error creating pack: " +:+ msg, w)
      | (Ok _, w) => ("✅ Created pack: " +:+ displayName, w)
      end.

Definition packAdd (packName stickerID : string) : Command :=
  λ w,
    match onDir (AddToPack packName [stickerID]) w with
    | (Err msg, w) => ("❌ Error adding to pack: " +:+ msg, w)
    | (Ok _, w) => ("✅ Added sticker to pack: " +:+ packName, w)
    end.

Definition packRemove (packName stickerID : string) : Command :=
  λ w,
    match onDir (RemoveFromPack packName [stickerID]) w with
    | (Err msg, w) => ("❌ Error removing from pack: " +:+ msg, w)
    | (Ok _, w) => ("✅ Removed sticker from pack: " +:+ packName, w)
    end.

(** The loop of [packPublish] over the saved rooms. Go visits the keys of a
    map in an unspecified order; [rooms] is the order of this run. *)
Fixpoint republish (c : Env) (packName : string) (rooms : list string)
    (successCount : nat) (errors : list string)
  : World → nat * list string * World :=
  λ w,
    match rooms with
    | [] => (successCount, errors, w)
    | savedRoomID :: rooms =>
        match PublishPack c packName savedRoomID w with
        | (Err msg, w) =>
            republish c packName rooms successCount
              (errors ++ [savedRoomID +:+ ": " +:+ msg]) w
        | (Ok _, w) =>
            republish c packName rooms (S successCount) errors w
        end
    end.

Definition packPublish (c : Env) (packName roomID : string) : Command :=
  λ w,
    (* If no room ID provided, republish to all saved rooms *)
    if bool_decide (roomID = "") then
      match onDir (GetPack packName) w with
      | (Err msg, w) => ("❌ Error loading pack: " +:+ msg, w)
      | (Ok pack, w) =>
          if bool_decide (size (Pack.PublishedRooms pack) = 0)
          then ("❌ Pack has not been published to any rooms yet" +:+ LF +:+
                LF +:+ "Use: !sticker pack publish <pack> <room-id> to publish to a specific room", w)
          else
            let rooms := (map_to_list (Pack.PublishedRooms pack)).*1 in
            let '(successCount, errors, w) :=
              republish c packName rooms 0 [] w in
            if bool_decide (0 < length errors)
            then ("⚠️ Published to " +:+ pretty successCount +:+ "/" +:+
                  pretty (size (Pack.PublishedRooms pack)) +:+
                  " rooms" +:+ LF +:+ LF +:+ "Errors:" +:+ LF +:+
                  strings.Join errors LF, w)
            else ("✅ Published pack '" +:+ packName +:+ "' to " +:+
                  pretty successCount +:+ " room(s)", w)
      end
    else if negb (strings.HasPrefix roomID "!")
    then ("❌ Invalid room ID - must start with !" +:+ LF +:+ LF +:+
          "Example: !roomid:matrix.org", w)
    else
      match PublishPack c packName roomID w with
      | (Err msg, w) => ("❌ Error publishing pack: " +:+ msg, w)
      | (Ok _, w) =>
          ("✅ Published pack '" +:+ packName +:+ "' to room " +:+ roomID, w)
      end.

Definition packAvatar (packName avatarURL : string) : Command :=
  λ w,
    if negb (strings.HasPrefix avatarURL "mxc://")
    then ("❌ Invalid MXC URI - must start with mxc://" +:+ LF +:+ LF +:+
          "Example: mxc://matrix.org/abc123...", w)
    else
      match onDir (SetPackAvatar packName avatarURL) w with
      | (Err msg, w) => ("❌ Error setting pack avatar: " +:+ msg, w)
      | (Ok _, w) => ("✅ Set avatar for pack: " +:+ packName, w)
      end.

Definition stickerDelete (stickerID : string) : Command :=
  λ w,
    match onDir (DeleteSticker stickerID) w with
    | (Err msg, w) => ("❌ Error deleting sticker: " +:+ msg, w)
    | (Ok _, w) => ("✅ Deleted sticker: " +:+ stickerID, w)
    end.

Definition stickerUsage `{!Unicode} (stickerID usageStr : string) : Command :=
  λ w,
    match ParseUsage usageStr with
    | Err msg => ("❌ " +:+ msg, w)
    | Ok usage =>
        match onDir (SetStickerUsage stickerID usage) w with
        | (Err msg, w) => ("❌ Error setting sticker usage: " +:+ msg, w)
        | (Ok _, w) =>
            if bool_decide (usage = [])
            then ("✅ Reset usage for sticker " +:+ stickerID +:+
                  " (will inherit from pack)", w)
            else ("✅ Set sticker " +:+ stickerID +:+ " usage to: " +:+
                  FormatUsage usage, w)
        end
    end.

Definition packUsage `{!Unicode} (packName usageStr : string) : Command :=
  λ w,
    match ParseUsage usageStr with
    | Err msg => ("❌ " +:+ msg, w)
    | Ok usage =>
        match onDir (SetPackUsage packName usage) w with
        | (Err msg, w) => ("❌ Error setting pack usage: " +:+ msg, w)
        | (Ok _, w) =>
            if bool_decide (usage = [])
            then ("✅ Reset usage for pack " +:+ packName +:+
                  " (will use default: both)", w)
            else ("✅ Set pack " +:+ packName +:+ " default usage to: " +:+
                  FormatUsage usage, w)
        end
    end.

Definition stickerName (stickerID name : string) : Command :=
  λ w,
    match ValidateShortcode name with
    | Err msg => ("❌ Invalid shortcode: " +:+ msg, w)
    | Ok _ =>
        match onDir (SetStickerName stickerID name) w with
        | (Err msg, w) => ("❌ Error setting sticker name: " +:+ msg, w)
        | (Ok _, w) => ("✅ Set sticker shortcode to: :" +:+ name +:+ ":", w)
        end
    end.

(** *** The commands that only read *)

(** showHelp returns a help message with all available commands *)
Definition showHelp : string :=
  "Pack Management:" +:+ LF +:+ LF +:+
  "- !sticker pack list - List all packs with sticker counts" +:+ LF +:+
  "- !sticker pack create <name> - Create a new pack" +:+ LF +:+
  "- !sticker pack show <pack> - Show stickers in a pack" +:+ LF +:+
  "- !sticker pack add <pack> <sticker-id> - Add sticker to pack" +:+ LF +:+
  "- !sticker pack remove <pack> <sticker-id> - Remove sticker from pack"
    +:+ LF +:+
  "- !sticker pack avatar <pack> <mxc-uri> - Set pack icon" +:+ LF +:+
  "- !sticker pack usage <pack> <type> - Set default usage (sticker/emoticon/both/reset)"
    +:+ LF +:+
  "- !sticker pack publish <pack> [room-id] - Publish to room (or all saved)"
    +:+ LF +:+ LF +:+
  "Listing:" +:+ LF +:+ LF +:+
  "- !sticker list unsorted - Show stickers not in any pack" +:+ LF +:+
  "- !sticker show <sticker-id> - Show sticker with metadata and image"
    +:+ LF +:+ LF +:+
  "Management:" +:+ LF +:+ LF +:+
  "- !sticker name <sticker-id> <shortcode> - Set emoji shortcode (e.g., happy_cat)"
    +:+ LF +:+
  "- !sticker usage <sticker-id> <type> - Set usage (sticker/emoticon/both/reset)"
    +:+ LF +:+
  "- !sticker delete <sticker-id> - Delete sticker from collection"
    +:+ LF +:+ LF +:+
  "**React to any sticker with `!yoink`, `!nom`, or `!grab` to collect it!**".

(** [fmt.Sprintf] of one line of a numbered list, as [packShow] and
    [listUnsorted] write it *)
Definition listLine (n : nat) (stickerID name altText : string) : string :=
  pretty n +:+ ". `" +:+ stickerID +:+ "` (:" +:+ name +:+ ":) - " +:+
  altText +:+ LF.

(** packList lists all packs with sticker counts *)
Definition packList : Command :=
  λ w,
    match onDir ListPacks w with
    | (Err msg, w) => ("❌ Error loading packs: " +:+ msg, w)
    | (Ok packs, w) =>
        (* Count unsorted stickers *)
        match onDir LoadCollection w with
        | (Err msg, w) => ("❌ Error loading collection: " +:+ msg, w)
        | (Ok collection, w) =>
            let unsortedCount :=
              length (filter (λ sticker,
                                length (Sticker.InPacks sticker) = 0)
                        collection) in
            (* Always show "unsorted" meta-pack (even if 0) *)
            let result := "- unsorted (" +:+ pretty unsortedCount +:+ ")"
                          +:+ LF in
            let result :=
              foldl (λ result pack,
                       result +:+ "- " +:+ Pack.Name pack +:+ " (" +:+
                       pretty (length (Pack.StickerIDs pack)) +:+ ")"
                       +:+ LF)
                    result packs in
            (* Add helpful message if no packs created yet *)
            let result :=
              if bool_decide (length packs = 0)
              then result +:+ LF +:+
                   "Create a pack with: !sticker pack create <name>"
              else result in
            (result, w)
        end
    end.

(** The loop of [packShow] over [pack.StickerIDs]; [i] is the index. *)
Fixpoint packShowLines (collection : list Sticker.t) (i : nat)
    (stickerIDs : list string) : string :=
  match stickerIDs with
  | [] => ""
  | stickerID :: rest =>
      (* Find the sticker in collection *)
      let '(altText, name) :=
        match findSticker stickerID collection with
        | Some (_, sticker) =>
            (Sticker.GeneratedAltText sticker, Sticker.Name sticker)
        | None => ("", "")
        end in
      let altText := if bool_decide (altText = "") then "(no alt-text)"
                     else altText in
      listLine (i + 1) stickerID name altText
      +:+ packShowLines collection (S i) rest
  end.

(** packShow shows stickers in a pack *)
Definition packShow (packName : string) : Command :=
  λ w,
    match onDir (GetPack packName) w with
    | (Err msg, w) => ("❌ Error loading pack: " +:+ msg, w)
    | (Ok pack, w) =>
        if bool_decide (length (Pack.StickerIDs pack) = 0)
        then ("Pack is empty", w)
        else
          (* Load stickers to show their alt-text *)
          match onDir LoadCollection w with
          | (Err msg, w) => ("❌ Error loading collection: " +:+ msg, w)
          | (Ok collection, w) =>
              (packShowLines collection 0 (Pack.StickerIDs pack), w)
          end
    end.

(** stickerShow displays a sticker with metadata and image *)
Definition stickerShow (stickerID : string) : Command :=
  λ w,
    match onDir LoadCollection w with
    | (Err msg, w) => ("❌ Error loading collection: " +:+ msg, w)
    | (Ok collection, w) =>
        match findSticker stickerID collection with
        | None => ("❌ Sticker not found: " +:+ stickerID, w)
        | Some (_, sticker) =>
            let altText := Sticker.GeneratedAltText sticker in
            let altText := if bool_decide (altText = "")
                           then Sticker.OriginalBody sticker else altText in
            let altText := if bool_decide (altText = "") then "Sticker"
                           else altText in
            (* Metadata as list *)
            let result :=
              "- **ID:** `" +:+ Sticker.ID sticker +:+ "`" +:+ LF +:+
              "- **Name:** `:" +:+ Sticker.Name sticker +:+ ":`" +:+ LF +:+
              "- **Alt-text:** " +:+ altText +:+ LF +:+
              "- **Size:** " +:+ pretty (Sticker.Width sticker) +:+ "x" +:+
              pretty (Sticker.Height sticker) +:+ ", " +:+
              Sticker.MimeType sticker +:+ LF in
            (* Packs *)
            let result :=
              if bool_decide (0 < length (Sticker.InPacks sticker))
              then result +:+ "- **Packs:** " +:+
                   strings.Join (Sticker.InPacks sticker) ", " +:+ LF
              else result +:+ "- **Packs:** (unsorted)" +:+ LF in
            (* Blank line before image *)
            let result := result +:+ LF in
            (* Markdown image for clients that support it *)
            (result +:+ "![" +:+ altText +:+ "](" +:+
             Sticker.LocalMXC sticker +:+ ")", w)
        end
    end.

(** The loop of [listUnsorted] over the stickers without a pack. *)
Fixpoint listUnsortedLines (i : nat) (unsorted : list Sticker.t) : string :=
  match unsorted with
  | [] => ""
  | sticker :: rest =>
      let altText := Sticker.GeneratedAltText sticker in
      let altText := if bool_decide (altText = "") then "(no alt-text)"
                     else altText in
      listLine (i + 1) (Sticker.ID sticker) (Sticker.Name sticker) altText
      +:+ listUnsortedLines (S i) rest
  end.

(** listUnsorted lists stickers not in any pack *)
Definition listUnsorted : Command :=
  λ w,
    match onDir LoadCollection w with
    | (Err msg, w) => ("❌ Error loading collection: " +:+ msg, w)
    | (Ok collection, w) =>
        let unsorted :=
          filter (λ sticker, length (Sticker.InPacks sticker) = 0)
            collection in
        if bool_decide (length unsorted = 0)
        then ("All stickers are organized into packs!", w)
        else (listUnsortedLines 0 unsorted, w)
    end.

(** *** The router *)

(** handlePackCommand handles !sticker pack <subcommand> *)
Definition handlePackCommand `{!Unicode} (c : Env) (args : list string)
  : Command :=
  λ w,
    match args with
    | [] => ("❌ No pack subcommand specified. Try: pack list, pack create, pack add, pack remove, pack show, pack avatar, pack publish", w)
    | subcommand :: rest =>
        if bool_decide (subcommand = "list") then packList w
        else if bool_decide (subcommand = "create") then
          match rest with
          | [] => ("❌ Usage: !sticker pack create <name>", w)
          | _ =>
              (* Join all remaining args as pack name *)
              let packName := strings.Join rest " " in
              packCreate c packName w
          end
        else if bool_decide (subcommand = "add") then
          match rest with
          | packName :: stickerID :: _ => packAdd packName stickerID w
          | _ =>
              ("❌ Usage: !sticker pack add <pack-name> <sticker-id>" +:+ LF
               +:+ LF +:+
               "Example: !sticker pack add favourites abc123..." +:+ LF +:+
               LF +:+
               "Use `!sticker pack list` to see available packs, or create one with `!sticker pack create <name>`", w)
          end
        else if bool_decide (subcommand = "remove") then
          match rest with
          | packName :: stickerID :: _ => packRemove packName stickerID w
          | _ =>
              ("❌ Usage: !sticker pack remove <pack-name> <sticker-id>" +:+
               LF +:+ LF +:+
               "Example: !sticker pack remove favourites abc123...", w)
          end
        else if bool_decide (subcommand = "show") then
          match rest with
          | packName :: _ => packShow packName w
          | [] => ("❌ Usage: !sticker pack show <pack>", w)
          end
        else if bool_decide (subcommand = "publish") then
          match rest with
          | [] =>
              ("❌ Usage: !sticker pack publish <pack-name> [room-id]" +:+ LF
               +:+ LF +:+
               "Publish to a specific room: !sticker pack publish favourites !roomid:matrix.org"
               +:+ LF +:+
               "Re-publish to all saved rooms: !sticker pack publish favourites",
               w)
          | packName :: rest =>
              (* Optional room ID - if not provided, republish to all saved
                 rooms *)
              let roomID := match rest with
                            | roomID :: _ => roomID
                            | [] => ""
                            end in
              packPublish c packName roomID w
          end
        else if bool_decide (subcommand = "avatar") then
          match rest with
          | packName :: avatarURL :: _ => packAvatar packName avatarURL w
          | _ =>
              ("❌ Usage: !sticker pack avatar <pack-name> <mxc-uri>" +:+ LF
               +:+ LF +:+
               "Example: !sticker pack avatar favourites mxc://matrix.org/abc123...",
               w)
          end
        else if bool_decide (subcommand = "usage") then
          match rest with
          | packName :: usageStr :: _ => packUsage packName usageStr w
          | _ =>
              ("❌ Usage: !sticker pack usage <pack-name> <sticker|emoticon|emoji|both|reset>"
               +:+ LF +:+ LF +:+
               "Sets default usage for all stickers in this pack. Individual stickers can override this.",
               w)
          end
        else ("❌ Unknown pack subcommand: " +:+ subcommand, w)
    end.

(** handleListCommand handles !sticker list <subcommand> *)
Definition handleListCommand (args : list string) : Command :=
  λ w,
    match args with
    | [] => ("❌ No list subcommand specified. Try: list unsorted", w)
    | subcommand :: _ =>
        if bool_decide (subcommand = "unsorted") then listUnsorted w
        else ("❌ Unknown list subcommand: " +:+ subcommand, w)
    end.

(** executeCommand parses and executes a !sticker command *)
Definition executeCommand `{!Unicode} `{!UnicodeFields} (c : Env)
    (body : string) : Command :=
  λ w,
    let body := strings.TrimSpace body in
    (* Show help if just "!sticker" with no args *)
    if bool_decide (String.length body ≤ 8) then (showHelp, w)
    else
      (* Parse args (skip "!sticker ") *)
      let args := strings.Fields (strings.drop 8 body) in
      match args with
      | [] => (showHelp, w)
      | command :: rest =>
          if bool_decide (command = "pack") then handlePackCommand c rest w
          else if bool_decide (command = "list")
          then handleListCommand rest w
          else if bool_decide (command = "show") then
            match rest with
            | stickerID :: _ => stickerShow stickerID w
            | [] => ("❌ Usage: !sticker show <sticker-id>", w)
            end
          else if bool_decide (command = "delete")
                  || bool_decide (command = "remove") then
            match rest with
            | stickerID :: _ => stickerDelete stickerID w
            | [] => ("❌ Usage: !sticker delete <sticker-id>", w)
            end
          else if bool_decide (command = "usage") then
            match rest with
            | stickerID :: usageStr :: _ => stickerUsage stickerID usageStr w
            | _ =>
                ("❌ Usage: !sticker usage <sticker-id> <sticker|emoticon|emoji|both|reset>"
                 +:+ LF +:+ LF +:+
                 "Sets how this sticker can be used. Use 'reset' to clear override and inherit from pack.",
                 w)
            end
          else if bool_decide (command = "name") then
            match rest with
            | stickerID :: name :: _ => stickerName stickerID name w
            | _ =>
                ("❌ Usage: !sticker name <sticker-id> <shortcode>" +:+ LF
                 +:+ LF +:+
                 "Sets the emoji shortcode name (e.g., 'happy_cat' becomes :happy_cat:). Defaults to SHA256 hash.",
                 w)
            end
          else ("❌ Unknown command: " +:+ command +:+ LF +:+ LF +:+
                showHelp, w)
      end.

(** ** Reachable worlds

    The calls by which the program changes its state: the mutating functions
    of the storage package, and [PublishPack], the one caller of
    [UpdatePublished]. Every command above and the collection workflow are
    sequences of these calls. *)

Inductive StorageCall : Type :=
  | CallAddSticker (sticker : Sticker.t)
  | CallUpdateAltText (id altText : string)
  | CallSetStickerUsage (stickerID : string) (usage : list string)
  | CallSetStickerName (stickerID name : string)
  | CallDeleteSticker (id : string)
  | CallCreatePack (name displayName attribution : string)
  | CallAddToPack (packName : string) (stickerIDs : list string)
  | CallRemoveFromPack (packName : string) (stickerIDs : list string)
  | CallSetPackAvatar (packName avatarURL : string)
  | CallSetPackUsage (packName : string) (usage : list string).

Definition runCall (call : StorageCall) : M DataDir unit :=
  match call with
  | CallAddSticker sticker => AddSticker sticker
  | CallUpdateAltText id altText => UpdateAltText id altText
  | CallSetStickerUsage stickerID usage => SetStickerUsage stickerID usage
  | CallSetStickerName stickerID name => SetStickerName stickerID name
  | CallDeleteSticker id => DeleteSticker id
  | CallCreatePack name displayName attribution =>
      CreatePackWithAttribution name displayName attribution
  | CallAddToPack packName stickerIDs => AddToPack packName stickerIDs
  | CallRemoveFromPack packName stickerIDs =>
      RemoveFromPack packName stickerIDs
  | CallSetPackAvatar packName avatarURL => SetPackAvatar packName avatarURL
  | CallSetPackUsage packName usage => SetPackUsage packName usage
  end.

Inductive reachable : World → Prop :=
  | reachable_initial : reachable initialWorld
  | reachable_storage w call :
      reachable w → reachable (onDir (runCall call) w).2
  | reachable_publish w c packName roomID :
      reachable w → reachable (PublishPack c packName roomID w).2.

(** ** internal/llm: vision.go

    The request to the captioning service and the base64 encoding of the
    image are the client's: the first answers with the content blocks of the
    message, each with its type and text. *)

Module llm.

Record ContentBlock := {
  BlockType : string;             (* Type *)
  Text : string
}.

Record Client := {
  (* base64.StdEncoding.EncodeToString *)
  EncodeToString : list Byte.byte → string;
  (* c.client.Messages.New with the image block and the prompt *)
  MessagesNew : string → string → result (list ContentBlock)
}.

Definition isImageMimeType (mimeType : string) : bool :=
  let validTypes := ["image/png"; "image/jpeg"; "image/gif"; "image/webp"] in
  bool_decide (mimeType ∈ validTypes).

Definition GenerateAltText (c : Client) (imageData : list Byte.byte)
    (mimeType : string) : result string :=
  if bool_decide (length imageData = 0) then Err "image data is empty"
  else if negb (isImageMimeType mimeType)
  then Err ("invalid MIME type for image: " +:+ mimeType)
  else
    let base64Image := EncodeToString c imageData in
    match MessagesNew c mimeType base64Image with
    | Err msg => Err ("failed to generate alt-text: " +:+ msg)
    | Ok content =>
        match content with
        | [] => Err "no content in response"
        | block :: _ =>
            if bool_decide (BlockType block ≠ "text")
            then Err ("unexpected response type: " +:+ BlockType block)
            else Ok (Text block)
        end
    end.

End llm.

(** ** maunium.net/go/mautrix/event, as far as the handlers look at it *)

Module event.

Inductive TypeClass : Type :=
  | UnknownEventType
  | StateEventType
  | EphemeralEventType
  | AccountDataEventType
  | MessageEventType
  | ToDeviceEventType.

(** [event.Type]; its field [Type] is [TypeName] here *)
Record EventType := {
  TypeName : string;
  Class : TypeClass
}.

Definition EventSticker : EventType :=
  {| TypeName := "m.sticker"; Class := MessageEventType |}.
Definition EventMessage : EventType :=
  {| TypeName := "m.room.message"; Class := MessageEventType |}.
Definition EventReaction : EventType :=
  {| TypeName := "m.reaction"; Class := MessageEventType |}.

Definition MsgText : string := "m.text".
Definition MsgImage : string := "m.image".
Definition RelReplace : string := "m.replace".
Definition FormatHTML : string := "org.matrix.custom.html".

Record RelatesTo := {
  RelType : string;                       (* Type *)
  EventID : string;
  Key : string
}.

Inductive MessageEventContent : Type := mkMessage {
  MsgType : string;
  Body : string;
  URL : string;
  Format : string;
  FormattedBody : string;
  NewContent : option MessageEventContent;
  MessageRelatesTo : option RelatesTo     (* RelatesTo *)
}.

Record ReactionEventContent := {
  ReactionRelatesTo : RelatesTo           (* RelatesTo *)
}.

(** [Content.Parsed], an interface value: the two types the handlers assert,
    and anything else *)
Inductive ParsedContent : Type :=
  | ParsedMessage (content : MessageEventContent)
  | ParsedReaction (content : ReactionEventContent)
  | ParsedOther.

Record Event := {
  Type_ : EventType;                      (* Type *)
  Sender : string;
  RoomID : string;
  ID : string;
  Parsed : ParsedContent;
  Raw : gmap string json                  (* Content.Raw *)
}.

End event.

#[global] Instance TypeClass_eq_dec : EqDecision event.TypeClass.
Proof. solve_decision. Defined.

#[global] Instance EventType_eq_dec : EqDecision event.EventType.
Proof. solve_decision. Defined.

(** [v.(string)] on a value of [Content.Raw] *)
Definition rawString (raw : gmap string json) (key : string)
  : option string :=
  match raw !! key with
  | Some (JString s) => Some s
  | _ => None
  end.

(** ** internal/bot: the event handlers *)

(** The homeserver as the handlers meet it, and the Markdown renderer
    behind [markdownToHTML]. *)
Record Mautrix := {
  GetEvent : string → string → result event.Event;
  (* the homeserver's answers to RedactEvent and to SendMessageEvent *)
  RedactEventResult : string → string → result string;
  SendMessageEventResult :
    string → event.MessageEventContent → result string;
  markdownToHTML : string → string
}.

(** What the handlers act on: the world of the commands, the message events
    handed to the homeserver, each with its room, and the redactions asked
    for, each as room and event (most recent last). *)
Record Bot := {
  world : World;
  sent : list (string * event.MessageEventContent);
  redacted : list (string * string)
}.

Definition onWorld {A} (m : M World A) : M Bot A :=
  λ b, let '(r, w) := m (world b) in
       (r, {| world := w; sent := sent b; redacted := redacted b |}).

(** validCommands are the reaction commands we respond to *)
Definition validCommands : gmap string bool :=
  {[ "!yoink" := true; "!nom" := true; "!grab" := true ]}.

(** extractImageData extracts the MXC URI and body text from an image or
    sticker event *)
Definition extractImageData (evt : event.Event) : result (string * string) :=
  if bool_decide (event.Type_ evt = event.EventSticker) then
    (* m.sticker events might not be parsed - try parsed first, fall back
       to raw *)
    match event.Parsed evt with
    | event.ParsedMessage content =>
        Ok (event.URL content, event.Body content)
    | _ =>
        match rawString (event.Raw evt) "url" with
        | None => Err "sticker missing url field"
        | Some url =>
            let body := default "" (rawString (event.Raw evt) "body") in
            Ok (url, body)
        end
    end
  else if bool_decide (event.Type_ evt = event.EventMessage) then
    match event.Parsed evt with
    | event.ParsedMessage content =>
        if bool_decide (event.MsgType content ≠ event.MsgImage)
        then Err ("message is not an image (msgtype=" +:+
                  event.MsgType content +:+ ")")
        else Ok (event.URL content, event.Body content)
    | _ =>
        let msgtype := default "" (rawString (event.Raw evt) "msgtype") in
        if bool_decide (rawString (event.Raw evt) "msgtype" = None)
           || bool_decide (msgtype ≠ "m.image")
        then Err ("message is not an image (msgtype=" +:+ msgtype +:+ ")")
        else
          match rawString (event.Raw evt) "url" with
          | None => Err "message missing url field"
          | Some url =>
              let body := default "" (rawString (event.Raw evt) "body") in
              Ok (url, body)
          end
    end
  else Err ("unsupported event type: " +:+
            event.TypeName (event.Type_ evt)).

(** redactReaction redacts the reaction event to confirm collection *)
Definition redactReaction (t : Mautrix) (roomID reactionEventID : string)
  : M Bot unit :=
  λ b,
    (match RedactEventResult t roomID reactionEventID with
     | Ok _ => Ok tt
     | Err msg => Err msg
     end,
     {| world := world b; sent := sent b;
        redacted := redacted b ++ [(roomID, reactionEventID)] |}).

(** processReaction handles a reaction event and collects the sticker if
    appropriate *)
Definition processReaction `{!Unicode} (c : Env) (t : Mautrix)
    (evt : event.Event) : M Bot unit :=
  match event.Parsed evt with
  | event.ParsedReaction content =>
      (* Check if this is one of our collection commands *)
      let reaction := event.Key (event.ReactionRelatesTo content) in
      if negb (default false (validCommands !! reaction))
      then ret tt                (* Not a collection command, ignore *)
      else
        (* Get the parent event that was reacted to *)
        let parentEventID :=
          event.EventID (event.ReactionRelatesTo content) in
        parentEvent <- liftR (wrapErr "failed to get parent event: "
                                (GetEvent t (event.RoomID evt)
                                   parentEventID)) ;;
        (* Extract image data from parent event *)
        extracted <- liftR (wrapErr
                              "parent event is not a valid image/sticker: "
                              (extractImageData parentEvent)) ;;
        let '(mxcURI, body) := extracted in
        (* Run the collection workflow *)
        wrap "failed to collect sticker: "
          (onWorld (onDir (collectSticker c (event.RoomID evt) parentEventID
                             mxcURI body))) ;;;
        (* Redact the reaction to confirm collection (cleaner timeline) *)
        warnOnly (redactReaction t (event.RoomID evt) (event.ID evt))
  | _ => fail "failed to parse reaction content"
  end.

(** handleReaction is called for every m.reaction event *)
Definition handleReaction `{!Unicode} (c : Env) (t : Mautrix)
    (evt : event.Event) : Bot → Bot :=
  λ b,
    (* Only process reactions from our user *)
    if bool_decide (event.Sender evt ≠ UserID c) then b
    else (warnOnly (processReaction c t evt) b).2.

(** editMessage edits a message to show the command result *)
Definition editMessage (t : Mautrix) (roomID eventID originalBody
    result : string) : M Bot unit :=
  λ b,
    (* Construct the edited message body *)
    let newBody := originalBody +:+ LF +:+ LF +:+ result in
    (* Convert markdown to HTML for formatted_body *)
    let formattedBody := markdownToHTML t newBody in
    let content :=
      event.mkMessage event.MsgText newBody "" event.FormatHTML
        formattedBody
        (Some (event.mkMessage event.MsgText newBody "" event.FormatHTML
                 formattedBody None None))
        (Some {| event.RelType := event.RelReplace;
                 event.EventID := eventID;
                 event.Key := "" |}) in
    (match SendMessageEventResult t roomID content with
     | Ok _ => Ok tt
     | Err msg => Err msg
     end,
     {| world := world b; sent := sent b ++ [(roomID, content)];
        redacted := redacted b |}).

(** handleMessage processes text messages looking for !sticker commands *)
Definition handleMessage `{!Unicode} `{!UnicodeFields} (c : Env)
    (t : Mautrix) (evt : event.Event) : Bot → Bot :=
  λ b,
    (* Only process messages from our user *)
    if bool_decide (event.Sender evt ≠ UserID c) then b
    else
      match event.Parsed evt with
      | event.ParsedMessage content =>
          (* Skip edits (don't respond to our own command results) *)
          if match event.MessageRelatesTo content with
             | Some relatesTo =>
                 bool_decide (event.RelType relatesTo = event.RelReplace)
             | None => false
             end
          then b
          (* Only process text messages *)
          else if bool_decide (event.MsgType content ≠ event.MsgText) then b
          else
            (* Check if message starts with !sticker *)
            let body := strings.TrimSpace (event.Body content) in
            if negb (strings.HasPrefix body "!sticker") then b
            else
              (* Parse and execute command *)
              let '(result, w) := executeCommand c body (world b) in
              (* Edit the original message with the result *)
              (warnOnly (editMessage t (event.RoomID evt) (event.ID evt)
                           body result)
                 {| world := w; sent := sent b; redacted := redacted b |}).2
      | _ => b
      end.

(** ** The vocabulary of the specification *)

(** Case-insensitive comparison of ASCII text, written without [ToLower]:
    two bytes agree when they are equal, or when both are letters that
    differ by the distance between the two cases. *)
Definition isLetter (c : ascii) : bool :=
  let n := nat_of_ascii c in
  (bool_decide (65 ≤ n) && bool_decide (n ≤ 90))
  || (bool_decide (97 ≤ n) && bool_decide (n ≤ 122)).

Definition sameFold (a b : ascii) : bool :=
  bool_decide (a = b)
  || (isLetter a && isLetter b
      && (bool_decide (nat_of_ascii a + 32 = nat_of_ascii b)
          || bool_decide (nat_of_ascii b + 32 = nat_of_ascii a))).

Fixpoint EqualFold (s t : string) : bool :=
  match s, t with
  | EmptyString, EmptyString => true
  | String a s, String b t => sameFold a b && EqualFold s t
  | _, _ => false
  end.

(** A token of a command line: what [strings.Fields] yields on ASCII text,
    a word without white space. *)
Definition isToken (s : string) : bool :=
  strings.isASCII s && strings.allBytes (λ c, negb (Ascii.is_space c)) s.

(** The normalized name of a pack: case-folded, spaces to hyphens. *)
Definition normalizeName (name : string) : string :=
  strings.mapBytes
    (λ c, if bool_decide (c = " "%char) then "-"%char
          else strings.lowerByte c)
    name.

Definition isLowerLetter (c : ascii) : bool :=
  bool_decide (97 ≤ nat_of_ascii c) && bool_decide (nat_of_ascii c ≤ 122).



(** Text without a line break. *)
Definition isLineBreak (c : ascii) : bool :=
  bool_decide (nat_of_ascii c = 10) || bool_decide (nat_of_ascii c = 13).

Definition oneLine (s : string) : bool :=
  strings.allBytes (λ c, negb (isLineBreak c)) s.

(** Text that does not begin with white space. *)
Definition startsClean (s : string) : bool :=
  match s with
  | EmptyString => true
  | String c _ => negb (Ascii.is_space c)
  end.

(** The ids of the collection, and the names of the packs. *)
Definition stickerIDsOf (d : DataDir) : list string :=
  Sticker.ID <$> collection d.

Definition packNamesOf (d : DataDir) : list string :=
  Pack.Name <$> packs d.

(** Bidirectional membership: for a pack and a sticker of the store, the
    sticker's id is a member of the pack iff the pack's name is in the
    sticker's list; and no pack lists an id twice. *)
Definition bidirectional (d : DataDir) : Prop :=
  ∀ pack sticker,
    pack ∈ packs d → sticker ∈ collection d →
    (Sticker.ID sticker ∈ Pack.StickerIDs pack
     ↔ Pack.Name pack ∈ Sticker.InPacks sticker).

Definition membersUnique (d : DataDir) : Prop :=
  ∀ pack, pack ∈ packs d → NoDup (Pack.StickerIDs pack).

(** What the storage functions keep of a data directory they built: ids and
    pack names are keys, members are stickers of the collection, the packs a
    sticker lists exist, and membership is recorded on both sides. *)
Record consistent (d : DataDir) : Prop := {
  consistent_ids : NoDup (stickerIDsOf d);
  consistent_names : NoDup (packNamesOf d);
  consistent_unique : membersUnique d;
  consistent_members :
    ∀ pack id, pack ∈ packs d → id ∈ Pack.StickerIDs pack →
               id ∈ stickerIDsOf d;
  consistent_listed :
    ∀ sticker name, sticker ∈ collection d →
                    name ∈ Sticker.InPacks sticker → name ∈ packNamesOf d;
  consistent_both : bidirectional d
}.

(** A field of a JSON object; [None] when the field is omitted. *)
Definition jsonField (key : string) (j : json) : option json :=
  match j with
  | JObject fields => fields !! key
  | _ => None
  end.

(** The entry of a shortcode in the images of a marshalled pack content. *)
Definition payloadImage (shortcode : string) (payload : json) : option json :=
  jsonField "images" payload ≫= jsonField shortcode.

(** The event [PublishPack] hands to the homeserver for a pack. *)
Definition packEvent (roomID packName : string) (content : PackContent.t)
  : StateEvent :=
  {| evRoom := roomID; evType := roomEmotes; evStateKey := packName;
     evContent := content |}.

(** The state of a data directory in the middle of [DeleteSticker]: the
    sticker [id] has left the collection, and the packs named in [names],
    still to be visited, may list it. *)
Record consistentBut (id : string) (names : list string) (d : DataDir)
  : Prop := {
  but_ids : NoDup (stickerIDsOf d);
  but_gone : id ∉ stickerIDsOf d;
  but_names : NoDup (packNamesOf d);
  but_unique : membersUnique d;
  but_members :
    ∀ pack x, pack ∈ packs d → x ∈ Pack.StickerIDs pack →
              x ∈ stickerIDsOf d ∨ (x = id ∧ Pack.Name pack ∈ names);
  but_listed :
    ∀ sticker name, sticker ∈ collection d →
                    name ∈ Sticker.InPacks sticker → name ∈ packNamesOf d;
  but_both : bidirectional d
}.

(** The one call that can break consistency is [AddSticker]; it keeps it
    when the record it is given lists the packs the stored record lists
    (none, for a new sticker). *)
Definition keepsPackList (call : StorageCall) (d : DataDir) : Prop :=
  match call with
  | CallAddSticker sticker =>
      match findSticker (Sticker.ID sticker) (collection d) with
      | Some (_, existing) =>
          Sticker.InPacks sticker = Sticker.InPacks existing
      | None => Sticker.InPacks sticker = []
      end
  | _ => True
  end.

(** A sequence of storage calls, run one after the other whatever each
    returns, and the condition that none of its [AddSticker]s changes a
    stored pack list. *)
Fixpoint runCalls (calls : list StorageCall) (d : DataDir) : DataDir :=
  match calls with
  | [] => d
  | call :: calls => runCalls calls (runCall call d).2
  end.

Fixpoint keepPackLists (calls : list StorageCall) (d : DataDir) : Prop :=
  match calls with
  | [] => True
  | call :: calls =>
      keepsPackList call d ∧ keepPackLists calls (runCall call d).2
  end.

(** Every entry of a pack's publish ledger holds the pack's own name. *)
Definition ledgerKeyed (pack : Pack.t) : Prop :=
  ∀ roomID stateKey,
    Pack.PublishedRooms pack !! roomID = Some stateKey →
    stateKey = Pack.Name pack.

Definition ledgersKeyed (d : DataDir) : Prop :=
  Forall ledgerKeyed (packs d).

(** What a command may do to the world: drop stickers, add packs at the
    end of the list, and hand more events to the homeserver. *)
Definition commandStep (w w' : World) : Prop :=
  stickerIDsOf (dataDir w') `sublist_of` stickerIDsOf (dataDir w)
  ∧ packNamesOf (dataDir w) `prefix_of` packNamesOf (dataDir w')
  ∧ delivered w `prefix_of` delivered w'.

(** What holds of a command that is one storage call: it makes a step,
    hands nothing to the homeserver, and answers with an error only if it
    has written nothing. *)
Definition quietStep (w : World) (out : string * World) : Prop :=
  commandStep w out.2
  ∧ delivered out.2 = delivered w
  ∧ (strings.HasPrefix out.1 "❌" = true → out.2 = w).

(** ** A small world, for the examples

    An environment with one image in it, a 1x1 PNG hosted on another
    homeserver, and the data directory of a user who collected it, named it,
    gave it a usage and put it in a pack. The text is ASCII, on which the
    Unicode tables are never consulted. *)

Definition asciiOnly : Unicode :=
  {| unicodeToLower := id; unicodeTrimSpace := id |}.

(** On ASCII text [strings.Fields] never consults the tables either. *)
Definition asciiFields : UnicodeFields := {| unicodeFields := λ s, [s] |}.

Definition pixel : list Byte.byte :=
  [ Byte.x89; Byte.x50; Byte.x4e; Byte.x47; Byte.x0d; Byte.x0a; Byte.x1a;
    Byte.x0a; Byte.x00; Byte.x00; Byte.x00; Byte.x0d; Byte.x49; Byte.x48;
    Byte.x44; Byte.x52; Byte.x00; Byte.x00; Byte.x00; Byte.x01; Byte.x00;
    Byte.x00; Byte.x00; Byte.x01; Byte.x08; Byte.x00; Byte.x00; Byte.x00;
    Byte.x00; Byte.x3a; Byte.x7e; Byte.x9b; Byte.x55; Byte.x00; Byte.x00;
    Byte.x00; Byte.x0a; Byte.x49; Byte.x44; Byte.x41; Byte.x54; Byte.x78;
    Byte.x9c; Byte.x63; Byte.x60; Byte.x00; Byte.x00; Byte.x00; Byte.x02;
    Byte.x00; Byte.x01; Byte.x48; Byte.xaf; Byte.xa4; Byte.x71; Byte.x00;
    Byte.x00; Byte.x00; Byte.x00; Byte.x49; Byte.x45; Byte.x4e; Byte.x44;
    Byte.xae; Byte.x42; Byte.x60; Byte.x82 ].

Definition pixelID : string :=
  "eaa4a94ea300e0d2c775968cbe42f0b5b51ceafdeb73d64e9efddf6d4e880865".

Definition pixelEnv : Env :=
  {| UserID := "@stickerbook:example.org";
     Homeserver := "example.org";
     ParseContentURI := λ _, Ok "matrix.org";
     DownloadBytes := λ _, Ok pixel;
     UploadBytes := λ _ _, Ok "mxc://example.org/rehosted";
     SendStateEventResult := λ _, Ok "$state";
     GenerateAltText := λ _ _, Ok "A single grey pixel";
     DecodeConfig := λ _, Ok (1%Z, 1%Z, "png");
     Sum256Hex := λ _, pixelID;
     Now := 1700000000%Z |}.

Definition pixelSticker : Sticker.t :=
  Sticker.mk pixelID "grey_dot" 1700000000 "!room:matrix.org" "$event"
    "mxc://matrix.org/pixel" "mxc://example.org/rehosted" "image/png" 1 1 67
    "pixel.png" "A single grey pixel" ["favourites"] ["emoticon"].

Definition favourites : Pack.t :=
  Pack.mk "favourites" "Favourites" "" "@stickerbook:example.org" [pixelID]
    ∅ [].

Definition curated : DataDir :=
  {| collection := [pixelSticker]; packs := [favourites] |}.

(** The same directory before any curation: the image as collected, and
    the pack still empty. *)
Definition freshPixel : Sticker.t :=
  newSticker pixelEnv pixelID "!room:matrix.org" "$event"
    "mxc://matrix.org/pixel" "mxc://example.org/rehosted"
    (ImageInfo.mk 1 1 67 "image/png") "pixel.png" "A single grey pixel".

Definition emptyFavourites : Pack.t :=
  Pack.mk "favourites" "Favourites" "" "@stickerbook:example.org" [] ∅ [].

Definition collected : DataDir :=
  {| collection := [freshPixel]; packs := [emptyFavourites] |}.

(** A sticker without any caption, as the tests of the bot add it, in a
    pack of its own. *)
Definition bareSticker : Sticker.t :=
  Sticker.mk "sha256:test123" "" 1700000000 "" "" "" "" "" 0 0 0 "" "" 
    ["test-pack"] [].

Definition testPack : Pack.t :=
  Pack.mk "test-pack" "Test Pack" "" "" ["sha256:test123"] ∅ [].

Definition bare : World :=
  {| dataDir := {| collection := [bareSticker]; packs := [testPack] |};
     delivered := [] |}.

(** The event that publishing "test-pack" from [bare] delivers. *)
Definition bareEvent : StateEvent :=
  packEvent "!room:example.org" "test-pack"
    (PackContent.mk
       (PackInfo.mk "Test Pack" "" ["sticker"; "emoticon"] "")
       {[ "sha256:test123" := StickerData.mk "" "" [] 0 0 0 "" ]}).

(** The world of [curated], before anything was published. *)
Definition curatedWorld : World := {| dataDir := curated; delivered := [] |}.

(** [bare], once "test-pack" has been published to a room. *)
Definition published : World :=
  {| dataDir :=
       {| collection := [bareSticker];
          packs := [Pack.withPublishedRooms
                      {[ "!room:example.org" := "test-pack" ]} testPack] |};
     delivered := [bareEvent] |}.

(** The calls that build [curated] from nothing. *)
Definition curate : M DataDir unit :=
  collectSticker (H := asciiOnly) pixelEnv "!room:matrix.org" "$event"
    "mxc://matrix.org/pixel" "pixel.png" ;;;
  CreatePackWithAttribution "favourites" "Favourites"
    "@stickerbook:example.org" ;;;
  AddToPack "favourites" [pixelID] ;;;
  SetStickerName pixelID "grey_dot" ;;;
  SetStickerUsage pixelID ["emoticon"].

(** Collecting the same image once more. *)
Definition recollect : M DataDir unit :=
  collectSticker (H := asciiOnly) pixelEnv "!other:matrix.org" "$later"
    "mxc://matrix.org/pixel" "pixel.png".

(** Three stickers in one pack, two of them given the same shortcode: the
    directory that [twinsCalls] builds from nothing. The first twin has a
    usage override and the second has none; the sticker between them has a
    shortcode of its own, a usage override and no generated caption. *)
Definition twinFirst : Sticker.t :=
  Sticker.mk "sha256:first" "dup" 1700000000 "" "" ""
    "mxc://example.org/first" "image/png" 1 1 67 "first.png" "First twin"
    ["twins"] ["sticker"].

Definition twinSolo : Sticker.t :=
  Sticker.mk "sha256:solo" "solo" 1700000000 "" "" ""
    "mxc://example.org/solo" "image/png" 1 1 67 "solo.png" ""
    ["twins"] ["emoticon"].

Definition twinSecond : Sticker.t :=
  Sticker.mk "sha256:second" "dup" 1700000000 "" "" ""
    "mxc://example.org/second" "image/png" 1 1 67 "second.png" "Second twin"
    ["twins"] [].

Definition twinsPack : Pack.t :=
  Pack.mk "twins" "Twins" "" ""
    ["sha256:first"; "sha256:solo"; "sha256:second"] ∅ [].

Definition twins : DataDir :=
  {| collection := [twinFirst; twinSolo; twinSecond]; packs := [twinsPack] |}.

Definition twinsWorld : World := {| dataDir := twins; delivered := [] |}.

(** a sticker as it is first stored: no name, no pack, no usage *)
Definition unnamed (id localMXC originalBody altText : string) : Sticker.t :=
  Sticker.mk id "" 1700000000 "" "" "" localMXC "image/png" 1 1 67
    originalBody altText [] [].

Definition twinsCalls : list StorageCall :=
  [ CallAddSticker
      (unnamed "sha256:first" "mxc://example.org/first" "first.png"
         "First twin");
    CallAddSticker
      (unnamed "sha256:solo" "mxc://example.org/solo" "solo.png" "");
    CallAddSticker
      (unnamed "sha256:second" "mxc://example.org/second" "second.png"
         "Second twin");
    CallCreatePack "twins" "Twins" "";
    CallAddToPack "twins" ["sha256:first"; "sha256:solo"; "sha256:second"];
    CallSetStickerName "sha256:first" "dup";
    CallSetStickerName "sha256:solo" "solo";
    CallSetStickerName "sha256:second" "dup";
    CallSetStickerUsage "sha256:first" ["sticker"];
    CallSetStickerUsage "sha256:solo" ["emoticon"] ].

(** The event that publishing "twins" from [twinsWorld] delivers. *)
Definition twinsEvent : StateEvent :=
  packEvent "!room:example.org" "twins"
    (PackContent.mk
       (PackInfo.mk "Twins" "" ["sticker"; "emoticon"] "")
       {[ "dup" :=
            StickerData.mk "mxc://example.org/second" "Second twin" [] 1 1 67
              "image/png";
          "solo" :=
            StickerData.mk "mxc://example.org/solo" "solo.png" ["emoticon"]
              1 1 67 "image/png" ]}).

(** A sticker posted in a room, the user's "!yoink" reaction to it, and a
    command of the user; the homeserver finds the sticker, and refuses the
    redaction and the edit. [muteEnv] is [pixelEnv] with a captioning
    service that fails. *)
Definition stickerPosted : event.Event :=
  {| event.Type_ := event.EventSticker;
     event.Sender := "@friend:matrix.org";
     event.RoomID := "!room:matrix.org";
     event.ID := "$event";
     event.Parsed :=
       event.ParsedMessage
         (event.mkMessage "" "pixel.png" "mxc://matrix.org/pixel" "" "" None
            None);
     event.Raw := ∅ |}.

Definition yoink : event.Event :=
  {| event.Type_ := event.EventReaction;
     event.Sender := "@stickerbook:example.org";
     event.RoomID := "!room:matrix.org";
     event.ID := "$reaction";
     event.Parsed :=
       event.ParsedReaction
         {| event.ReactionRelatesTo :=
              {| event.RelType := "m.annotation";
                 event.EventID := "$event";
                 event.Key := "!yoink" |} |};
     event.Raw := ∅ |}.

Definition createTwins : event.Event :=
  {| event.Type_ := event.EventMessage;
     event.Sender := "@stickerbook:example.org";
     event.RoomID := "!room:matrix.org";
     event.ID := "$command";
     event.Parsed :=
       event.ParsedMessage
         (event.mkMessage "m.text" " !sticker pack create Twins " "" "" ""
            None None);
     event.Raw := ∅ |}.

Definition unwilling : Mautrix :=
  {| GetEvent := λ _ _, Ok stickerPosted;
     RedactEventResult := λ _ _, Err "M_FORBIDDEN";
     SendMessageEventResult := λ _ _, Err "M_LIMIT_EXCEEDED";
     markdownToHTML := λ text, text |}.

Definition muteEnv : Env :=
  {| UserID := "@stickerbook:example.org";
     Homeserver := "example.org";
     ParseContentURI := λ _, Ok "matrix.org";
     DownloadBytes := λ _, Ok pixel;
     UploadBytes := λ _ _, Ok "mxc://example.org/rehosted";
     SendStateEventResult := λ _, Ok "$state";
     GenerateAltText := λ _ _, Err "overloaded";
     DecodeConfig := λ _, Ok (1%Z, 1%Z, "png");
     Sum256Hex := λ _, pixelID;
     Now := 1700000000%Z |}.

Definition idle : Bot :=
  {| world := initialWorld; sent := []; redacted := [] |}.

(** ** Proofs *)

(** *** Running the state-and-error functions *)

(** a closed decidable proposition, by evaluation *)
Ltac by_evaluation := apply (bool_decide_unpack _); vm_compute; exact I.

Ltac run :=
  repeat (progress (
    unfold bind, ret, fail, liftR, wrap, warnOnly, onDir, LoadCollection,
      SaveCollection, LoadPacks, SavePacks, wrapErr, result_bind in *;
    simpl in *)).

Lemma findSticker_Some id l i sticker :
  findSticker id l = Some (i, sticker) →
  l !! i = Some sticker ∧ Sticker.ID sticker = id.
Proof.
  unfold findSticker. intros H.
  apply list_find_Some in H as (?&?&?). done.
Qed.

Lemma findSticker_None id l :
  findSticker id l = None ↔ id ∉ Sticker.ID <$> l.
Proof.
  unfold findSticker. rewrite list_find_None, Forall_forall. split.
  - intros H (s&?&?)%list_elem_of_fmap. by eapply H.
  - intros H s Hs Hid. apply H, list_elem_of_fmap. eauto.
Qed.

Lemma findSticker_elem id l :
  id ∈ Sticker.ID <$> l → ∃ i sticker, findSticker id l = Some (i, sticker).
Proof.
  intros H. destruct (findSticker id l) as [[i s]|] eqn:E; [eauto|].
  by apply findSticker_None in E.
Qed.

Lemma findPack_Some name l i pack :
  findPack name l = Some (i, pack) →
  l !! i = Some pack ∧ Pack.Name pack = name.
Proof.
  unfold findPack. intros H.
  apply list_find_Some in H as (?&?&?). done.
Qed.

Lemma findPack_None name l :
  findPack name l = None ↔ name ∉ Pack.Name <$> l.
Proof.
  unfold findPack. rewrite list_find_None, Forall_forall. split.
  - intros H (s&?&?)%list_elem_of_fmap. by eapply H.
  - intros H s Hs Hid. apply H, list_elem_of_fmap. eauto.
Qed.

Lemma findPack_elem name l :
  name ∈ Pack.Name <$> l → ∃ i pack, findPack name l = Some (i, pack).
Proof.
  intros H. destruct (findPack name l) as [[i s]|] eqn:E; [eauto|].
  by apply findPack_None in E.
Qed.

(** *** The collection store *)

Lemma AddSticker_run sticker d :
  AddSticker sticker d =
  (Ok (),
   {| collection :=
        match findSticker (Sticker.ID sticker) (collection d) with
        | Some (i, _) => <[i := sticker]> (collection d)
        | None => collection d ++ [sticker]
        end;
      packs := packs d |}).
Proof.
  unfold AddSticker. run.
  destruct (findSticker _ _) as [[i s]|]; reflexivity.
Qed.

Lemma AddSticker_existing sticker d :
  Sticker.ID sticker ∈ stickerIDsOf d →
  ∃ i existing,
    collection d !! i = Some existing ∧
    Sticker.ID existing = Sticker.ID sticker ∧
    AddSticker sticker d =
    (Ok (), {| collection := <[i := sticker]> (collection d);
               packs := packs d |}).
Proof.
  intros (i&existing&E)%findSticker_elem.
  destruct (findSticker_Some _ _ _ _ E) as [Hi Hid].
  exists i, existing. rewrite AddSticker_run, E. done.
Qed.

(** *** The collection workflow *)

Section Workflow.
Context `{!Unicode}.

(** The workflow either stops with an error before it touches the data
    directory, or ends in [AddSticker] of the record it built. *)
Lemma collectSticker_run c roomID eventID mxcURI originalBody d :
  (∃ msg, collectSticker c roomID eventID mxcURI originalBody d = (Err msg, d))
  ∨ (∃ imageData imageInfo localMXC caption,
       DownloadBytes c mxcURI = Ok imageData ∧
       GenerateAltText c imageData (ImageInfo.MimeType imageInfo)
         = Ok caption ∧
       collectSticker c roomID eventID mxcURI originalBody d =
       AddSticker (newSticker c (HashImage c imageData) roomID eventID mxcURI
                     localMXC imageInfo originalBody (cleanAltText caption))
                  d).
Proof.
  unfold collectSticker, DownloadMedia. run.
  destruct (ParseContentURI c mxcURI) as [hs|?]; run; [|eauto].
  destruct (DownloadBytes c mxcURI) as [data|?]; run; [|eauto].
  destruct (GetImageInfo c data) as [info|?]; run; [|eauto].
  set (info' := if _ || _ then _ else info).
  destruct (bool_decide (hs ≠ Homeserver c)); run.
  - destruct (UploadMedia c data _) as [mxc|?]; run; [|eauto].
    destruct (GenerateAltText c data _) as [alt|?] eqn:Ealt; run; [|eauto].
    right. exists data, info', mxc, alt. split; [done|]. split; [done|].
    by rewrite !AddSticker_run.
  - destruct (GenerateAltText c data _) as [alt|?] eqn:Ealt; run; [|eauto].
    right. exists data, info', mxcURI, alt. split; [done|]. split; [done|].
    by rewrite !AddSticker_run.
Qed.


(** C2, as amended. A successful re-collection replaces the stored record
    by the record the workflow built, at the same position and under the
    same id: the caption and the provenance are those of this run, the
    shortcode name is the content id again and the usage override is
    cleared; the other stickers and the packs are as they were. *)
Theorem recollect_replaces_record c roomID eventID mxcURI originalBody d after
    imageData :
  collectSticker c roomID eventID mxcURI originalBody d = (Ok (), after) →
  DownloadBytes c mxcURI = Ok imageData →
  HashImage c imageData ∈ stickerIDsOf d →
  ∃ i existing sticker caption,
    collection d !! i = Some existing
    ∧ Sticker.ID existing = HashImage c imageData
    ∧ collection after = <[i := sticker]> (collection d)
    ∧ packs after = packs d
    ∧ GenerateAltText c imageData (Sticker.MimeType sticker) = Ok caption
    ∧ Sticker.ID sticker = Sticker.ID existing
    ∧ Sticker.GeneratedAltText sticker = cleanAltText caption
    ∧ Sticker.OriginalBody sticker = originalBody
    ∧ Sticker.SourceRoom sticker = roomID
    ∧ Sticker.SourceEvent sticker = eventID
    ∧ Sticker.SourceMXC sticker = mxcURI
    ∧ Sticker.CollectedAt sticker = Now c
    ∧ Sticker.Name sticker = Sticker.ID existing
    ∧ Sticker.Usage sticker = [].
Proof.
  intros Hrun Hdl Hin.
  destruct (collectSticker_run c roomID eventID mxcURI originalBody d)
    as [[msg E]|(data&info&mxc&alt&Hdl'&Halt&E)]; [congruence|].
  assert (data = imageData) as -> by congruence.
  rewrite E in Hrun. clear E.
  set (sticker := newSticker _ _ _ _ _ _ _ _ _) in *.
  destruct (AddSticker_existing sticker d Hin) as (i&existing&Hi&Hid&E).
  rewrite E in Hrun. injection Hrun as <-.
  exists i, existing, sticker, alt. simpl in *.
  repeat split; try done; congruence.
Qed.

End Workflow.


Lemma recollect_replaces_record_witness :
  recollect curated
  = (Ok (), {| collection :=
                 [newSticker pixelEnv pixelID "!other:matrix.org" "$later"
                    "mxc://matrix.org/pixel" "mxc://example.org/rehosted"
                    (ImageInfo.mk 1 1 67 "image/png") "pixel.png"
                    "A single grey pixel"];
               packs := [favourites] |})
  ∧ DownloadBytes pixelEnv "mxc://matrix.org/pixel" = Ok pixel
  ∧ HashImage pixelEnv pixel ∈ stickerIDsOf curated
  ∧ ∃ i existing sticker caption,
      collection curated !! i = Some existing
      ∧ Sticker.ID existing = HashImage pixelEnv pixel
      ∧ collection (recollect curated).2 = <[i := sticker]> (collection curated)
      ∧ packs (recollect curated).2 = packs curated
      ∧ GenerateAltText pixelEnv pixel (Sticker.MimeType sticker) = Ok caption
      ∧ Sticker.ID sticker = Sticker.ID existing
      ∧ Sticker.GeneratedAltText sticker
        = cleanAltText (H := asciiOnly) caption
      ∧ Sticker.OriginalBody sticker = "pixel.png"
      ∧ Sticker.SourceRoom sticker = "!other:matrix.org"
      ∧ Sticker.SourceEvent sticker = "$later"
      ∧ Sticker.SourceMXC sticker = "mxc://matrix.org/pixel"
      ∧ Sticker.CollectedAt sticker = Now pixelEnv
      ∧ Sticker.Name sticker = Sticker.ID existing
      ∧ Sticker.Usage sticker = [].
Proof.
  split; [vm_compute; reflexivity|].
  split; [reflexivity|]. split; [vm_compute; left|].
  apply (recollect_replaces_record (H := asciiOnly) pixelEnv
           "!other:matrix.org" "$later" "mxc://matrix.org/pixel" "pixel.png"
           curated (recollect curated).2 pixel);
    [vm_compute; reflexivity | reflexivity | vm_compute; left].
Defined.

(** C2, as the claim words it, fails on [curated]: after the re-collection
    the sticker has lost its shortcode name, its usage override and its
    pack list. *)
Lemma recollect_resets_curation :
  (recollect curated).1 = Ok ()
  ∧ Sticker.Name <$> collection curated !! 0 = Some "grey_dot"
  ∧ Sticker.Name <$> collection (recollect curated).2 !! 0 = Some pixelID
  ∧ Sticker.Usage <$> collection curated !! 0 = Some ["emoticon"]
  ∧ Sticker.Usage <$> collection (recollect curated).2 !! 0 = Some []
  ∧ Sticker.InPacks <$> collection curated !! 0 = Some ["favourites"]
  ∧ Sticker.InPacks <$> collection (recollect curated).2 !! 0 = Some [].
Proof. vm_compute. repeat split. Qed.

Lemma curated_consistent : consistent curated.
Proof.
  split.
  - apply NoDup_singleton.
  - apply NoDup_singleton.
  - intros pack ->%list_elem_of_singleton. apply NoDup_singleton.
  - intros pack id ->%list_elem_of_singleton ->%list_elem_of_singleton.
    apply list_elem_of_singleton. reflexivity.
  - intros sticker name ->%list_elem_of_singleton ->%list_elem_of_singleton.
    apply list_elem_of_singleton. reflexivity.
  - intros pack sticker ->%list_elem_of_singleton ->%list_elem_of_singleton.
    simpl. split; intros _; apply list_elem_of_singleton; reflexivity.
Qed.

(** C3 at the failing input. [curated] is consistent, and it is what the
    calls of [curate] build from the empty directory; collecting the same
    image once more succeeds and leaves the pack "favourites" listing a
    sticker whose own pack list is empty. *)
Theorem recollect_breaks_membership :
  curate emptyDir = (Ok (), curated)
  ∧ consistent curated
  ∧ (recollect curated).1 = Ok ()
  ∧ ¬ bidirectional (recollect curated).2.
Proof.
  split; [vm_compute; reflexivity|]. split; [apply curated_consistent|].
  split; [vm_compute; reflexivity|].
  intros Hbi.
  specialize (Hbi favourites
    (newSticker pixelEnv pixelID "!other:matrix.org" "$later"
       "mxc://matrix.org/pixel" "mxc://example.org/rehosted"
       (ImageInfo.mk 1 1 67 "image/png") "pixel.png" "A single grey pixel")).
  assert (pixelID ∈ [pixelID]) as Hmem by apply list_elem_of_here.
  apply Hbi in Hmem.
  - simpl in Hmem. by apply not_elem_of_nil in Hmem.
  - vm_compute. apply list_elem_of_here.
  - vm_compute. apply list_elem_of_here.
Qed.

(** *** Packs: adding members *)

Lemma addMembers_Err collection stickerIDs members :
  (∃ id, id ∈ stickerIDs ∧ id ∉ (Sticker.ID <$> collection)) →
  ∃ id, id ∈ stickerIDs ∧ (id ∉ Sticker.ID <$> collection)
        ∧ addMembers collection stickerIDs members
          = Err ("sticker not found in collection: " +:+ id).
Proof.
  revert members.
  induction stickerIDs as [|x rest IH]; intros members (id&Hin&Hmiss).
  - by apply not_elem_of_nil in Hin.
  - simpl. case_bool_decide as Hx.
    + apply elem_of_cons in Hin as [->|Hin]; [done|].
      destruct (IH (if bool_decide (x ∈ members) then members
                    else members ++ [x])) as (id'&?&?&->); [eauto|].
      exists id'. split; [by right|]. done.
    + exists x. split; [by left|]. done.
Qed.

Lemma addMembers_Ok collection stickerIDs members :
  Forall (λ id, id ∈ Sticker.ID <$> collection) stickerIDs →
  ∃ members', addMembers collection stickerIDs members = Ok members'.
Proof.
  intros H. revert members.
  induction H as [|x rest Hx _ IH]; intros members; simpl; [eauto|].
  rewrite bool_decide_eq_true_2 by done. apply IH.
Qed.

Lemma AddToPack_run packName stickerIDs d :
  AddToPack packName stickerIDs d =
  match findPack packName (packs d) with
  | None => (Err ("pack not found: " +:+ packName), d)
  | Some (packIndex, pack) =>
      match addMembers (collection d) stickerIDs (Pack.StickerIDs pack) with
      | Err msg => (Err msg, d)
      | Ok members =>
          (Ok (),
           {| collection := markInPack packName stickerIDs <$> collection d;
              packs := <[packIndex := Pack.withStickerIDs members pack]>
                         (packs d) |})
      end
  end.
Proof.
  unfold AddToPack. run.
  destruct (findPack _ _) as [[i pack]|]; [|done]. run.
  destruct (addMembers _ _ _); done.
Qed.

(** C4, as amended. [AddToPack] fails when the pack is absent and when a
    listed id is absent from the collection, naming what is missing; in both
    cases it returns before anything is saved, so the data directory is left
    as it was, without the members validated before the missing id. *)
Theorem AddToPack_failure_saves_nothing packName stickerIDs d :
  packName ∉ packNamesOf d
  ∨ (∃ id, id ∈ stickerIDs ∧ id ∉ stickerIDsOf d) →
  ∃ msg,
    AddToPack packName stickerIDs d = (Err msg, d)
    ∧ (packName ∉ packNamesOf d → msg = "pack not found: " +:+ packName)
    ∧ (packName ∈ packNamesOf d →
       ∃ id, id ∈ stickerIDs ∧ (id ∉ stickerIDsOf d)
             ∧ msg = "sticker not found in collection: " +:+ id).
Proof.
  intros H. rewrite AddToPack_run.
  destruct (findPack packName (packs d)) as [[i pack]|] eqn:E.
  - assert (packName ∈ packNamesOf d) as Hin.
    { apply findPack_Some in E as [Hi <-].
      apply list_elem_of_fmap. exists pack. split; [done|].
      by eapply list_elem_of_lookup_2. }
    destruct H as [?|H]; [done|].
    destruct (addMembers_Err (collection d) stickerIDs (Pack.StickerIDs pack) H)
      as (id&?&?&->).
    eexists. split; [done|]. split; [done|]. eauto.
  - apply findPack_None in E.
    eexists. split; [done|]. split; [done|]. done.
Qed.

Lemma AddToPack_failure_saves_nothing_witness :
  ("favourites" ∉ packNamesOf collected
   ∨ (∃ id, id ∈ [pixelID; "missing"] ∧ id ∉ stickerIDsOf collected))
  ∧ ∃ msg,
      AddToPack "favourites" [pixelID; "missing"] collected
      = (Err msg, collected)
      ∧ ("favourites" ∉ packNamesOf collected →
         msg = "pack not found: " +:+ "favourites")
      ∧ ("favourites" ∈ packNamesOf collected →
         ∃ id, id ∈ [pixelID; "missing"] ∧ (id ∉ stickerIDsOf collected)
               ∧ msg = "sticker not found in collection: " +:+ id).
Proof.
  assert ("favourites" ∉ packNamesOf collected
          ∨ (∃ id, id ∈ [pixelID; "missing"] ∧ id ∉ stickerIDsOf collected))
    as H.
  { right. exists "missing". split; by_evaluation. }
  split; [exact H|].
  exact (AddToPack_failure_saves_nothing "favourites" [pixelID; "missing"]
           collected H).
Defined.

(** C4, as the claim words it, fails on [collected]: the first id of the
    call is in the collection and is validated, the second is not; the call
    fails and the pack has no member afterwards, nor does the sticker list
    the pack. *)
Lemma AddToPack_validated_member_not_saved :
  pixelID ∈ stickerIDsOf collected
  ∧ AddToPack "favourites" [pixelID; "missing"] collected
    = (Err "sticker not found in collection: missing", collected)
  ∧ Pack.StickerIDs
      <$> (packs (AddToPack "favourites" [pixelID; "missing"] collected).2
           !! 0)
    = Some []
  ∧ Sticker.InPacks
      <$> (collection (AddToPack "favourites" [pixelID; "missing"] collected).2
           !! 0)
    = Some [].
Proof. split; [by_evaluation|]. vm_compute. repeat split. Qed.

Lemma findPack_insert name l i pack pack' :
  findPack name l = Some (i, pack) →
  Pack.Name pack' = name →
  findPack name (<[i := pack']> l) = Some (i, pack').
Proof.
  unfold findPack. intros H Hname.
  apply list_find_Some in H as (Hi&_&Hbefore).
  apply list_find_Some. split; [|split; [done|]].
  - apply list_lookup_insert_eq. by eapply lookup_lt_Some.
  - intros j y Hj Hlt. rewrite list_lookup_insert_ne in Hj by lia. eauto.
Qed.

Lemma markInPack_ID packName stickerIDs sticker :
  Sticker.ID (markInPack packName stickerIDs sticker) = Sticker.ID sticker.
Proof.
  unfold markInPack. revert sticker.
  induction stickerIDs as [|x rest IH]; intros sticker; simpl; [done|].
  rewrite IH. repeat case_bool_decide; done.
Qed.

Lemma markInPack_fmap_ID packName stickerIDs (collection : list Sticker.t) :
  Sticker.ID <$> (markInPack packName stickerIDs <$> collection)
  = Sticker.ID <$> collection.
Proof.
  rewrite <- list_fmap_compose. apply list_fmap_ext.
  intros ? ? _. apply markInPack_ID.
Qed.

Lemma markInPack_one_twice packName id sticker :
  markInPack packName [id] (markInPack packName [id] sticker)
  = markInPack packName [id] sticker.
Proof.
  unfold markInPack. simpl.
  destruct (bool_decide (Sticker.ID sticker = id)) eqn:Hid; [|by rewrite Hid].
  destruct (bool_decide (packName ∈ Sticker.InPacks sticker)) eqn:Hin.
  - by rewrite Hid, Hin.
  - simpl. rewrite Hid.
    rewrite bool_decide_eq_true_2; [done|].
    apply elem_of_app. right. apply list_elem_of_here.
Qed.

(** C8. Adding an id of the collection to an existing pack succeeds, and
    adding it again succeeds and changes nothing: the data directory after
    the second call is the one after the first, the member list of the pack
    included, in which the id occurs. *)
Theorem AddToPack_idempotent packName id d :
  packName ∈ packNamesOf d →
  id ∈ stickerIDsOf d →
  ∃ d1 i pack1,
    AddToPack packName [id] d = (Ok (), d1)
    ∧ AddToPack packName [id] d1 = (Ok (), d1)
    ∧ findPack packName (packs d1) = Some (i, pack1)
    ∧ id ∈ Pack.StickerIDs pack1.
Proof.
  intros (i&pack&E)%findPack_elem Hid.
  rewrite AddToPack_run, E. simpl.
  rewrite bool_decide_eq_true_2 by done.
  set (members := if bool_decide (id ∈ Pack.StickerIDs pack) then _ else _).
  assert (id ∈ members) as Hmem.
  { subst members. case_bool_decide; [done|].
    apply elem_of_app. right. apply list_elem_of_here. }
  eexists _, i, (Pack.withStickerIDs members pack).
  split; [reflexivity|].
  assert (findPack packName (<[i := Pack.withStickerIDs members pack]> (packs d))
          = Some (i, Pack.withStickerIDs members pack)) as E1.
  { apply (findPack_insert _ _ _ pack); [done|].
    simpl. by apply findPack_Some in E as [_ ?]. }
  split; [|split; [exact E1|done]].
  rewrite AddToPack_run. simpl. rewrite E1. simpl.
  rewrite markInPack_fmap_ID.
  rewrite bool_decide_eq_true_2 by done.
  rewrite bool_decide_eq_true_2 by done.
  f_equal. f_equal.
  - rewrite <- list_fmap_compose. apply list_fmap_ext.
    intros ? ? _. apply markInPack_one_twice.
  - by rewrite list_insert_insert_eq.
Qed.

Lemma AddToPack_idempotent_witness :
  "favourites" ∈ packNamesOf collected
  ∧ pixelID ∈ stickerIDsOf collected
  ∧ ∃ d1 i pack1,
      AddToPack "favourites" [pixelID] collected = (Ok (), d1)
      ∧ AddToPack "favourites" [pixelID] d1 = (Ok (), d1)
      ∧ findPack "favourites" (packs d1) = Some (i, pack1)
      ∧ pixelID ∈ Pack.StickerIDs pack1.
Proof.
  assert ("favourites" ∈ packNamesOf collected) as H1 by by_evaluation.
  assert (pixelID ∈ stickerIDsOf collected) as H2 by by_evaluation.
  split; [exact H1|]. split; [exact H2|].
  exact (AddToPack_idempotent "favourites" pixelID collected H1 H2).
Defined.

(** *** Text *)

Lemma append_cons c s t : String c s +:+ t = String c (s +:+ t).
Proof. reflexivity. Qed.

Lemma append_nil_l t : "" +:+ t = t.
Proof. reflexivity. Qed.

Lemma append_nil_r s : s +:+ "" = s.
Proof. induction s as [|c s IH]; [done|]. by rewrite append_cons, IH. Qed.

Lemma rev_app_rev_app s1 s2 s3 :
  String.rev_app (String.rev_app s1 s2) s3 = String.rev_app s2 (s1 +:+ s3).
Proof.
  revert s2 s3. induction s1 as [|c s1 IH]; intros s2 s3; simpl; [done|].
  by rewrite IH.
Qed.

Lemma rev_rev s : String.rev (String.rev s) = s.
Proof.
  unfold String.rev. rewrite rev_app_rev_app. simpl. apply append_nil_r.
Qed.

Lemma allBytes_rev_app f s1 s2 :
  strings.allBytes f (String.rev_app s1 s2)
  = strings.allBytes f s1 && strings.allBytes f s2.
Proof.
  revert s2. induction s1 as [|c s1 IH]; intros s2; simpl; [done|].
  rewrite IH. simpl. destruct (f c), (strings.allBytes f s1); done.
Qed.

Lemma trimLeft_no_space s :
  strings.allBytes (λ c, negb (Ascii.is_space c)) s = true →
  strings.trimLeft s = s.
Proof.
  destruct s as [|c s]; simpl; [done|].
  destruct (Ascii.is_space c); [done|done].
Qed.

Lemma TrimSpace_token `{!Unicode} s :
  isToken s = true → strings.TrimSpace s = s.
Proof.
  unfold isToken, strings.TrimSpace.
  intros [-> Hsp]%andb_true_iff.
  rewrite (trimLeft_no_space s Hsp). unfold strings.trimRight.
  rewrite trimLeft_no_space; [apply rev_rev|].
  unfold String.rev. rewrite allBytes_rev_app, Hsp. done.
Qed.

Lemma nat_of_ascii_inj a b : nat_of_ascii a = nat_of_ascii b → a = b.
Proof.
  intros H. rewrite <- (ascii_nat_embedding a), <- (ascii_nat_embedding b).
  by rewrite H.
Qed.

(** On a lower-case letter [b]: a byte lowers to [b] exactly when it is [b]
    up to case. *)
Lemma lowerByte_sameFold a b :
  isLowerLetter b = true →
  (strings.lowerByte a = b ↔ sameFold a b = true).
Proof.
  unfold isLowerLetter, strings.lowerByte, strings.isUpper, sameFold, isLetter.
  pose proof (nat_ascii_bounded a) as Ha.
  intros [Hb1%bool_decide_eq_true Hb2%bool_decide_eq_true]%andb_true_iff.
  split.
  - intros E.
    assert (nat_of_ascii
              (if bool_decide (65 ≤ nat_of_ascii a)
                  && bool_decide (nat_of_ascii a ≤ 90)
               then ascii_of_nat (nat_of_ascii a + 32) else a)
            = nat_of_ascii b) as En by (by rewrite E).
    clear E.
    repeat case_bool_decide; simpl in *;
      try rewrite nat_ascii_embedding in En by lia;
      try (apply nat_of_ascii_inj in En); try done; try lia.
  - intros E. apply nat_of_ascii_inj.
    repeat case_bool_decide; simpl in *; subst;
      try rewrite nat_ascii_embedding by lia; try done; try lia.
Qed.

Lemma mapBytes_lower_EqualFold s w :
  strings.allBytes isLowerLetter w = true →
  (strings.mapBytes strings.lowerByte s = w ↔ EqualFold s w = true).
Proof.
  revert w. induction s as [|a s IH]; intros [|b w]; simpl; try done.
  intros [Hb Hw]%andb_true_iff.
  rewrite andb_true_iff, <- (IH w Hw), <- (lowerByte_sameFold a b Hb).
  split; [by intros [= -> ->]|by intros [-> ->]].
Qed.

Lemma ToLower_EqualFold `{!Unicode} s w :
  strings.isASCII s = true →
  strings.allBytes isLowerLetter w = true →
  (strings.ToLower s = w ↔ EqualFold s w = true).
Proof.
  intros Hs Hw. unfold strings.ToLower. rewrite Hs.
  by apply mapBytes_lower_EqualFold.
Qed.

(** *** The usage parser *)

(** C7. On a token of the command line, [ParseUsage] compares without
    regard to case: "sticker" gives [sticker], "emoticon" and "emoji" give
    [emoticon], "both" gives both, "reset" gives no override ([nil]) and no
    error, and any other token is refused with a message that lists the
    accepted words. *)
Theorem ParseUsage_vocabulary `{!Unicode} (token : string) :
  isToken token = true →
  (EqualFold token "sticker" = true → ParseUsage token = Ok ["sticker"])
  ∧ (EqualFold token "emoticon" = true ∨ EqualFold token "emoji" = true →
     ParseUsage token = Ok ["emoticon"])
  ∧ (EqualFold token "both" = true →
     ParseUsage token = Ok ["sticker"; "emoticon"])
  ∧ (EqualFold token "reset" = true → ParseUsage token = Ok [])
  ∧ (EqualFold token "sticker" = false →
     EqualFold token "emoticon" = false →
     EqualFold token "emoji" = false →
     EqualFold token "both" = false →
     EqualFold token "reset" = false →
     ParseUsage token
     = Err ("invalid usage type: " +:+ strings.ToLower token +:+
            " (valid: sticker, emoticon, emoji, both, reset)")).
Proof.
  intros Htok. unfold ParseUsage. rewrite (TrimSpace_token token Htok).
  assert (strings.isASCII token = true) as Hascii.
  { unfold isToken in Htok. by apply andb_true_iff in Htok as [? _]. }
  assert (∀ w, strings.allBytes isLowerLetter w = true →
               bool_decide (strings.ToLower token = w) = EqualFold token w)
    as Hword.
  { intros w Hw. apply eq_true_iff_eq. rewrite bool_decide_eq_true.
    by apply ToLower_EqualFold. }
  rewrite !Hword by reflexivity.
  assert (∀ s w w', EqualFold s w = true → EqualFold s w' = true →
                    strings.allBytes isLowerLetter w = true →
                    strings.allBytes isLowerLetter w' = true → w = w')
    as Hfun.
  { intros s w w' H1 H2 Hw Hw'.
    apply (mapBytes_lower_EqualFold s w Hw) in H1.
    apply (mapBytes_lower_EqualFold s w' Hw') in H2. congruence. }
  repeat split.
  - by intros ->.
  - intros [H1|H1].
    + destruct (EqualFold token "sticker") eqn:H2; [|by rewrite H1].
      by specialize (Hfun _ _ _ H1 H2 eq_refl eq_refl).
    + destruct (EqualFold token "sticker") eqn:H2.
      { by specialize (Hfun _ _ _ H1 H2 eq_refl eq_refl). }
      rewrite H1. by destruct (EqualFold token "emoticon").
  - intros H1.
    destruct (EqualFold token "sticker") eqn:H2.
    { by specialize (Hfun _ _ _ H1 H2 eq_refl eq_refl). }
    destruct (EqualFold token "emoticon") eqn:H3.
    { by specialize (Hfun _ _ _ H1 H3 eq_refl eq_refl). }
    destruct (EqualFold token "emoji") eqn:H4.
    { by specialize (Hfun _ _ _ H1 H4 eq_refl eq_refl). }
    by rewrite H1.
  - intros H1.
    destruct (EqualFold token "sticker") eqn:H2.
    { by specialize (Hfun _ _ _ H1 H2 eq_refl eq_refl). }
    destruct (EqualFold token "emoticon") eqn:H3.
    { by specialize (Hfun _ _ _ H1 H3 eq_refl eq_refl). }
    destruct (EqualFold token "emoji") eqn:H4.
    { by specialize (Hfun _ _ _ H1 H4 eq_refl eq_refl). }
    destruct (EqualFold token "both") eqn:H5.
    { by specialize (Hfun _ _ _ H1 H5 eq_refl eq_refl). }
    simpl. by rewrite H1.
  - by intros -> -> -> -> ->.
Qed.

Lemma ParseUsage_vocabulary_witness :
  isToken "Emoji" = true
  ∧ ParseUsage (H := asciiOnly) "Emoji" = Ok ["emoticon"]
  ∧ ParseUsage (H := asciiOnly) "RESET" = Ok []
  ∧ ParseUsage (H := asciiOnly) "Stickers"
    = Err "invalid usage type: stickers (valid: sticker, emoticon, emoji, both, reset)".
Proof.
  split; [reflexivity|].
  split.
  { apply (ParseUsage_vocabulary (H := asciiOnly) "Emoji"); [reflexivity|].
    right. reflexivity. }
  split.
  { apply (ParseUsage_vocabulary (H := asciiOnly) "RESET"); reflexivity. }
  apply (ParseUsage_vocabulary (H := asciiOnly) "Stickers"); reflexivity.
Defined.

(** *** Creating a pack *)

Lemma replaceFrom_byte fuel s a b :
  String.length s ≤ fuel →
  strings.replaceFrom fuel s (String a "") (String b "")
  = strings.mapBytes (λ c, if bool_decide (c = a) then b else c) s.
Proof.
  revert s. induction fuel as [|fuel IH]; intros s Hlen.
  - destruct s; simpl in *; [done|lia].
  - destruct s as [|c s]; simpl in *; [done|].
    rewrite andb_true_r.
    case_bool_decide as Hac.
    + subst c. rewrite bool_decide_eq_true_2 by done.
      rewrite append_cons, append_nil_l. f_equal. apply IH. lia.
    + rewrite bool_decide_eq_false_2 by congruence.
      f_equal. apply IH. lia.
Qed.

Lemma ReplaceAll_byte s a b :
  strings.ReplaceAll s (String a "") (String b "")
  = strings.mapBytes (λ c, if bool_decide (c = a) then b else c) s.
Proof. unfold strings.ReplaceAll. by apply replaceFrom_byte. Qed.

Lemma mapBytes_mapBytes f g s :
  strings.mapBytes f (strings.mapBytes g s) = strings.mapBytes (f ∘ g) s.
Proof. induction s as [|c s IH]; simpl; [done|]. by rewrite IH. Qed.

Lemma mapBytes_ext f g s :
  (∀ c, f c = g c) → strings.mapBytes f s = strings.mapBytes g s.
Proof. intros H. induction s as [|c s IH]; simpl; [done|]. by rewrite H, IH. Qed.

Lemma isASCII_mapBytes f s :
  (∀ c, strings.isASCIIByte c = true → strings.isASCIIByte (f c) = true) →
  strings.isASCII s = true → strings.isASCII (strings.mapBytes f s) = true.
Proof.
  intros Hf. induction s as [|c s IH]; simpl; [done|].
  intros [Hc Hs]%andb_true_iff. by rewrite (Hf c Hc), IH.
Qed.

(** On ASCII text the pack id [packCreate] computes is the normalized name
    of the specification. *)
Lemma packID_normalizeName `{!Unicode} name :
  strings.isASCII name = true →
  strings.ToLower (strings.ReplaceAll name " " "-") = normalizeName name.
Proof.
  intros Hascii. rewrite ReplaceAll_byte. unfold strings.ToLower.
  rewrite isASCII_mapBytes; [|intros c Hc; by case_bool_decide|done].
  rewrite mapBytes_mapBytes. apply mapBytes_ext. intros c. simpl.
  by case_bool_decide.
Qed.

(** C9. A name that normalizes to "unsorted" is refused by [packCreate]
    with the reserved-name answer, and nothing is written: the world after
    the command is the world before it. *)
Theorem packCreate_unsorted_reserved `{!Unicode} c name w :
  strings.isASCII name = true →
  normalizeName name = "unsorted" →
  packCreate c name w
  = ("❌ Cannot create pack named 'unsorted' - this is a reserved name for stickers not in any pack",
     w).
Proof.
  intros Hascii Hnorm. unfold packCreate.
  rewrite (packID_normalizeName name Hascii), Hnorm. reflexivity.
Qed.

Lemma packCreate_unsorted_reserved_witness :
  strings.isASCII "Unsorted" = true
  ∧ normalizeName "Unsorted" = "unsorted"
  ∧ packCreate (H := asciiOnly) pixelEnv "Unsorted"
      {| dataDir := collected; delivered := [] |}
    = ("❌ Cannot create pack named 'unsorted' - this is a reserved name for stickers not in any pack",
       {| dataDir := collected; delivered := [] |}).
Proof.
  split; [reflexivity|]. split; [reflexivity|].
  apply (packCreate_unsorted_reserved (H := asciiOnly) pixelEnv "Unsorted");
    reflexivity.
Defined.

(** *** Publishing *)

Lemma PublishPack_run c packName roomID w :
  PublishPack c packName roomID w =
  match findPack packName (packs (dataDir w)) with
  | None => (Err ("failed to load pack: " +:+ "pack not found: " +:+ packName), w)
  | Some (i, pack) =>
      match packContentOf (collection (dataDir w)) pack with
      | Err msg => (Err msg, w)
      | Ok content =>
          let evt := packEvent roomID packName content in
          match SendStateEventResult c evt with
          | Err msg =>
              (Err ("failed to send state event: " +:+ msg),
               {| dataDir := dataDir w; delivered := delivered w ++ [evt] |})
          | Ok _ =>
              (Ok (),
               {| dataDir :=
                    {| collection := collection (dataDir w);
                       packs :=
                         <[i := Pack.withPublishedRooms
                                  (<[roomID := packName]>
                                     (Pack.PublishedRooms pack)) pack]>
                           (packs (dataDir w)) |};
                  delivered := delivered w ++ [evt] |})
          end
      end
  end.
Proof.
  destruct w as [[coll pks] sent].
  unfold PublishPack, GetPack, UpdatePublished, SendStateEvent. run.
  destruct (findPack packName pks) as [[i pack]|] eqn:E; run; [|done].
  destruct (packContentOf coll pack) as [content|]; run; [|done].
  fold (packEvent roomID packName content).
  destruct (SendStateEventResult c _); run; [|done].
  by rewrite E.
Qed.

(** What [PublishPack] delivered, when it delivered something. *)
Lemma PublishPack_delivered c packName roomID w evt :
  delivered (PublishPack c packName roomID w).2 = delivered w ++ [evt] →
  ∃ i pack content,
    findPack packName (packs (dataDir w)) = Some (i, pack)
    ∧ packContentOf (collection (dataDir w)) pack = Ok content
    ∧ evt = packEvent roomID packName content.
Proof.
  rewrite PublishPack_run.
  assert (∀ l : list StateEvent, l = l ++ [evt] → False) as Hno.
  { intros l Hl. apply (f_equal length) in Hl.
    rewrite length_app in Hl. simpl in Hl. lia. }
  destruct (findPack _ _) as [[i pack]|] eqn:E; simpl; [|by intros ?%Hno].
  destruct (packContentOf _ _) as [content|] eqn:E'; simpl;
    [|by intros ?%Hno].
  destruct (SendStateEventResult c _); simpl;
    intros [= <-]%app_inv_head; by eexists _, _, _.
Qed.

Lemma buildImages_entries collection stickerIDs images0 images :
  buildImages collection stickerIDs images0 = Ok images →
  ∀ shortcode data,
    images !! shortcode = Some data →
    images0 !! shortcode = Some data
    ∨ ∃ stickerID i sticker,
        stickerID ∈ stickerIDs
        ∧ findSticker stickerID collection = Some (i, sticker)
        ∧ shortcode = shortcodeOf stickerID sticker
        ∧ data = stickerData sticker.
Proof.
  revert images0.
  induction stickerIDs as [|x rest IH]; intros images0; simpl.
  - intros [= ->] shortcode data H. by left.
  - destruct (findSticker x collection) as [[i sticker]|] eqn:E; [|done].
    intros Hrun shortcode data H.
    destruct (IH _ Hrun shortcode data H) as [H0|(id&j&s&?&?&?&?)].
    + apply lookup_insert_Some in H0 as [[<- <-]|[_ H0]]; [|by left].
      right. exists x, i, sticker. split; [by left|]. done.
    + right. exists id, j, s. split; [by right|]. done.
Qed.

Lemma buildImages_keeps collection stickerIDs images0 images shortcode :
  buildImages collection stickerIDs images0 = Ok images →
  is_Some (images0 !! shortcode) → is_Some (images !! shortcode).
Proof.
  revert images0.
  induction stickerIDs as [|x rest IH]; intros images0; simpl.
  - by intros [= ->].
  - destruct (findSticker x collection) as [[i sticker]|] eqn:E; [|done].
    intros Hrun H0. apply (IH _ Hrun).
    rewrite lookup_insert_is_Some. destruct (decide (shortcodeOf x sticker = shortcode)); auto.
Qed.

Lemma buildImages_members collection stickerIDs images0 images :
  buildImages collection stickerIDs images0 = Ok images →
  ∀ stickerID, stickerID ∈ stickerIDs →
    ∃ i sticker,
      findSticker stickerID collection = Some (i, sticker)
      ∧ is_Some (images !! shortcodeOf stickerID sticker).
Proof.
  revert images0.
  induction stickerIDs as [|x rest IH]; intros images0; simpl.
  - intros _ id Hin. by apply not_elem_of_nil in Hin.
  - destruct (findSticker x collection) as [[i sticker]|] eqn:E; [|done].
    intros Hrun id [->|Hin]%elem_of_cons.
    + exists i, sticker. split; [done|].
      apply (buildImages_keeps _ _ _ _ _ Hrun).
      rewrite lookup_insert_eq. eauto.
    + by apply (IH _ Hrun).
Qed.

Lemma buildImages_last collection stickerIDs images0 images shortcode data :
  buildImages collection stickerIDs images0 = Ok images →
  images0 !! shortcode = Some data →
  (∀ later i sticker,
     later ∈ stickerIDs → findSticker later collection = Some (i, sticker) →
     shortcodeOf later sticker ≠ shortcode) →
  images !! shortcode = Some data.
Proof.
  revert images0.
  induction stickerIDs as [|x rest IH]; intros images0; simpl.
  - by intros [= ->].
  - destruct (findSticker x collection) as [[i s]|] eqn:E; [|done].
    intros Hrest H0 Hno. apply (IH _ Hrest).
    + rewrite lookup_insert_ne; [done|]. apply (Hno x i s); [by left|done].
    + intros later j t Hin. apply Hno. by right.
Qed.

Lemma buildImages_member collection before stickerID after images0 images :
  buildImages collection (before ++ stickerID :: after) images0 = Ok images →
  ∃ i sticker,
    findSticker stickerID collection = Some (i, sticker)
    ∧ ((∀ later j other,
          later ∈ after →
          findSticker later collection = Some (j, other) →
          shortcodeOf later other ≠ shortcodeOf stickerID sticker) →
       images !! shortcodeOf stickerID sticker = Some (stickerData sticker)).
Proof.
  revert images0.
  induction before as [|x before IH]; intros images0 Himg; simpl in Himg.
  - destruct (findSticker stickerID collection) as [[i s]|] eqn:E; [|done].
    exists i, s. split; [done|]. intros Hno.
    apply (buildImages_last _ _ _ _ _ _ Himg); [|done].
    by rewrite lookup_insert_eq.
  - destruct (findSticker x collection) as [[i s]|]; [|done].
    by apply (IH _ Himg).
Qed.

Lemma marshal_body data :
  jsonField "body" (StickerData.marshal data)
  = Some (JString (StickerData.Body data)).
Proof.
  unfold StickerData.marshal, omitempty. simpl.
  rewrite lookup_insert_ne by done.
  case_bool_decide; [|rewrite lookup_insert_ne by done];
    by rewrite lookup_insert_eq.
Qed.

Lemma marshal_usage data :
  jsonField "usage" (StickerData.marshal data)
  = if bool_decide (StickerData.Usage data = []) then None
    else Some (JArray (JString <$> StickerData.Usage data)).
Proof.
  unfold StickerData.marshal, omitempty. simpl.
  rewrite lookup_insert_ne by done.
  destruct (StickerData.Usage data) as [|u us]; simpl.
  - by rewrite !lookup_insert_ne, lookup_empty by done.
  - by rewrite lookup_insert_eq.
Qed.

Lemma marshal_pack_usage info :
  jsonField "usage" (PackInfo.marshal info)
  = if bool_decide (PackInfo.Usage info = []) then None
    else Some (JArray (JString <$> PackInfo.Usage info)).
Proof.
  unfold PackInfo.marshal, omitempty. simpl.
  destruct (PackInfo.Usage info) as [|u us]; simpl.
  - by repeat case_bool_decide; rewrite ?lookup_insert_ne, ?lookup_empty by done.
  - case_bool_decide; rewrite ?lookup_insert_ne by done;
      by rewrite lookup_insert_eq.
Qed.

Lemma payloadImage_marshal shortcode content :
  payloadImage shortcode (PackContent.marshal content)
  = StickerData.marshal <$> PackContent.Images content !! shortcode.
Proof.
  unfold payloadImage, PackContent.marshal. simpl.
  rewrite lookup_insert_eq. simpl. apply lookup_fmap.
Qed.

Lemma payload_pack content :
  jsonField "pack" (PackContent.marshal content)
  = Some (PackInfo.marshal (PackContent.Pack content)).
Proof.
  unfold PackContent.marshal. simpl.
  by rewrite lookup_insert_ne, lookup_insert_eq by done.
Qed.

(** The images of a delivered event, entry by entry: each is the data of a
    member of the pack, found in the collection and filed under its
    shortcode; and each member's shortcode has an entry. *)
Lemma PublishPack_images c packName roomID w evt :
  delivered (PublishPack c packName roomID w).2 = delivered w ++ [evt] →
  ∃ i pack,
    findPack packName (packs (dataDir w)) = Some (i, pack)
    ∧ evRoom evt = roomID
    ∧ evStateKey evt = packName
    ∧ PackContent.Pack (evContent evt) = packInfoOf pack
    ∧ (∀ stickerID, stickerID ∈ Pack.StickerIDs pack →
         ∃ j sticker,
           findSticker stickerID (collection (dataDir w)) = Some (j, sticker)
           ∧ is_Some (PackContent.Images (evContent evt)
                        !! shortcodeOf stickerID sticker))
    ∧ (∀ shortcode data,
         PackContent.Images (evContent evt) !! shortcode = Some data →
         ∃ stickerID j sticker,
           stickerID ∈ Pack.StickerIDs pack
           ∧ findSticker stickerID (collection (dataDir w))
             = Some (j, sticker)
           ∧ shortcode = shortcodeOf stickerID sticker
           ∧ data = stickerData sticker).
Proof.
  intros (i&pack&content&E&Hcontent&->)%PublishPack_delivered.
  exists i, pack. split; [done|]. split; [done|]. split; [done|].
  unfold packContentOf, result_bind in Hcontent.
  destruct (buildImages _ _ _) as [images|] eqn:Himg; [|done].
  injection Hcontent as <-. simpl. split; [done|]. split.
  - by eapply buildImages_members.
  - intros shortcode data Hd.
    destruct (buildImages_entries _ _ _ _ Himg _ _ Hd) as [H0|?]; [|done].
    by rewrite lookup_empty in H0.
Qed.

(** The images of a delivered event, member by member: the entry under a
    member's shortcode is the member's own data, unless a later member of
    the pack has the same shortcode. *)
Lemma PublishPack_member c packName roomID w evt :
  delivered (PublishPack c packName roomID w).2 = delivered w ++ [evt] →
  ∀ i pack,
    findPack packName (packs (dataDir w)) = Some (i, pack) →
    ∀ before stickerID after,
      Pack.StickerIDs pack = before ++ stickerID :: after →
      ∃ j sticker,
        findSticker stickerID (collection (dataDir w)) = Some (j, sticker)
        ∧ ((∀ later k other,
              later ∈ after →
              findSticker later (collection (dataDir w)) = Some (k, other) →
              shortcodeOf later other ≠ shortcodeOf stickerID sticker) →
           PackContent.Images (evContent evt)
             !! shortcodeOf stickerID sticker
           = Some (stickerData sticker)).
Proof.
  intros (i'&pack'&content&E&Hcontent&->)%PublishPack_delivered i pack E'.
  rewrite E in E'. injection E' as <- <-.
  unfold packContentOf, result_bind in Hcontent.
  destruct (buildImages _ _ _) as [images|] eqn:Himg; [|done].
  injection Hcontent as <-. simpl.
  intros before stickerID after Hsplit. rewrite Hsplit in Himg.
  by eapply buildImages_member.
Qed.

(** C5, as amended. In the payload of a delivered pack every image entry
    belongs to a member of the pack, and its body is the sticker's generated
    caption when that is not empty, else the original caption; the body
    field is always written, as the empty text when both captions are
    empty. Every member's shortcode has an entry, and whenever no later
    member of the pack has the same shortcode that entry is the member's
    own: the body under its shortcode is the member's, by the same rule. *)
Theorem PublishPack_body c packName roomID w evt :
  delivered (PublishPack c packName roomID w).2 = delivered w ++ [evt] →
  ∃ i pack,
    findPack packName (packs (dataDir w)) = Some (i, pack)
    ∧ (∀ stickerID, stickerID ∈ Pack.StickerIDs pack →
         ∃ j sticker,
           findSticker stickerID (collection (dataDir w)) = Some (j, sticker)
           ∧ is_Some (payloadImage (shortcodeOf stickerID sticker)
                        (PackContent.marshal (evContent evt))))
    ∧ (∀ shortcode entry,
         payloadImage shortcode (PackContent.marshal (evContent evt))
         = Some entry →
         ∃ stickerID j sticker,
           stickerID ∈ Pack.StickerIDs pack
           ∧ findSticker stickerID (collection (dataDir w))
             = Some (j, sticker)
           ∧ shortcode = shortcodeOf stickerID sticker
           ∧ jsonField "body" entry
             = Some (JString
                       (if bool_decide (Sticker.GeneratedAltText sticker ≠ "")
                        then Sticker.GeneratedAltText sticker
                        else Sticker.OriginalBody sticker)))
    ∧ (∀ before stickerID after,
         Pack.StickerIDs pack = before ++ stickerID :: after →
         ∃ j sticker,
           findSticker stickerID (collection (dataDir w)) = Some (j, sticker)
           ∧ ((∀ later k other,
                 later ∈ after →
                 findSticker later (collection (dataDir w))
                 = Some (k, other) →
                 shortcodeOf later other ≠ shortcodeOf stickerID sticker) →
              payloadImage (shortcodeOf stickerID sticker)
                (PackContent.marshal (evContent evt))
                ≫= jsonField "body"
              = Some (JString
                        (if bool_decide
                              (Sticker.GeneratedAltText sticker ≠ "")
                         then Sticker.GeneratedAltText sticker
                         else Sticker.OriginalBody sticker)))).
Proof.
  intros Hsent.
  pose proof (PublishPack_member _ _ _ _ _ Hsent) as Hown.
  apply PublishPack_images in Hsent as (i&pack&E&_&_&_&Hmem&Hent).
  exists i, pack. split; [done|]. split; [|split].
  - intros stickerID Hin. destruct (Hmem _ Hin) as (j&sticker&?&Hs).
    exists j, sticker. split; [done|].
    rewrite payloadImage_marshal. by apply fmap_is_Some.
  - intros shortcode entry. rewrite payloadImage_marshal.
    intros (data&Hd&->)%fmap_Some.
    destruct (Hent _ _ Hd) as (stickerID&j&sticker&?&?&?&->).
    exists stickerID, j, sticker. split; [done|]. split; [done|].
    split; [done|]. rewrite marshal_body. simpl.
    by repeat case_bool_decide.
  - intros before stickerID after Hsplit.
    destruct (Hown i pack E before stickerID after Hsplit)
      as (j&sticker&Hfind&Hentry).
    exists j, sticker. split; [done|]. intros Hno.
    rewrite payloadImage_marshal, (Hentry Hno).
    cbn [fmap option_fmap option_map mbind option_bind].
    rewrite marshal_body. simpl. by repeat case_bool_decide.
Qed.

(** C6, as amended. In the payload of a delivered pack the usage of the
    pack is the pack's own when it has one, else sticker and emoticon. An
    image entry has a usage field exactly when its sticker has a usage
    override, which the field then holds; and whenever no later member of
    the pack has a member's shortcode, the entry under that shortcode is the
    member's own: it has the usage field exactly when the member has an
    override. *)
Theorem PublishPack_usage c packName roomID w evt :
  delivered (PublishPack c packName roomID w).2 = delivered w ++ [evt] →
  ∃ i pack,
    findPack packName (packs (dataDir w)) = Some (i, pack)
    ∧ jsonField "pack" (PackContent.marshal (evContent evt))
        ≫= jsonField "usage"
      = Some (JArray (JString <$>
                (if bool_decide (Pack.Usage pack = [])
                 then ["sticker"; "emoticon"] else Pack.Usage pack)))
    ∧ (∀ shortcode entry,
         payloadImage shortcode (PackContent.marshal (evContent evt))
         = Some entry →
         ∃ stickerID j sticker,
           stickerID ∈ Pack.StickerIDs pack
           ∧ findSticker stickerID (collection (dataDir w))
             = Some (j, sticker)
           ∧ shortcode = shortcodeOf stickerID sticker
           ∧ (is_Some (jsonField "usage" entry) ↔ Sticker.Usage sticker ≠ [])
           ∧ (Sticker.Usage sticker ≠ [] →
              jsonField "usage" entry
              = Some (JArray (JString <$> Sticker.Usage sticker))))
    ∧ (∀ before stickerID after,
         Pack.StickerIDs pack = before ++ stickerID :: after →
         ∃ j sticker,
           findSticker stickerID (collection (dataDir w)) = Some (j, sticker)
           ∧ ((∀ later k other,
                 later ∈ after →
                 findSticker later (collection (dataDir w))
                 = Some (k, other) →
                 shortcodeOf later other ≠ shortcodeOf stickerID sticker) →
              payloadImage (shortcodeOf stickerID sticker)
                (PackContent.marshal (evContent evt))
                ≫= jsonField "usage"
              = if bool_decide (Sticker.Usage sticker = []) then None
                else Some (JArray (JString <$> Sticker.Usage sticker)))).
Proof.
  intros Hsent.
  pose proof (PublishPack_member _ _ _ _ _ Hsent) as Hown.
  apply PublishPack_images in Hsent as (i&pack&E&_&_&Hinfo&_&Hent).
  exists i, pack. split; [done|]. split; [|split].
  - rewrite payload_pack. cbn [mbind option_bind].
    rewrite marshal_pack_usage, Hinfo. simpl.
    destruct (Pack.Usage pack); done.
  - intros shortcode entry. rewrite payloadImage_marshal.
    intros (data&Hd&->)%fmap_Some.
    destruct (Hent _ _ Hd) as (stickerID&j&sticker&?&?&?&->).
    exists stickerID, j, sticker. split; [done|]. split; [done|].
    split; [done|]. rewrite marshal_usage. simpl.
    destruct (Sticker.Usage sticker) as [|u us]; simpl.
    + split; [|done]. split; [by intros [? ?]|done].
    + split; [|done]. split; [done|eauto].
  - intros before stickerID after Hsplit.
    destruct (Hown i pack E before stickerID after Hsplit)
      as (j&sticker&Hfind&Hentry).
    exists j, sticker. split; [done|]. intros Hno.
    rewrite payloadImage_marshal, (Hentry Hno).
    cbn [fmap option_fmap option_map mbind option_bind].
    rewrite marshal_usage. simpl.
    by destruct (Sticker.Usage sticker).
Qed.

Lemma PublishPack_bare :
  PublishPack pixelEnv "test-pack" "!room:example.org" bare
  = (Ok (),
     {| dataDir :=
          {| collection := [bareSticker];
             packs := [Pack.withPublishedRooms
                         {[ "!room:example.org" := "test-pack" ]} testPack] |};
        delivered := [bareEvent] |}).
Proof. vm_compute. reflexivity. Qed.

Lemma twins_built : runCalls twinsCalls emptyDir = twins.
Proof. vm_compute. reflexivity. Qed.

Lemma PublishPack_twins :
  PublishPack pixelEnv "twins" "!room:example.org" twinsWorld
  = (Ok (),
     {| dataDir :=
          {| collection := [twinFirst; twinSolo; twinSecond];
             packs := [Pack.withPublishedRooms
                         {[ "!room:example.org" := "twins" ]} twinsPack] |};
        delivered := [twinsEvent] |}).
Proof. vm_compute. reflexivity. Qed.

Lemma PublishPack_body_witness :
  delivered (PublishPack pixelEnv "twins" "!room:example.org" twinsWorld).2
  = delivered twinsWorld ++ [twinsEvent]
  ∧ payloadImage "solo" (PackContent.marshal (evContent twinsEvent))
      ≫= jsonField "body"
    = Some (JString "solo.png")
  ∧ payloadImage "dup" (PackContent.marshal (evContent twinsEvent))
      ≫= jsonField "body"
    = Some (JString "Second twin").
Proof.
  assert (delivered
            (PublishPack pixelEnv "twins" "!room:example.org" twinsWorld).2
          = delivered twinsWorld ++ [twinsEvent]) as H
    by (vm_compute; reflexivity).
  split; [exact H|].
  destruct (PublishPack_body pixelEnv "twins" "!room:example.org" twinsWorld
              twinsEvent H) as (i&pack&E&_&_&Hown).
  injection E as <- <-. split.
  - destruct (Hown ["sha256:first"] "sha256:solo" ["sha256:second"] eq_refl)
      as (j&sticker&Hfind&Hbody).
    injection Hfind as <- <-. apply Hbody.
    intros later k other ->%list_elem_of_singleton Hlater.
    injection Hlater as <- <-. discriminate.
  - destruct (Hown ["sha256:first"; "sha256:solo"] "sha256:second" [] eq_refl)
      as (j&sticker&Hfind&Hbody).
    injection Hfind as <- <-. apply Hbody.
    by intros later k other ?%elem_of_nil.
Defined.

(** C5, as the claim words it, fails on [bare]: the one member has neither
    a generated nor an original caption, and its entry in the payload still
    has a body field, holding the empty text. *)
Lemma PublishPack_empty_body_not_omitted :
  Sticker.GeneratedAltText bareSticker = ""
  ∧ Sticker.OriginalBody bareSticker = ""
  ∧ PublishPack pixelEnv "test-pack" "!room:example.org" bare
    = (Ok (),
       {| dataDir :=
            {| collection := [bareSticker];
               packs := [Pack.withPublishedRooms
                           {[ "!room:example.org" := "test-pack" ]}
                           testPack] |};
          delivered := [bareEvent] |})
  ∧ payloadImage "sha256:test123" (PackContent.marshal (evContent bareEvent))
      ≫= jsonField "body"
    = Some (JString "").
Proof.
  split; [reflexivity|]. split; [reflexivity|].
  split; [apply PublishPack_bare|]. vm_compute. reflexivity.
Qed.

Lemma PublishPack_usage_witness :
  delivered (PublishPack pixelEnv "twins" "!room:example.org" twinsWorld).2
  = delivered twinsWorld ++ [twinsEvent]
  ∧ jsonField "pack" (PackContent.marshal (evContent twinsEvent))
      ≫= jsonField "usage"
    = Some (JArray [JString "sticker"; JString "emoticon"])
  ∧ payloadImage "solo" (PackContent.marshal (evContent twinsEvent))
      ≫= jsonField "usage"
    = Some (JArray [JString "emoticon"])
  ∧ payloadImage "dup" (PackContent.marshal (evContent twinsEvent))
      ≫= jsonField "usage"
    = None.
Proof.
  assert (delivered
            (PublishPack pixelEnv "twins" "!room:example.org" twinsWorld).2
          = delivered twinsWorld ++ [twinsEvent]) as H
    by (vm_compute; reflexivity).
  split; [exact H|].
  destruct (PublishPack_usage pixelEnv "twins" "!room:example.org" twinsWorld
              twinsEvent H) as (i&pack&E&Hpack&_&Hown).
  injection E as <- <-. split; [exact Hpack|]. split.
  - destruct (Hown ["sha256:first"] "sha256:solo" ["sha256:second"] eq_refl)
      as (j&sticker&Hfind&Husage).
    injection Hfind as <- <-. apply Husage.
    intros later k other ->%list_elem_of_singleton Hlater.
    injection Hlater as <- <-. discriminate.
  - destruct (Hown ["sha256:first"; "sha256:solo"] "sha256:second" [] eq_refl)
      as (j&sticker&Hfind&Husage).
    injection Hfind as <- <-. apply Husage.
    by intros later k other ?%elem_of_nil.
Defined.

(** C6, as the claim words it, fails on [twins], a directory the storage
    calls build: the first twin is a member of the pack and has a usage
    override, and the payload has no entry of its own for it; the one entry
    under its shortcode is the second twin's and has no usage field. *)
Lemma PublishPack_override_not_published :
  runCalls twinsCalls emptyDir = twins
  ∧ PublishPack pixelEnv "twins" "!room:example.org" twinsWorld
    = (Ok (),
       {| dataDir :=
            {| collection := [twinFirst; twinSolo; twinSecond];
               packs := [Pack.withPublishedRooms
                           {[ "!room:example.org" := "twins" ]}
                           twinsPack] |};
          delivered := [twinsEvent] |})
  ∧ "sha256:first" ∈ Pack.StickerIDs twinsPack
  ∧ findSticker "sha256:first" (collection twins) = Some (0, twinFirst)
  ∧ Sticker.Usage twinFirst = ["sticker"]
  ∧ shortcodeOf "sha256:first" twinFirst = "dup"
  ∧ PackContent.Images (evContent twinsEvent)
    = {[ "dup" := stickerData twinSecond; "solo" := stickerData twinSolo ]}
  ∧ payloadImage "dup" (PackContent.marshal (evContent twinsEvent))
      ≫= jsonField "usage"
    = None.
Proof.
  split; [apply twins_built|]. split; [apply PublishPack_twins|].
  split; [by left|]. split; [reflexivity|]. split; [reflexivity|].
  split; [reflexivity|]. split; vm_compute; reflexivity.
Qed.

(** *** The publish ledger *)

Lemma RemoveFromPack_run packName stickerIDs d :
  RemoveFromPack packName stickerIDs d =
  match findPack packName (packs d) with
  | None => (Err ("pack not found: " +:+ packName), d)
  | Some (packIndex, pack) =>
      (Ok (),
       {| collection := unmarkInPack packName stickerIDs <$> collection d;
          packs :=
            <[packIndex :=
                Pack.withStickerIDs
                  (removeMembers stickerIDs (Pack.StickerIDs pack)) pack]>
              (packs d) |})
  end.
Proof.
  unfold RemoveFromPack. run.
  by destruct (findPack _ _) as [[i pack]|].
Qed.

Lemma ledgersKeyed_update d i pack pack' coll :
  ledgersKeyed d →
  packs d !! i = Some pack →
  Pack.Name pack' = Pack.Name pack →
  Pack.PublishedRooms pack' = Pack.PublishedRooms pack →
  ledgersKeyed {| collection := coll; packs := <[i := pack']> (packs d) |}.
Proof.
  unfold ledgersKeyed. intros Hd Hi Hname Hrooms. simpl.
  apply Forall_insert; [done|].
  intros roomID stateKey. rewrite Hname, Hrooms.
  by apply (Forall_lookup_1 _ _ _ _ Hd Hi).
Qed.

Lemma RemoveFromPack_ledgers packName stickerIDs d :
  ledgersKeyed d → ledgersKeyed (RemoveFromPack packName stickerIDs d).2.
Proof.
  intros Hd. rewrite RemoveFromPack_run.
  destruct (findPack _ _) as [[i pack]|] eqn:E; [|done]. simpl.
  apply findPack_Some in E as [Hi _].
  by eapply ledgersKeyed_update.
Qed.

Lemma forEach_warnOnly_ledgers packNames id d :
  ledgersKeyed d →
  ledgersKeyed
    (forEach packNames (λ packName, warnOnly (RemoveFromPack packName [id]))
       d).2.
Proof.
  revert d. induction packNames as [|x rest IH]; intros d Hd; [done|].
  simpl. unfold bind, warnOnly.
  pose proof (RemoveFromPack_ledgers x [id] d Hd) as H1.
  destruct (RemoveFromPack x [id] d) as [r d1]. simpl in *. by apply IH.
Qed.

Lemma runCall_ledgers call d :
  ledgersKeyed d → ledgersKeyed (runCall call d).2.
Proof.
  intros Hd. destruct call; simpl.
  - by rewrite AddSticker_run.
  - unfold UpdateAltText. run. by destruct (findSticker _ _) as [[??]|].
  - unfold SetStickerUsage. run. by destruct (findSticker _ _) as [[??]|].
  - unfold SetStickerName. run. by destruct (findSticker _ _) as [[??]|].
  - unfold DeleteSticker. run.
    destruct (findSticker _ _) as [[i sticker]|]; [|done]. run.
    by apply forEach_warnOnly_ledgers.
  - unfold CreatePackWithAttribution. run. case_bool_decide; [done|]. simpl.
    unfold ledgersKeyed. simpl. apply Forall_app. split; [done|].
    apply Forall_singleton. intros roomID stateKey. simpl.
    by rewrite lookup_empty.
  - rewrite AddToPack_run.
    destruct (findPack _ _) as [[i pack]|] eqn:E; [|done].
    destruct (addMembers _ _ _); [|done]. simpl.
    apply findPack_Some in E as [Hi _]. by eapply ledgersKeyed_update.
  - by apply RemoveFromPack_ledgers.
  - unfold SetPackAvatar. run.
    destruct (findPack _ _) as [[i pack]|] eqn:E; [|done]. simpl.
    apply findPack_Some in E as [Hi _]. by eapply ledgersKeyed_update.
  - unfold SetPackUsage. run.
    destruct (findPack _ _) as [[i pack]|] eqn:E; [|done]. simpl.
    apply findPack_Some in E as [Hi _]. by eapply ledgersKeyed_update.
Qed.

Lemma PublishPack_ledgers c packName roomID w :
  ledgersKeyed (dataDir w) →
  ledgersKeyed (dataDir (PublishPack c packName roomID w).2).
Proof.
  intros Hw. rewrite PublishPack_run.
  destruct (findPack _ _) as [[i pack]|] eqn:E; [|done].
  destruct (packContentOf _ _) as [content|]; [|done]. simpl.
  destruct (SendStateEventResult c _); [|done]. simpl.
  apply findPack_Some in E as [Hi Hname].
  unfold ledgersKeyed. simpl. apply Forall_insert; [done|].
  intros room stateKey. simpl.
  intros [[_ <-]|[_ H]]%lookup_insert_Some; [done|].
  by apply (Forall_lookup_1 _ _ _ _ Hw Hi room).
Qed.

Lemma reachable_ledgers w : reachable w → ledgersKeyed (dataDir w).
Proof.
  induction 1 as [|w call _ IH|w c packName roomID _ IH].
  - apply Forall_nil_2.
  - unfold onDir.
    pose proof (runCall_ledgers call (dataDir w) IH) as H.
    by destruct (runCall call (dataDir w)).
  - by apply PublishPack_ledgers.
Qed.

(** C10. A successful publish delivers the event under the pack's name and
    records that name for the room in the pack's ledger. Hence in every
    reachable world each entry of each ledger holds the name of its pack,
    and publishing a pack again to a room of its ledger delivers under the
    state key the ledger holds. *)
Theorem publish_ledger_holds_pack_name w :
  reachable w →
  (∀ c packName roomID w',
     PublishPack c packName roomID w = (Ok (), w') →
     ∃ i pack content,
       findPack packName (packs (dataDir w')) = Some (i, pack)
       ∧ Pack.PublishedRooms pack !! roomID = Some (Pack.Name pack)
       ∧ delivered w'
         = delivered w ++ [packEvent roomID (Pack.Name pack) content])
  ∧ (∀ pack, pack ∈ packs (dataDir w) → ledgerKeyed pack)
  ∧ (∀ c pack roomID stateKey evt,
       pack ∈ packs (dataDir w) →
       Pack.PublishedRooms pack !! roomID = Some stateKey →
       delivered (PublishPack c (Pack.Name pack) roomID w).2
       = delivered w ++ [evt] →
       evRoom evt = roomID ∧ evStateKey evt = stateKey).
Proof.
  intros Hreach. pose proof (reachable_ledgers w Hreach) as Hinv.
  split; [|split].
  - intros c packName roomID w'. rewrite PublishPack_run.
    destruct (findPack _ _) as [[i pack]|] eqn:E; [|done].
    destruct (packContentOf _ _) as [content|]; [|done]. simpl.
    destruct (SendStateEventResult c _); [|done].
    intros [= <-]. simpl.
    pose proof (findPack_Some _ _ _ _ E) as [Hi Hname].
    eexists i, _, content. split.
    { apply (findPack_insert _ _ _ pack); done. }
    simpl. rewrite lookup_insert_eq, Hname. done.
  - intros pack Hin. by apply (proj1 (Forall_forall _ _) Hinv).
  - intros c pack roomID stateKey evt Hin Hrec Hdel.
    apply PublishPack_delivered in Hdel as (i&pack'&content&_&_&->).
    simpl. split; [done|].
    symmetry. by apply (proj1 (Forall_forall _ _) Hinv pack Hin roomID).
Qed.

Lemma bare_reachable : reachable bare.
Proof.
  assert (bare =
    (onDir (runCall (CallAddToPack "test-pack" ["sha256:test123"]))
      (onDir (runCall (CallCreatePack "test-pack" "Test Pack" ""))
        (onDir (runCall (CallAddSticker (Sticker.withInPacks [] bareSticker)))
           initialWorld).2).2).2) as -> by (vm_compute; reflexivity).
  repeat constructor.
Qed.

Lemma published_reachable : reachable published.
Proof.
  assert (published
          = (PublishPack pixelEnv "test-pack" "!room:example.org" bare).2)
    as -> by (vm_compute; reflexivity).
  apply reachable_publish, bare_reachable.
Qed.

Lemma publish_ledger_holds_pack_name_witness :
  reachable published
  ∧ (∀ pack, pack ∈ packs (dataDir published) → ledgerKeyed pack)
  ∧ (∀ c pack roomID stateKey evt,
       pack ∈ packs (dataDir published) →
       Pack.PublishedRooms pack !! roomID = Some stateKey →
       delivered (PublishPack c (Pack.Name pack) roomID published).2
       = delivered published ++ [evt] →
       evRoom evt = roomID ∧ evStateKey evt = stateKey).
Proof.
  split; [exact published_reachable|].
  exact (proj2 (publish_ledger_holds_pack_name published published_reachable)).
Defined.

(** The entry points of the bot stay within the reachable worlds. *)

Lemma world_eta w : {| dataDir := dataDir w; delivered := delivered w |} = w.
Proof. by destruct w. Qed.

Lemma reachable_collectSticker `{!Unicode} c roomID eventID mxcURI body w :
  reachable w →
  reachable (onDir (collectSticker c roomID eventID mxcURI body) w).2.
Proof.
  intros Hw. unfold onDir.
  destruct (collectSticker_run c roomID eventID mxcURI body (dataDir w))
    as [[msg ->]|(data&info&mxc&alt&_&_&->)].
  - simpl. by rewrite world_eta.
  - apply (reachable_storage w (CallAddSticker _) Hw).
Qed.

Lemma reachable_packCreate `{!Unicode} c name w :
  reachable w → reachable (packCreate c name w).2.
Proof.
  intros Hw. unfold packCreate. case_bool_decide; [done|].
  pose proof (reachable_storage w
    (CallCreatePack (strings.ToLower (strings.ReplaceAll name " " "-")) name
       (UserID c)) Hw) as Hr.
  simpl in Hr. by destruct (onDir _ w) as [[]].
Qed.

Lemma reachable_packAdd packName stickerID w :
  reachable w → reachable (packAdd packName stickerID w).2.
Proof.
  intros Hw. unfold packAdd.
  pose proof (reachable_storage w (CallAddToPack packName [stickerID]) Hw)
    as H.
  simpl in H. by destruct (onDir _ w) as [[]].
Qed.

Lemma reachable_packRemove packName stickerID w :
  reachable w → reachable (packRemove packName stickerID w).2.
Proof.
  intros Hw. unfold packRemove.
  pose proof (reachable_storage w (CallRemoveFromPack packName [stickerID])
                Hw) as H.
  simpl in H. by destruct (onDir _ w) as [[]].
Qed.

Lemma reachable_stickerDelete stickerID w :
  reachable w → reachable (stickerDelete stickerID w).2.
Proof.
  intros Hw. unfold stickerDelete.
  pose proof (reachable_storage w (CallDeleteSticker stickerID) Hw) as H.
  simpl in H. by destruct (onDir _ w) as [[]].
Qed.

Lemma reachable_republish c packName rooms successCount errors w :
  reachable w →
  reachable (republish c packName rooms successCount errors w).2.
Proof.
  revert successCount errors w.
  induction rooms as [|room rooms IH]; intros successCount errors w Hw;
    [done|].
  simpl.
  pose proof (reachable_publish w c packName room Hw) as H.
  destruct (PublishPack c packName room w) as [[] w']; by apply IH.
Qed.

Lemma reachable_packPublish c packName roomID w :
  reachable w → reachable (packPublish c packName roomID w).2.
Proof.
  intros Hw. unfold packPublish. case_bool_decide.
  - unfold onDir, GetPack. run.
    destruct (findPack _ _) as [[i pack]|]; simpl;
      [|by rewrite world_eta].
    case_bool_decide; simpl; [by rewrite world_eta|].
    rewrite world_eta.
    pose proof (reachable_republish c packName
                  (map_to_list (Pack.PublishedRooms pack)).*1 0 [] w Hw) as Hr.
    destruct (republish _ _ _ _ _ _) as [[n errs] w'].
    by case_bool_decide.
  - destruct (negb _); [done|].
    pose proof (reachable_publish w c packName roomID Hw) as Hr.
    by destruct (PublishPack c packName roomID w) as [[] w'].
Qed.

(** Republishing to all saved rooms delivers every event under the pack's
    name, to rooms of the list it was given. *)
Lemma republish_delivered c packName rooms successCount errors w :
  ∃ evts,
    delivered (republish c packName rooms successCount errors w).2
    = delivered w ++ evts
    ∧ Forall (λ evt, evStateKey evt = packName ∧ evRoom evt ∈ rooms) evts.
Proof.
  revert successCount errors w.
  induction rooms as [|room rooms IH]; intros successCount errors w.
  - exists []. simpl. by rewrite app_nil_r.
  - simpl.
    assert (∃ evts0,
              delivered (PublishPack c packName room w).2
              = delivered w ++ evts0
              ∧ Forall (λ evt, evStateKey evt = packName
                               ∧ evRoom evt ∈ room :: rooms) evts0)
      as (evts0&Hd0&Hk0).
    { rewrite PublishPack_run.
      destruct (findPack _ _) as [[i pack]|];
        [|exists []; by rewrite app_nil_r].
      destruct (packContentOf _ _) as [content|];
        [|exists []; by rewrite app_nil_r].
      exists [packEvent room packName content].
      split; [simpl; by destruct (SendStateEventResult c _)|].
      apply Forall_singleton. split; [done|]. by left. }
    destruct (PublishPack c packName room w) as [[] w']; simpl in *.
    + destruct (IH (S successCount) errors w') as (evts&Hd&Hk).
      exists (evts0 ++ evts). rewrite Hd, Hd0, app_assoc. split; [done|].
      apply Forall_app. split; [done|].
      eapply Forall_impl; [exact Hk|]. intros evt [? ?].
      split; [done|]. by right.
    + destruct (IH successCount (errors ++ [room +:+ ": " +:+ msg]) w')
        as (evts&Hd&Hk).
      exists (evts0 ++ evts). rewrite Hd, Hd0, app_assoc. split; [done|].
      apply Forall_app. split; [done|].
      eapply Forall_impl; [exact Hk|]. intros evt [? ?].
      split; [done|]. by right.
Qed.

(** *** Membership on both sides

    Every mutating call of the storage package keeps a consistent data
    directory consistent, but for one: [AddSticker] of an id the collection
    already has. *)

Lemma addMembers_elem collection stickerIDs members members' :
  addMembers collection stickerIDs members = Ok members' →
  ∀ x, x ∈ members' ↔ x ∈ members ∨ x ∈ stickerIDs.
Proof.
  revert members.
  induction stickerIDs as [|y rest IH]; intros members; simpl.
  - intros [= ->] x. rewrite elem_of_nil. tauto.
  - case_bool_decide; [|done]. intros Hrun x.
    rewrite (IH _ Hrun x), elem_of_cons.
    case_bool_decide as Hy.
    + split; [tauto|]. intros [?|[->|?]]; tauto.
    + rewrite elem_of_app, list_elem_of_singleton. tauto.
Qed.

Lemma addMembers_valid collection stickerIDs members members' :
  addMembers collection stickerIDs members = Ok members' →
  ∀ x, x ∈ stickerIDs → x ∈ Sticker.ID <$> collection.
Proof.
  revert members.
  induction stickerIDs as [|y rest IH]; intros members; simpl.
  - intros _ x Hx. by apply not_elem_of_nil in Hx.
  - case_bool_decide; [|done]. intros Hrun x [->|Hx]%elem_of_cons; [done|].
    by eapply IH.
Qed.

Lemma addMembers_NoDup collection stickerIDs members members' :
  addMembers collection stickerIDs members = Ok members' →
  NoDup members → NoDup members'.
Proof.
  revert members.
  induction stickerIDs as [|y rest IH]; intros members; simpl.
  - by intros [= ->].
  - case_bool_decide; [|done]. intros Hrun Hnd. apply (IH _ Hrun).
    case_bool_decide as Hy; [done|].
    apply NoDup_app. split; [done|]. split; [|apply NoDup_singleton].
    intros x Hx ->%list_elem_of_singleton. done.
Qed.

Lemma markInPack_InPacks packName stickerIDs sticker x :
  x ∈ Sticker.InPacks (markInPack packName stickerIDs sticker)
  ↔ x ∈ Sticker.InPacks sticker
    ∨ (x = packName ∧ Sticker.ID sticker ∈ stickerIDs).
Proof.
  unfold markInPack. revert sticker.
  induction stickerIDs as [|y rest IH]; intros sticker; simpl.
  - rewrite elem_of_nil. tauto.
  - rewrite IH, elem_of_cons. clear IH.
    case_bool_decide as Hy.
    + subst y. case_bool_decide as Hin; simpl.
      * split; [tauto|]. intros [?|[-> _]]; tauto.
      * rewrite elem_of_app, list_elem_of_singleton. tauto.
    + split; [tauto|]. intros [?|[-> [?|?]]]; solve [tauto | congruence].
Qed.

Lemma removeMembers_elem stickerIDs members x :
  x ∈ removeMembers stickerIDs members ↔ x ∈ members ∧ x ∉ stickerIDs.
Proof.
  unfold removeMembers. revert members.
  induction stickerIDs as [|y rest IH]; intros members; simpl.
  - rewrite elem_of_nil. tauto.
  - rewrite IH, list_elem_of_filter, not_elem_of_cons. tauto.
Qed.

Lemma removeMembers_NoDup stickerIDs members :
  NoDup members → NoDup (removeMembers stickerIDs members).
Proof.
  unfold removeMembers. revert members.
  induction stickerIDs as [|y rest IH]; intros members Hnd; simpl; [done|].
  by apply IH, NoDup_filter.
Qed.

Lemma unmarkInPack_ID packName stickerIDs sticker :
  Sticker.ID (unmarkInPack packName stickerIDs sticker) = Sticker.ID sticker.
Proof.
  unfold unmarkInPack. revert sticker.
  induction stickerIDs as [|x rest IH]; intros sticker; simpl; [done|].
  rewrite IH. by case_bool_decide.
Qed.

Lemma unmarkInPack_InPacks packName stickerIDs sticker x :
  x ∈ Sticker.InPacks (unmarkInPack packName stickerIDs sticker)
  ↔ x ∈ Sticker.InPacks sticker
    ∧ ¬ (x = packName ∧ Sticker.ID sticker ∈ stickerIDs).
Proof.
  unfold unmarkInPack. revert sticker.
  induction stickerIDs as [|y rest IH]; intros sticker; simpl.
  - rewrite elem_of_nil. tauto.
  - rewrite IH, elem_of_cons. clear IH.
    case_bool_decide as Hy; simpl.
    + subst y. rewrite list_elem_of_filter. tauto.
    + split; [|tauto]. intros [? Hn]. split; [done|].
      intros [-> [?|?]]; [congruence|tauto].
Qed.

Lemma unmarkInPack_other packName stickerIDs sticker :
  Sticker.ID sticker ∉ stickerIDs →
  unmarkInPack packName stickerIDs sticker = sticker.
Proof.
  unfold unmarkInPack. revert sticker.
  induction stickerIDs as [|y rest IH]; intros sticker Hn; simpl; [done|].
  apply not_elem_of_cons in Hn as [? ?].
  rewrite bool_decide_eq_false_2 by done. by apply IH.
Qed.

(** The packs of a list after one of them has been updated in place. *)
Lemma elem_of_insert_inv {A} (l : list A) i x y :
  y ∈ <[i := x]> l → y = x ∨ ∃ j, j ≠ i ∧ l !! j = Some y.
Proof.
  intros (j&Hj)%list_elem_of_lookup.
  apply list_lookup_insert_Some in Hj as [(->&->&_)|[? ?]]; eauto.
Qed.

Lemma fmap_insert_same {A B} (f : A → B) (l : list A) i x y :
  l !! i = Some x → f y = f x → f <$> <[i := y]> l = f <$> l.
Proof.
  intros Hi Hf. rewrite list_fmap_insert, Hf.
  apply list_insert_id. by rewrite list_lookup_fmap, Hi.
Qed.

Lemma names_distinct (l : list Pack.t) i j pack pack' :
  NoDup (Pack.Name <$> l) →
  l !! i = Some pack → l !! j = Some pack' → j ≠ i →
  Pack.Name pack' ≠ Pack.Name pack.
Proof.
  intros Hnd Hi Hj Hne Heq. apply Hne.
  apply (NoDup_lookup _ _ _ (Pack.Name pack') Hnd).
  - by rewrite list_lookup_fmap, Hj.
  - by rewrite list_lookup_fmap, Hi, Heq.
Qed.

Lemma lookup_elem_of {A} (l : list A) i x : l !! i = Some x → x ∈ l.
Proof. intros H. apply list_elem_of_lookup. eauto. Qed.

(** One pack gets a new member list and the stickers are rewritten without
    touching their ids: what the new lists must satisfy. *)
Lemma consistent_update d i pack members' (g : Sticker.t → Sticker.t) :
  consistent d →
  packs d !! i = Some pack →
  NoDup members' →
  (∀ x, x ∈ members' → x ∈ stickerIDsOf d) →
  (∀ s, Sticker.ID (g s) = Sticker.ID s) →
  (∀ s, s ∈ collection d →
        (Sticker.ID s ∈ members' ↔ Pack.Name pack ∈ Sticker.InPacks (g s))) →
  (∀ s name, s ∈ collection d → name ≠ Pack.Name pack →
             (name ∈ Sticker.InPacks (g s) ↔ name ∈ Sticker.InPacks s)) →
  consistent
    {| collection := g <$> collection d;
       packs := <[i := Pack.withStickerIDs members' pack]> (packs d) |}.
Proof.
  intros [Hids Hnames Huniq Hmem Hlisted Hboth] Hi Hnd Hvalid Hg Hthis Hothers.
  assert (Sticker.ID <$> (g <$> collection d) = Sticker.ID <$> collection d)
    as HIDs.
  { rewrite <- list_fmap_compose. apply list_fmap_ext. intros ? ? _. apply Hg. }
  assert (Pack.Name <$> <[i := Pack.withStickerIDs members' pack]> (packs d)
          = Pack.Name <$> packs d) as HNames.
  { by apply (fmap_insert_same _ _ _ pack). }
  pose proof (lookup_elem_of _ _ _ Hi) as Hpack.
  split; unfold stickerIDsOf, packNamesOf, membersUnique, bidirectional;
    simpl; rewrite ?HIDs, ?HNames; try done.
  - intros pack' [->|(j&_&Hj)]%elem_of_insert_inv; [done|].
    apply Huniq. by eapply lookup_elem_of.
  - intros pack' id [->|(j&_&Hj)]%elem_of_insert_inv; [by apply Hvalid|].
    apply Hmem. by eapply lookup_elem_of.
  - intros sticker' name (s&->&Hs)%list_elem_of_fmap Hname.
    destruct (decide (name = Pack.Name pack)) as [->|Hne].
    + apply list_elem_of_fmap. eauto.
    + apply (Hlisted s name Hs). by apply Hothers.
  - intros pack' sticker' Hpack' (s&->&Hs)%list_elem_of_fmap. rewrite Hg.
    apply elem_of_insert_inv in Hpack' as [->|(j&Hj&Hpj)]; [by apply Hthis|].
    rewrite Hothers; [|done|by eapply names_distinct].
    apply Hboth; [by eapply lookup_elem_of|done].
Qed.

Lemma AddToPack_consistent packName stickerIDs d :
  consistent d → consistent (AddToPack packName stickerIDs d).2.
Proof.
  intros Hd. rewrite AddToPack_run.
  destruct (findPack _ _) as [[i pack]|] eqn:E; [|done].
  destruct (addMembers _ _ _) as [members'|] eqn:Eadd; [|done]. simpl.
  apply findPack_Some in E as [Hi Hname].
  pose proof (lookup_elem_of _ _ _ Hi) as Hpack.
  apply consistent_update; try done.
  - eapply addMembers_NoDup; [done|]. by apply (consistent_unique d Hd).
  - intros x [Hx|Hx]%(addMembers_elem _ _ _ _ Eadd).
    + by apply (consistent_members d Hd pack).
    + by eapply addMembers_valid.
  - intros s. apply markInPack_ID.
  - intros s Hs. rewrite (addMembers_elem _ _ _ _ Eadd), markInPack_InPacks.
    rewrite (consistent_both d Hd pack s Hpack Hs), Hname. tauto.
  - intros s name Hs Hne. rewrite markInPack_InPacks.
    split; [|tauto]. intros [?|[-> _]]; [done|]. by rewrite Hname in Hne.
Qed.

Lemma RemoveFromPack_consistent packName stickerIDs d :
  consistent d → consistent (RemoveFromPack packName stickerIDs d).2.
Proof.
  intros Hd. rewrite RemoveFromPack_run.
  destruct (findPack _ _) as [[i pack]|] eqn:E; [|done]. simpl.
  apply findPack_Some in E as [Hi Hname].
  pose proof (lookup_elem_of _ _ _ Hi) as Hpack.
  apply consistent_update; try done.
  - apply removeMembers_NoDup. by apply (consistent_unique d Hd).
  - intros x [Hx _]%removeMembers_elem.
    by apply (consistent_members d Hd pack).
  - intros s. apply unmarkInPack_ID.
  - intros s Hs. rewrite removeMembers_elem, unmarkInPack_InPacks.
    rewrite (consistent_both d Hd pack s Hpack Hs), Hname.
    split; [intros [? ?]; split; [done|tauto]|].
    intros [? Hn]. split; [done|]. intros ?. apply Hn. done.
  - intros s name Hs Hne. rewrite unmarkInPack_InPacks.
    split; [tauto|]. intros ?. split; [done|].
    intros [-> _]. by rewrite Hname in Hne.
Qed.

Lemma consistent_sticker_update d i sticker sticker' :
  consistent d →
  collection d !! i = Some sticker →
  Sticker.ID sticker' = Sticker.ID sticker →
  Sticker.InPacks sticker' = Sticker.InPacks sticker →
  consistent {| collection := <[i := sticker']> (collection d);
                packs := packs d |}.
Proof.
  intros [Hids Hnames Huniq Hmem Hlisted Hboth] Hi Hid Hin.
  assert (Sticker.ID <$> <[i := sticker']> (collection d)
          = Sticker.ID <$> collection d) as HIDs
    by by apply (fmap_insert_same _ _ _ sticker).
  pose proof (lookup_elem_of _ _ _ Hi) as Hs.
  split; unfold stickerIDsOf, packNamesOf, membersUnique, bidirectional;
    simpl; rewrite ?HIDs; try done.
  - intros s name [->|(j&_&Hj)]%elem_of_insert_inv.
    + rewrite Hin. by apply Hlisted.
    + apply Hlisted. by eapply lookup_elem_of.
  - intros pack s Hpack [->|(j&_&Hj)]%elem_of_insert_inv.
    + rewrite Hid, Hin. by apply Hboth.
    + apply Hboth; [done|]. by eapply lookup_elem_of.
Qed.

Lemma consistent_pack_update d i pack pack' :
  consistent d →
  packs d !! i = Some pack →
  Pack.Name pack' = Pack.Name pack →
  Pack.StickerIDs pack' = Pack.StickerIDs pack →
  consistent {| collection := collection d;
                packs := <[i := pack']> (packs d) |}.
Proof.
  intros [Hids Hnames Huniq Hmem Hlisted Hboth] Hi Hname Hmembers.
  assert (Pack.Name <$> <[i := pack']> (packs d) = Pack.Name <$> packs d)
    as HNames by by apply (fmap_insert_same _ _ _ pack).
  pose proof (lookup_elem_of _ _ _ Hi) as Hp.
  split; unfold stickerIDsOf, packNamesOf, membersUnique, bidirectional;
    simpl; rewrite ?HNames; try done.
  - intros p [->|(j&_&Hj)]%elem_of_insert_inv.
    + rewrite Hmembers. by apply Huniq.
    + apply Huniq. by eapply lookup_elem_of.
  - intros p id [->|(j&_&Hj)]%elem_of_insert_inv.
    + rewrite Hmembers. by apply Hmem.
    + apply Hmem. by eapply lookup_elem_of.
  - intros p s [->|(j&_&Hj)]%elem_of_insert_inv Hs.
    + rewrite Hname, Hmembers. by apply Hboth.
    + apply Hboth; [|done]. by eapply lookup_elem_of.
Qed.

Lemma CreatePack_consistent name displayName attribution d :
  consistent d →
  consistent (CreatePackWithAttribution name displayName attribution d).2.
Proof.
  intros Hd. unfold CreatePackWithAttribution. run.
  case_bool_decide as Hname; [done|]. simpl.
  destruct Hd as [Hids Hnames Huniq Hmem Hlisted Hboth].
  split; unfold stickerIDsOf, packNamesOf, membersUnique, bidirectional;
    simpl; try done.
  - rewrite fmap_app. simpl. apply NoDup_app. split; [done|].
    split; [|apply NoDup_singleton].
    intros x Hx ->%list_elem_of_singleton. done.
  - intros p [Hp|Hp%list_elem_of_singleton]%elem_of_app; [by apply Huniq|].
    subst p. apply NoDup_nil_2.
  - intros p id [Hp|Hp%list_elem_of_singleton]%elem_of_app; [by apply Hmem|].
    subst p. simpl. by intros ?%not_elem_of_nil.
  - intros s n Hs Hn. rewrite fmap_app. apply elem_of_app. left.
    by apply (Hlisted s).
  - intros p s [Hp|Hp%list_elem_of_singleton]%elem_of_app Hs;
      [by apply Hboth|].
    subst p. simpl. split; [by intros ?%not_elem_of_nil|].
    intros Hn. destruct Hname. by apply (Hlisted s).
Qed.

Lemma AddSticker_consistent sticker d :
  consistent d →
  keepsPackList (CallAddSticker sticker) d →
  consistent (AddSticker sticker d).2.
Proof.
  intros Hd Hkeep. rewrite AddSticker_run. simpl in *.
  destruct (findSticker _ _) as [[i existing]|] eqn:E.
  - apply findSticker_Some in E as [Hi Hid].
    by apply (consistent_sticker_update d i existing).
  - apply findSticker_None in E.
    destruct Hd as [Hids Hnames Huniq Hmem Hlisted Hboth].
    split; unfold stickerIDsOf, packNamesOf, membersUnique, bidirectional;
      simpl; try done.
    + rewrite fmap_app. simpl. apply NoDup_app. split; [done|].
      split; [|apply NoDup_singleton].
      intros x Hx ->%list_elem_of_singleton. done.
    + intros p id Hp Hin. rewrite fmap_app. apply elem_of_app. left.
      by apply (Hmem p).
    + intros s n [Hs|Hs%list_elem_of_singleton]%elem_of_app;
        [by apply Hlisted|].
      subst s. rewrite Hkeep. by intros ?%not_elem_of_nil.
    + intros p s Hp [Hs|Hs%list_elem_of_singleton]%elem_of_app;
        [by apply Hboth|].
      subst s. rewrite Hkeep. split; [|by intros ?%not_elem_of_nil].
      intros Hin. destruct E. by apply (Hmem p).
Qed.

Lemma delete_split {A} (l : list A) i x :
  l !! i = Some x → ∃ l1 l2, l = l1 ++ x :: l2 ∧ delete i l = l1 ++ l2.
Proof.
  intros Hi. exists (take i l), (drop (S i) l).
  split; [by rewrite take_drop_middle|apply delete_take_drop].
Qed.

Lemma delete_consistentBut d i sticker :
  consistent d →
  collection d !! i = Some sticker →
  consistentBut (Sticker.ID sticker) (Sticker.InPacks sticker)
    {| collection := delete i (collection d); packs := packs d |}.
Proof.
  intros [Hids Hnames Huniq Hmem Hlisted Hboth] Hi.
  pose proof (lookup_elem_of _ _ _ Hi) as Hs.
  destruct (delete_split _ _ _ Hi) as (l1&l2&Hl&->).
  unfold stickerIDsOf, membersUnique, bidirectional in *.
  rewrite Hl in Hids, Hmem, Hlisted, Hboth.
  rewrite fmap_app in Hids, Hmem. simpl in Hids, Hmem.
  apply NoDup_app in Hids as (Hnd1&Hdisj&[Hnot2 Hnd2]%NoDup_cons).
  split; unfold stickerIDsOf, packNamesOf, membersUnique, bidirectional;
    simpl; try done.
  - rewrite fmap_app. apply NoDup_app. split; [done|]. split; [|done].
    intros x Hx1 Hx2. apply (Hdisj x Hx1). by right.
  - rewrite fmap_app. intros [H1|H2]%elem_of_app; [|done].
    apply (Hdisj _ H1). by left.
  - intros pack x Hpack Hx. rewrite fmap_app.
    pose proof (Hmem pack x Hpack Hx) as Hx'.
    apply elem_of_app in Hx' as [?|[->|?]%elem_of_cons].
    + left. apply elem_of_app. by left.
    + right. split; [done|]. apply (Hboth pack sticker); [done| |done].
      apply elem_of_app. right. by left.
    + left. apply elem_of_app. by right.
  - intros s name Hin. apply Hlisted.
    apply elem_of_app in Hin as [?|?]; apply elem_of_app; [by left|].
    right. by right.
  - intros pack s Hpack Hin. apply Hboth; [done|].
    apply elem_of_app in Hin as [?|?]; apply elem_of_app; [by left|].
    right. by right.
Qed.

Lemma consistentBut_nil id d : consistentBut id [] d → consistent d.
Proof.
  intros [Hids Hgone Hnames Huniq Hmem Hlisted Hboth]. split; try done.
  intros pack x Hpack Hx.
  destruct (Hmem pack x Hpack Hx) as [?|[_ ?%not_elem_of_nil]]; done.
Qed.

Lemma RemoveFromPack_consistentBut id name names d :
  consistentBut id (name :: names) d →
  consistentBut id names (RemoveFromPack name [id] d).2.
Proof.
  intros [Hids Hgone Hnames Huniq Hmem Hlisted Hboth].
  rewrite RemoveFromPack_run.
  destruct (findPack _ _) as [[i pack]|] eqn:E; simpl.
  - apply findPack_Some in E as [Hi Hname].
    pose proof (lookup_elem_of _ _ _ Hi) as Hpack.
    assert (unmarkInPack name [id] <$> collection d = collection d) as ->.
    { rewrite <- (list_fmap_id (collection d)) at 2.
      apply list_fmap_ext. intros j s Hj.
      change (unmarkInPack name [id] s = s). apply unmarkInPack_other.
      intros Heq%list_elem_of_singleton. apply Hgone.
      apply list_elem_of_fmap. exists s. split; [done|].
      by eapply lookup_elem_of. }
    set (pack' := Pack.withStickerIDs _ pack).
    assert (Pack.Name <$> <[i := pack']> (packs d) = Pack.Name <$> packs d)
      as HNames by by apply (fmap_insert_same _ _ _ pack).
    split; unfold stickerIDsOf, packNamesOf, membersUnique, bidirectional;
      simpl; rewrite ?HNames; try done.
    + intros p [->|(j&_&Hj)]%elem_of_insert_inv.
      * simpl. apply NoDup_filter. by apply Huniq.
      * apply Huniq. by eapply lookup_elem_of.
    + intros p x [->|(j&Hne&Hj)]%elem_of_insert_inv.
      * simpl. intros [Hn Hx]%list_elem_of_filter.
        destruct (Hmem pack x Hpack Hx) as [?|[-> _]]; [by left|done].
      * intros Hx. pose proof (lookup_elem_of _ _ _ Hj) as Hp.
        destruct (Hmem p x Hp Hx) as [?|[-> [Heq|?]%elem_of_cons]];
          [by left| |by right].
        destruct (names_distinct _ _ _ _ _ Hnames Hi Hj Hne). congruence.
    + intros p s [->|(j&Hne&Hj)]%elem_of_insert_inv Hs.
      * simpl. rewrite list_elem_of_filter.
        rewrite <- (Hboth pack s Hpack Hs). split; [tauto|].
        intros Hin. split; [|done]. intros Heq. apply Hgone.
        apply list_elem_of_fmap. exists s. done.
      * apply Hboth; [|done]. by eapply lookup_elem_of.
  - apply findPack_None in E. split; try done.
    intros p x Hp Hx.
    destruct (Hmem p x Hp Hx) as [?|[-> [Heq|?]%elem_of_cons]];
      [by left| |by right].
    destruct E. apply list_elem_of_fmap. exists p. done.
Qed.

Lemma forEach_consistentBut id names d :
  consistentBut id names d →
  consistent
    (forEach names (λ packName, warnOnly (RemoveFromPack packName [id])) d).2.
Proof.
  revert d. induction names as [|name names IH]; intros d Hd.
  - simpl. by eapply consistentBut_nil.
  - simpl. unfold bind, warnOnly.
    pose proof (RemoveFromPack_consistentBut id name names d Hd) as H1.
    destruct (RemoveFromPack name [id] d) as [r d1]. simpl in *.
    by apply IH.
Qed.

Lemma DeleteSticker_consistent id d :
  consistent d → consistent (DeleteSticker id d).2.
Proof.
  intros Hd. unfold DeleteSticker. run.
  destruct (findSticker _ _) as [[i sticker]|] eqn:E; [|done]. run.
  apply findSticker_Some in E as [Hi <-].
  by apply forEach_consistentBut, delete_consistentBut.
Qed.

(** Every call but an [AddSticker] that changes the pack list of a stored
    sticker keeps the data directory consistent; so does publishing. *)
Lemma runCall_consistent call d :
  consistent d → keepsPackList call d → consistent (runCall call d).2.
Proof.
  intros Hd Hkeep. destruct call; simpl.
  - by apply AddSticker_consistent.
  - unfold UpdateAltText. run.
    destruct (findSticker _ _) as [[i s]|] eqn:E; [|done]. simpl.
    apply findSticker_Some in E as [Hi _].
    by apply (consistent_sticker_update d i s).
  - unfold SetStickerUsage. run.
    destruct (findSticker _ _) as [[i s]|] eqn:E; [|done]. simpl.
    apply findSticker_Some in E as [Hi _].
    by apply (consistent_sticker_update d i s).
  - unfold SetStickerName. run.
    destruct (findSticker _ _) as [[i s]|] eqn:E; [|done]. simpl.
    apply findSticker_Some in E as [Hi _].
    by apply (consistent_sticker_update d i s).
  - by apply DeleteSticker_consistent.
  - by apply CreatePack_consistent.
  - by apply AddToPack_consistent.
  - by apply RemoveFromPack_consistent.
  - unfold SetPackAvatar. run.
    destruct (findPack _ _) as [[i p]|] eqn:E; [|done]. simpl.
    apply findPack_Some in E as [Hi _].
    by apply (consistent_pack_update d i p).
  - unfold SetPackUsage. run.
    destruct (findPack _ _) as [[i p]|] eqn:E; [|done]. simpl.
    apply findPack_Some in E as [Hi _].
    by apply (consistent_pack_update d i p).
Qed.

Lemma PublishPack_consistent c packName roomID w :
  consistent (dataDir w) →
  consistent (dataDir (PublishPack c packName roomID w).2).
Proof.
  intros Hw. rewrite PublishPack_run.
  destruct (findPack _ _) as [[i pack]|] eqn:E; [|done].
  destruct (packContentOf _ _) as [content|]; [|done]. simpl.
  destruct (SendStateEventResult c _); [|done]. simpl.
  apply findPack_Some in E as [Hi _].
  by apply (consistent_pack_update (dataDir w) i pack).
Qed.

(** The workflow itself keeps consistency when the image is new. *)
Lemma collectSticker_new_consistent `{!Unicode} c roomID eventID mxcURI body
    d :
  consistent d →
  (∀ imageData, DownloadBytes c mxcURI = Ok imageData →
                HashImage c imageData ∉ stickerIDsOf d) →
  consistent (collectSticker c roomID eventID mxcURI body d).2.
Proof.
  intros Hd Hnew.
  destruct (collectSticker_run c roomID eventID mxcURI body d)
    as [[msg ->]|(data&info&mxc&alt&Hdl&_&->)]; [done|].
  apply AddSticker_consistent; [done|]. simpl.
  apply Hnew, findSticker_None in Hdl. by rewrite Hdl.
Qed.

(** ** Further properties of the code *)

(** *** The collection store, call by call *)

Lemma GetSticker_run id d :
  GetSticker id d =
  (match findSticker id (collection d) with
   | Some (_, sticker) => Ok sticker
   | None => Err ("sticker not found: " +:+ id)
   end, d).
Proof.
  unfold GetSticker. run. by destruct (findSticker _ _) as [[??]|].
Qed.

Lemma GetPack_run name d :
  GetPack name d =
  (match findPack name (packs d) with
   | Some (_, pack) => Ok pack
   | None => Err ("pack not found: " +:+ name)
   end, d).
Proof.
  unfold GetPack. run. by destruct (findPack _ _) as [[??]|].
Qed.

Lemma findSticker_insert id l i old sticker :
  findSticker id l = Some (i, old) →
  Sticker.ID sticker = id →
  findSticker id (<[i := sticker]> l) = Some (i, sticker).
Proof.
  unfold findSticker. intros H Hid.
  apply list_find_Some in H as (Hi&_&Hbefore).
  apply list_find_Some. split; [|split; [done|]].
  - apply list_lookup_insert_eq. by eapply lookup_lt_Some.
  - intros j y Hj Hlt. rewrite list_lookup_insert_ne in Hj by lia. eauto.
Qed.

Lemma findSticker_insert_other id l i old sticker :
  l !! i = Some old →
  Sticker.ID old ≠ id → Sticker.ID sticker ≠ id →
  findSticker id (<[i := sticker]> l) = findSticker id l.
Proof.
  unfold findSticker. revert i.
  induction l as [|x l IH]; intros [|i] Hi Hold Hnew; simpl in *; try done.
  - injection Hi as ->. by rewrite !decide_False by done.
  - case_decide; [done|]. by rewrite (IH i).
Qed.

Lemma findSticker_snoc_other id l sticker :
  Sticker.ID sticker ≠ id →
  findSticker id (l ++ [sticker]) = findSticker id l.
Proof.
  unfold findSticker. intros Hne.
  induction l as [|x l IH]; simpl.
  - by rewrite decide_False by done.
  - case_decide; [done|]. by rewrite IH.
Qed.

Lemma findSticker_snoc_new id l sticker :
  findSticker id l = None → Sticker.ID sticker = id →
  findSticker id (l ++ [sticker]) = Some (length l, sticker).
Proof.
  unfold findSticker. intros Hnone Hid.
  rewrite list_find_app_r by done. simpl.
  by rewrite decide_True by done.
Qed.

(** X1. What [AddSticker] has stored, [GetSticker] returns: after
    [AddSticker sticker], whether it added or updated, [GetSticker] of the
    sticker's id succeeds with exactly that record. *)
Theorem AddSticker_GetSticker sticker d :
  GetSticker (Sticker.ID sticker) (AddSticker sticker d).2
  = (Ok sticker, (AddSticker sticker d).2).
Proof.
  rewrite AddSticker_run, GetSticker_run. simpl.
  destruct (findSticker _ (collection d)) as [[i old]|] eqn:E.
  - by rewrite (findSticker_insert _ _ _ old).
  - by rewrite findSticker_snoc_new.
Qed.

(** X2. [AddSticker] leaves every other sticker as it was: for an id other
    than the added one, [GetSticker] answers after the call what it
    answered before, and the packs are untouched. A new id makes the
    collection one longer, with the new record last. *)
Theorem AddSticker_frame sticker d :
  (∀ id, id ≠ Sticker.ID sticker →
         (GetSticker id (AddSticker sticker d).2).1 = (GetSticker id d).1)
  ∧ packs (AddSticker sticker d).2 = packs d
  ∧ (Sticker.ID sticker ∉ stickerIDsOf d →
     collection (AddSticker sticker d).2 = collection d ++ [sticker]).
Proof.
  rewrite AddSticker_run. simpl. split; [|split; [done|]].
  - intros id Hne. rewrite !GetSticker_run. simpl.
    destruct (findSticker _ (collection d)) as [[i old]|] eqn:E.
    + apply findSticker_Some in E as [Hi Hid].
      rewrite (findSticker_insert_other id _ _ old); [done|done|congruence|].
      congruence.
    + rewrite findSticker_snoc_other; [done|congruence].
  - intros Hnew%findSticker_None. by rewrite Hnew.
Qed.

(** The three functions that set one field of a stored sticker. *)
Lemma setField_effect (f : Sticker.t → Sticker.t) id d :
  (∀ s, Sticker.ID (f s) = Sticker.ID s) →
  let call : M DataDir () :=
    λ d, match findSticker id (collection d) with
         | Some (i, sticker) =>
             (Ok (), {| collection := <[i := f sticker]> (collection d);
                        packs := packs d |})
         | None => (Err ("sticker not found: " +:+ id), d)
         end in
  match (GetSticker id d).1 with
  | Err _ => call d = (Err ("sticker not found: " +:+ id), d)
  | Ok sticker =>
      (call d).1 = Ok ()
      ∧ (GetSticker id (call d).2).1 = Ok (f sticker)
      ∧ packs (call d).2 = packs d
      ∧ length (collection (call d).2) = length (collection d)
      ∧ ∀ id', id' ≠ id →
               (GetSticker id' (call d).2).1 = (GetSticker id' d).1
  end.
Proof.
  intros Hf call. subst call. rewrite GetSticker_run. simpl.
  destruct (findSticker id (collection d)) as [[i s]|] eqn:E; [|done].
  simpl. pose proof (findSticker_Some _ _ _ _ E) as [Hi Hid].
  split; [done|]. rewrite GetSticker_run. simpl.
  rewrite (findSticker_insert _ _ _ s) by (by rewrite ?Hf). simpl.
  split; [done|]. split; [done|]. split; [by rewrite length_insert|].
  intros id' Hne. rewrite !GetSticker_run. simpl.
  rewrite (findSticker_insert_other id' _ _ s); rewrite ?Hf; congruence.
Qed.

(** X3. [UpdateAltText] fails with "sticker not found" and writes nothing
    when the id is unknown; otherwise the stored sticker gets the new
    caption and nothing else changes: its other fields, the other stickers,
    the number of stickers, the packs. *)
Theorem UpdateAltText_effect id altText d :
  match (GetSticker id d).1 with
  | Err _ =>
      UpdateAltText id altText d = (Err ("sticker not found: " +:+ id), d)
  | Ok sticker =>
      (UpdateAltText id altText d).1 = Ok ()
      ∧ (GetSticker id (UpdateAltText id altText d).2).1
        = Ok (Sticker.withGeneratedAltText altText sticker)
      ∧ packs (UpdateAltText id altText d).2 = packs d
      ∧ length (collection (UpdateAltText id altText d).2)
        = length (collection d)
      ∧ ∀ id', id' ≠ id →
               (GetSticker id' (UpdateAltText id altText d).2).1
               = (GetSticker id' d).1
  end.
Proof.
  pose proof (setField_effect (Sticker.withGeneratedAltText altText) id d
                (λ _, eq_refl)) as H.
  assert (UpdateAltText id altText d
          = match findSticker id (collection d) with
            | Some (i, sticker) =>
                (Ok (),
                 {| collection :=
                      <[i := Sticker.withGeneratedAltText altText sticker]>
                        (collection d);
                    packs := packs d |})
            | None => (Err ("sticker not found: " +:+ id), d)
            end) as ->; [|exact H].
  unfold UpdateAltText. run. by destruct (findSticker _ _) as [[??]|].
Qed.

(** X4. [SetStickerUsage] and [SetStickerName] behave alike: an unknown id
    is an error and nothing is written; for a known id the override (the
    shortcode) is replaced, an empty usage clearing the override, and the
    rest of the sticker, the other stickers and the packs stay as they
    were. In particular neither call touches the sticker's pack list. *)
Theorem SetStickerUsage_SetStickerName_effect id usage name d :
  match (GetSticker id d).1 with
  | Err _ =>
      SetStickerUsage id usage d = (Err ("sticker not found: " +:+ id), d)
      ∧ SetStickerName id name d = (Err ("sticker not found: " +:+ id), d)
  | Ok sticker =>
      ((SetStickerUsage id usage d).1 = Ok ()
       ∧ (GetSticker id (SetStickerUsage id usage d).2).1
         = Ok (Sticker.withUsage usage sticker)
       ∧ packs (SetStickerUsage id usage d).2 = packs d
       ∧ length (collection (SetStickerUsage id usage d).2)
         = length (collection d)
       ∧ ∀ id', id' ≠ id →
                (GetSticker id' (SetStickerUsage id usage d).2).1
                = (GetSticker id' d).1)
      ∧ ((SetStickerName id name d).1 = Ok ()
         ∧ (GetSticker id (SetStickerName id name d).2).1
           = Ok (Sticker.withName name sticker)
         ∧ packs (SetStickerName id name d).2 = packs d
         ∧ length (collection (SetStickerName id name d).2)
           = length (collection d)
         ∧ ∀ id', id' ≠ id →
                  (GetSticker id' (SetStickerName id name d).2).1
                  = (GetSticker id' d).1)
  end.
Proof.
  pose proof (setField_effect (Sticker.withUsage usage) id d (λ _, eq_refl))
    as Hu.
  pose proof (setField_effect (Sticker.withName name) id d (λ _, eq_refl))
    as Hn.
  assert (SetStickerUsage id usage d
          = match findSticker id (collection d) with
            | Some (i, sticker) =>
                (Ok (),
                 {| collection :=
                      <[i := Sticker.withUsage usage sticker]> (collection d);
                    packs := packs d |})
            | None => (Err ("sticker not found: " +:+ id), d)
            end) as ->.
  { unfold SetStickerUsage. run. by destruct (findSticker _ _) as [[??]|]. }
  assert (SetStickerName id name d
          = match findSticker id (collection d) with
            | Some (i, sticker) =>
                (Ok (),
                 {| collection :=
                      <[i := Sticker.withName name sticker]> (collection d);
                    packs := packs d |})
            | None => (Err ("sticker not found: " +:+ id), d)
            end) as ->.
  { unfold SetStickerName. run. by destruct (findSticker _ _) as [[??]|]. }
  simpl in Hu, Hn. destruct (GetSticker id d).1; done.
Qed.

Lemma findSticker_delete_other id l i old :
  l !! i = Some old → Sticker.ID old ≠ id →
  snd <$> findSticker id (delete i l) = snd <$> findSticker id l.
Proof.
  unfold findSticker. revert i.
  induction l as [|x l IH]; intros [|i] Hi Hold; simpl in *; try done.
  - injection Hi as ->. rewrite decide_False by done.
    rewrite <- option_fmap_compose.
    by destruct (list_find _ l) as [[??]|].
  - case_decide; [done|]. rewrite <- !option_fmap_compose.
    specialize (IH i Hi Hold).
    destruct (list_find _ (delete i l)) as [[??]|],
             (list_find _ l) as [[??]|]; simpl in *; congruence.
Qed.

Lemma forEach_warnOnly_Ok {S A} (l : list A) (body : A → M S ()) s :
  (forEach l (λ x, warnOnly (body x)) s).1 = Ok ().
Proof.
  revert s. induction l as [|x l IH]; intros s; simpl; [done|].
  unfold bind, warnOnly. destruct (body x s) as [r s']. apply IH.
Qed.

Lemma RemoveFromPack_gone id name d :
  id ∉ stickerIDsOf d →
  collection (RemoveFromPack name [id] d).2 = collection d
  ∧ packNamesOf (RemoveFromPack name [id] d).2 = packNamesOf d.
Proof.
  intros Hgone. rewrite RemoveFromPack_run.
  destruct (findPack _ _) as [[i pack]|] eqn:E; [|done]. simpl.
  apply findPack_Some in E as [Hi _]. split.
  - rewrite <- (list_fmap_id (collection d)) at 2.
    apply list_fmap_ext. intros j s Hj.
    change (unmarkInPack name [id] s = s). apply unmarkInPack_other.
    intros Heq%list_elem_of_singleton. apply Hgone.
    apply list_elem_of_fmap. exists s. split; [done|].
    by eapply lookup_elem_of.
  - by apply (fmap_insert_same _ _ _ pack).
Qed.

Lemma forEach_RemoveFromPack_gone id names d :
  id ∉ stickerIDsOf d →
  collection
    (forEach names (λ packName, warnOnly (RemoveFromPack packName [id])) d).2
  = collection d
  ∧ packNamesOf
      (forEach names (λ packName, warnOnly (RemoveFromPack packName [id]))
         d).2
    = packNamesOf d.
Proof.
  revert d. induction names as [|name names IH]; intros d Hgone; [done|].
  simpl. unfold bind, warnOnly.
  destruct (RemoveFromPack_gone id name d Hgone) as [Hc Hn].
  destruct (RemoveFromPack name [id] d) as [r d1]. simpl in *.
  destruct (IH d1) as [Hc1 Hn1].
  { unfold stickerIDsOf. by rewrite Hc. }
  split; [exact (eq_trans Hc1 Hc)|exact (eq_trans Hn1 Hn)].
Qed.

(** X5. [DeleteSticker] on a consistent data directory. An unknown id is
    an error and nothing is written. A known id goes from the collection
    and from every pack: the call succeeds, the directory is consistent
    again, [GetSticker] no longer finds the id, no pack lists it, there is
    one sticker less, the other stickers and the names of the packs are as
    before. *)
Theorem DeleteSticker_effect id d :
  consistent d →
  match (GetSticker id d).1 with
  | Err _ => DeleteSticker id d = (Err ("sticker not found: " +:+ id), d)
  | Ok _ =>
      (DeleteSticker id d).1 = Ok ()
      ∧ consistent (DeleteSticker id d).2
      ∧ (GetSticker id (DeleteSticker id d).2).1
        = Err ("sticker not found: " +:+ id)
      ∧ (∀ pack, pack ∈ packs (DeleteSticker id d).2 →
                 id ∉ Pack.StickerIDs pack)
      ∧ S (length (collection (DeleteSticker id d).2))
        = length (collection d)
      ∧ (∀ id', id' ≠ id →
                (GetSticker id' (DeleteSticker id d).2).1
                = (GetSticker id' d).1)
      ∧ packNamesOf (DeleteSticker id d).2 = packNamesOf d
  end.
Proof.
  intros Hd. pose proof (DeleteSticker_consistent id d Hd) as Hd'.
  rewrite GetSticker_run. simpl. revert Hd'.
  unfold DeleteSticker. run.
  destruct (findSticker id (collection d)) as [[i sticker]|] eqn:E; [|done].
  run. intros Hd'.
  apply findSticker_Some in E as [Hi Hid].
  set (d1 := {| collection := delete i (collection d); packs := packs d |})
    in *.
  pose proof (delete_consistentBut d i sticker Hd Hi) as Hbut.
  fold d1 in Hbut. rewrite Hid in Hbut.
  pose proof (but_gone _ _ _ Hbut) as Hgone.
  destruct (forEach_RemoveFromPack_gone id (Sticker.InPacks sticker) d1 Hgone)
    as [Hc Hn].
  set (d2 := (forEach _ _ d1).2) in *.
  assert (id ∉ stickerIDsOf d2) as Hgone2.
  { unfold stickerIDsOf. by rewrite Hc. }
  split; [apply forEach_warnOnly_Ok|]. split; [done|].
  split.
  { rewrite GetSticker_run. simpl.
    by apply findSticker_None in Hgone2 as ->. }
  split.
  { intros pack Hpack Hin. apply Hgone2.
    by apply (consistent_members d2 Hd' pack). }
  split.
  { rewrite Hc. subst d1. simpl.
    rewrite length_delete by eauto.
    apply lookup_lt_Some in Hi. lia. }
  split; [|done].
  intros id' Hne. rewrite !GetSticker_run. simpl. rewrite Hc. subst d1. simpl.
  assert (Sticker.ID sticker ≠ id') as Hne' by congruence.
  pose proof (findSticker_delete_other id' _ _ _ Hi Hne') as Hfind.
  destruct (findSticker id' (delete i (collection d))) as [[??]|],
           (findSticker id' (collection d)) as [[??]|];
    simpl in *; congruence.
Qed.

Lemma DeleteSticker_effect_witness :
  consistent curated
  ∧ match (GetSticker pixelID curated).1 with
    | Err _ =>
        DeleteSticker pixelID curated
        = (Err ("sticker not found: " +:+ pixelID), curated)
    | Ok _ =>
        (DeleteSticker pixelID curated).1 = Ok ()
        ∧ consistent (DeleteSticker pixelID curated).2
        ∧ (GetSticker pixelID (DeleteSticker pixelID curated).2).1
          = Err ("sticker not found: " +:+ pixelID)
        ∧ (∀ pack, pack ∈ packs (DeleteSticker pixelID curated).2 →
                   pixelID ∉ Pack.StickerIDs pack)
        ∧ S (length (collection (DeleteSticker pixelID curated).2))
          = length (collection curated)
        ∧ (∀ id', id' ≠ pixelID →
                  (GetSticker id' (DeleteSticker pixelID curated).2).1
                  = (GetSticker id' curated).1)
        ∧ packNamesOf (DeleteSticker pixelID curated).2
          = packNamesOf curated
    end.
Proof.
  split; [exact curated_consistent|].
  exact (DeleteSticker_effect pixelID curated curated_consistent).
Defined.

(** *** The pack store, call by call *)

Lemma findPack_snoc_other name l pack :
  Pack.Name pack ≠ name → findPack name (l ++ [pack]) = findPack name l.
Proof.
  unfold findPack. intros Hne.
  induction l as [|x l IH]; simpl.
  - by rewrite decide_False by done.
  - case_decide; [done|]. by rewrite IH.
Qed.

Lemma findPack_snoc_new name l pack :
  findPack name l = None → Pack.Name pack = name →
  findPack name (l ++ [pack]) = Some (length l, pack).
Proof.
  unfold findPack. intros Hnone Hid.
  rewrite list_find_app_r by done. simpl.
  by rewrite decide_True by done.
Qed.

Lemma findPack_insert_other name l i old pack :
  l !! i = Some old →
  Pack.Name old ≠ name → Pack.Name pack ≠ name →
  findPack name (<[i := pack]> l) = findPack name l.
Proof.
  unfold findPack. revert i.
  induction l as [|x l IH]; intros [|i] Hi Hold Hnew; simpl in *; try done.
  - injection Hi as ->. by rewrite !decide_False by done.
  - case_decide; [done|]. by rewrite (IH i).
Qed.

(** X6. [CreatePackWithAttribution]. A name already taken is an error,
    "pack already exists", and nothing is written. A free name gives a pack
    that [GetPack] returns: that name, display name and attribution, no
    avatar, no member, an empty publish ledger, no default usage; the
    collection and the other packs are as before. *)
Theorem CreatePack_effect name displayName attribution d :
  (name ∈ packNamesOf d →
   CreatePackWithAttribution name displayName attribution d
   = (Err ("pack already exists: " +:+ name), d))
  ∧ (name ∉ packNamesOf d →
     (CreatePackWithAttribution name displayName attribution d).1 = Ok ()
     ∧ (GetPack name
          (CreatePackWithAttribution name displayName attribution d).2).1
       = Ok (Pack.mk name displayName "" attribution [] ∅ [])
     ∧ collection (CreatePackWithAttribution name displayName attribution d).2
       = collection d
     ∧ ∀ other, other ≠ name →
         (GetPack other
            (CreatePackWithAttribution name displayName attribution d).2).1
         = (GetPack other d).1).
Proof.
  unfold CreatePackWithAttribution. run. split; intros Hname.
  - by rewrite bool_decide_eq_true_2.
  - rewrite bool_decide_eq_false_2 by done. simpl.
    split; [done|]. rewrite GetPack_run. simpl.
    apply findPack_None in Hname.
    rewrite findPack_snoc_new by done. split; [done|]. split; [done|].
    intros other Hne. rewrite !GetPack_run. simpl.
    by rewrite findPack_snoc_other.
Qed.

Lemma addMembers_prefix collection stickerIDs members members' :
  addMembers collection stickerIDs members = Ok members' →
  members `prefix_of` members'.
Proof.
  revert members.
  induction stickerIDs as [|y rest IH]; intros members; simpl.
  - by intros [= ->].
  - case_bool_decide; [|done]. intros Hrun%IH.
    case_bool_decide; [done|].
    etrans; [|exact Hrun]. by apply prefix_app_r.
Qed.

(** X7. [AddToPack] on an existing pack with ids that are all in the
    collection succeeds. The pack's member list keeps its old members in
    front, in their order, and now holds exactly the old members and the
    given ids, without repeats if there were none; every sticker with one
    of the ids lists the pack; ids and pack names are as before. *)
Theorem AddToPack_success packName stickerIDs d :
  packName ∈ packNamesOf d →
  Forall (λ id, id ∈ stickerIDsOf d) stickerIDs →
  ∃ pack pack',
    (AddToPack packName stickerIDs d).1 = Ok ()
    ∧ (GetPack packName d).1 = Ok pack
    ∧ (GetPack packName (AddToPack packName stickerIDs d).2).1 = Ok pack'
    ∧ Pack.StickerIDs pack `prefix_of` Pack.StickerIDs pack'
    ∧ (∀ id, id ∈ Pack.StickerIDs pack'
             ↔ id ∈ Pack.StickerIDs pack ∨ id ∈ stickerIDs)
    ∧ (NoDup (Pack.StickerIDs pack) → NoDup (Pack.StickerIDs pack'))
    ∧ (∀ sticker,
         sticker ∈ collection (AddToPack packName stickerIDs d).2 →
         Sticker.ID sticker ∈ stickerIDs →
         packName ∈ Sticker.InPacks sticker)
    ∧ stickerIDsOf (AddToPack packName stickerIDs d).2 = stickerIDsOf d
    ∧ packNamesOf (AddToPack packName stickerIDs d).2 = packNamesOf d.
Proof.
  intros (i&pack&E)%findPack_elem Hids.
  rewrite AddToPack_run, !GetPack_run, E. simpl.
  destruct (addMembers_Ok (collection d) stickerIDs (Pack.StickerIDs pack)
              Hids) as [members' Eadd].
  rewrite Eadd. simpl.
  pose proof (findPack_Some _ _ _ _ E) as [Hi Hname].
  rewrite (findPack_insert _ _ _ pack) by done.
  exists pack, (Pack.withStickerIDs members' pack). simpl.
  split; [done|]. split; [done|]. split; [done|].
  split; [by eapply addMembers_prefix|].
  split; [by eapply addMembers_elem|].
  split; [by eapply addMembers_NoDup|].
  split.
  { intros sticker' (s&->&Hs)%list_elem_of_fmap Hin.
    rewrite markInPack_ID in Hin. apply markInPack_InPacks. by right. }
  split; [apply markInPack_fmap_ID|].
  by apply (fmap_insert_same _ _ _ pack).
Qed.

Lemma AddToPack_success_witness :
  "favourites" ∈ packNamesOf collected
  ∧ Forall (λ id, id ∈ stickerIDsOf collected) [pixelID]
  ∧ ∃ pack pack',
      (AddToPack "favourites" [pixelID] collected).1 = Ok ()
      ∧ (GetPack "favourites" collected).1 = Ok pack
      ∧ (GetPack "favourites"
           (AddToPack "favourites" [pixelID] collected).2).1 = Ok pack'
      ∧ Pack.StickerIDs pack `prefix_of` Pack.StickerIDs pack'
      ∧ (∀ id, id ∈ Pack.StickerIDs pack'
               ↔ id ∈ Pack.StickerIDs pack ∨ id ∈ [pixelID])
      ∧ (NoDup (Pack.StickerIDs pack) → NoDup (Pack.StickerIDs pack'))
      ∧ (∀ sticker,
           sticker ∈ collection (AddToPack "favourites" [pixelID] collected).2
           → Sticker.ID sticker ∈ [pixelID] →
           "favourites" ∈ Sticker.InPacks sticker)
      ∧ stickerIDsOf (AddToPack "favourites" [pixelID] collected).2
        = stickerIDsOf collected
      ∧ packNamesOf (AddToPack "favourites" [pixelID] collected).2
        = packNamesOf collected.
Proof.
  assert ("favourites" ∈ packNamesOf collected) as H1 by by_evaluation.
  assert (Forall (λ id, id ∈ stickerIDsOf collected) [pixelID]) as H2.
  { apply Forall_singleton. by_evaluation. }
  split; [exact H1|]. split; [exact H2|].
  exact (AddToPack_success "favourites" [pixelID] collected H1 H2).
Defined.

Lemma removeMembers_filter stickerIDs members :
  removeMembers stickerIDs members
  = filter (λ id, id ∉ stickerIDs) members.
Proof.
  unfold removeMembers. revert members.
  induction stickerIDs as [|y rest IH]; intros members; simpl.
  - induction members as [|x l IHl]; [done|].
    rewrite filter_cons_True by apply not_elem_of_nil. by rewrite <- IHl.
  - rewrite IH, list_filter_filter. apply list_filter_iff.
    intros x. rewrite not_elem_of_cons. tauto.
Qed.

(** X8. [RemoveFromPack] fails only when the pack is absent, and then
    writes nothing. On an existing pack it succeeds for any ids, known or
    not: the member list becomes the old one without the given ids, the
    others keeping their order, and no sticker with one of the ids lists
    the pack any more. *)
Theorem RemoveFromPack_effect packName stickerIDs d :
  (packName ∉ packNamesOf d →
   RemoveFromPack packName stickerIDs d
   = (Err ("pack not found: " +:+ packName), d))
  ∧ (packName ∈ packNamesOf d →
     ∃ pack pack',
       (RemoveFromPack packName stickerIDs d).1 = Ok ()
       ∧ (GetPack packName d).1 = Ok pack
       ∧ (GetPack packName (RemoveFromPack packName stickerIDs d).2).1
         = Ok pack'
       ∧ Pack.StickerIDs pack'
         = filter (λ id, id ∉ stickerIDs) (Pack.StickerIDs pack)
       ∧ (∀ sticker,
            sticker ∈ collection (RemoveFromPack packName stickerIDs d).2 →
            Sticker.ID sticker ∈ stickerIDs →
            packName ∉ Sticker.InPacks sticker)
       ∧ stickerIDsOf (RemoveFromPack packName stickerIDs d).2
         = stickerIDsOf d
       ∧ packNamesOf (RemoveFromPack packName stickerIDs d).2
         = packNamesOf d).
Proof.
  rewrite RemoveFromPack_run. split.
  - intros Hname%findPack_None. by rewrite Hname.
  - intros (i&pack&E)%findPack_elem. rewrite !GetPack_run, E. simpl.
    pose proof (findPack_Some _ _ _ _ E) as [Hi Hname].
    rewrite (findPack_insert _ _ _ pack) by done.
    eexists pack, _. split; [done|]. split; [done|]. split; [done|]. simpl.
    split; [apply removeMembers_filter|]. split.
    { intros sticker' (s&->&Hs)%list_elem_of_fmap Hin.
      rewrite unmarkInPack_ID in Hin. rewrite unmarkInPack_InPacks. tauto. }
    split.
    { unfold stickerIDsOf. simpl. rewrite <- list_fmap_compose.
      apply list_fmap_ext. intros ? ? _. apply unmarkInPack_ID. }
    by apply (fmap_insert_same _ _ _ pack).
Qed.

Lemma filter_all {A} (P : A → Prop) `{!∀ x, Decision (P x)} (l : list A) :
  (∀ x, x ∈ l → P x) → filter P l = l.
Proof.
  induction l as [|x l IH]; intros Hall; [done|].
  rewrite filter_cons_True by (apply Hall; left).
  f_equal. apply IH. intros y Hy. apply Hall. by right.
Qed.

Lemma Pack_withStickerIDs_same pack :
  Pack.withStickerIDs (Pack.StickerIDs pack) pack = pack.
Proof. by destruct pack. Qed.

Lemma Sticker_withInPacks_same sticker :
  Sticker.withInPacks (Sticker.InPacks sticker) sticker = sticker.
Proof. by destruct sticker. Qed.

Lemma dataDir_eta d : {| collection := collection d; packs := packs d |} = d.
Proof. by destruct d. Qed.

(** X9. Removing an id that is not a member of the pack changes nothing:
    on a consistent data directory, [RemoveFromPack] of such an id from an
    existing pack succeeds and leaves the directory exactly as it was. *)
Theorem RemoveFromPack_non_member packName id d :
  consistent d →
  packName ∈ packNamesOf d →
  (∀ pack, pack ∈ packs d → Pack.Name pack = packName →
           id ∉ Pack.StickerIDs pack) →
  RemoveFromPack packName [id] d = (Ok (), d).
Proof.
  intros Hd (i&pack&E)%findPack_elem Hnot.
  rewrite RemoveFromPack_run, E.
  apply findPack_Some in E as [Hi Hname].
  pose proof (lookup_elem_of _ _ _ Hi) as Hpack.
  specialize (Hnot pack Hpack Hname).
  f_equal. etrans; [|apply dataDir_eta]. f_equal.
  - rewrite <- (list_fmap_id (collection d)) at 2.
    apply list_fmap_ext. intros j s Hj.
    change (unmarkInPack packName [id] s = s).
    unfold unmarkInPack. simpl. case_bool_decide as Hid; [|done].
    rewrite filter_all; [apply Sticker_withInPacks_same|].
    intros x Hx Heq. subst x. apply Hnot. rewrite <- Hid.
    apply (consistent_both d Hd pack s Hpack); [|by rewrite Hname].
    by eapply lookup_elem_of.
  - simpl. rewrite filter_all by (intros x Hx Heq; by subst x).
    rewrite Pack_withStickerIDs_same. by apply list_insert_id.
Qed.

Lemma collected_consistent : consistent collected.
Proof.
  split.
  - apply NoDup_singleton.
  - apply NoDup_singleton.
  - intros pack ->%list_elem_of_singleton. apply NoDup_nil_2.
  - intros pack id ->%list_elem_of_singleton ?%not_elem_of_nil. done.
  - intros s name ->%list_elem_of_singleton ?%not_elem_of_nil. done.
  - intros pack s ->%list_elem_of_singleton ->%list_elem_of_singleton.
    simpl. split; by intros ?%not_elem_of_nil.
Qed.

Lemma collected_not_member :
  ∀ pack, pack ∈ packs collected → Pack.Name pack = "favourites" →
          pixelID ∉ Pack.StickerIDs pack.
Proof. intros pack ->%list_elem_of_singleton _. apply not_elem_of_nil. Qed.

Lemma RemoveFromPack_non_member_witness :
  consistent collected
  ∧ "favourites" ∈ packNamesOf collected
  ∧ (∀ pack, pack ∈ packs collected → Pack.Name pack = "favourites" →
             pixelID ∉ Pack.StickerIDs pack)
  ∧ RemoveFromPack "favourites" [pixelID] collected = (Ok (), collected).
Proof.
  assert ("favourites" ∈ packNamesOf collected) as H2 by by_evaluation.
  split; [exact collected_consistent|]. split; [exact H2|].
  split; [exact collected_not_member|].
  exact (RemoveFromPack_non_member "favourites" pixelID collected
           collected_consistent H2 collected_not_member).
Defined.

(** X10. [RemoveFromPack] undoes [AddToPack]: on a consistent data
    directory, adding a sticker of the collection to a pack it is not in
    and removing it again gives back the directory one started from, both
    calls succeeding. *)
Theorem AddToPack_then_RemoveFromPack packName id d :
  consistent d →
  packName ∈ packNamesOf d →
  id ∈ stickerIDsOf d →
  (∀ pack, pack ∈ packs d → Pack.Name pack = packName →
           id ∉ Pack.StickerIDs pack) →
  (AddToPack packName [id] ;;; RemoveFromPack packName [id]) d = (Ok (), d).
Proof.
  intros Hd (i&pack&E)%findPack_elem Hid Hnot.
  unfold bind. rewrite AddToPack_run, E. simpl.
  rewrite bool_decide_eq_true_2 by done.
  pose proof (findPack_Some _ _ _ _ E) as [Hi Hname].
  pose proof (lookup_elem_of _ _ _ Hi) as Hpack.
  specialize (Hnot pack Hpack Hname).
  rewrite bool_decide_eq_false_2 by done.
  rewrite RemoveFromPack_run. simpl.
  rewrite (findPack_insert _ _ _ pack) by done.
  f_equal. etrans; [|apply dataDir_eta]. f_equal.
  - rewrite <- list_fmap_compose.
    rewrite <- (list_fmap_id (collection d)) at 2.
    apply list_fmap_ext. intros j s Hj. simpl.
    change (unmarkInPack packName [id] (markInPack packName [id] s) = s).
    unfold unmarkInPack, markInPack. simpl.
    destruct (bool_decide (Sticker.ID s = id)) eqn:Hsid; [|by rewrite Hsid].
    apply bool_decide_eq_true in Hsid.
    assert (packName ∉ Sticker.InPacks s) as Hout.
    { intros Hin. apply Hnot. rewrite <- Hsid.
      apply (consistent_both d Hd pack s Hpack); [|by rewrite Hname].
      by eapply lookup_elem_of. }
    rewrite (bool_decide_eq_false_2 (packName ∈ Sticker.InPacks s)) by done.
    simpl. rewrite bool_decide_eq_true_2 by done. simpl.
    rewrite filter_app, filter_all by (intros x Hx Heq; by subst x).
    rewrite filter_cons_False, filter_nil, app_nil_r by (by intros []).
    by destruct s.
  - simpl. rewrite list_insert_insert_eq.
    rewrite filter_app, filter_all by (intros x Hx Heq; by subst x).
    rewrite filter_cons_False, filter_nil, app_nil_r by (by intros []).
    apply list_insert_id. rewrite Hi. by destruct pack.
Qed.

Lemma AddToPack_then_RemoveFromPack_witness :
  consistent collected
  ∧ "favourites" ∈ packNamesOf collected
  ∧ pixelID ∈ stickerIDsOf collected
  ∧ (∀ pack, pack ∈ packs collected → Pack.Name pack = "favourites" →
             pixelID ∉ Pack.StickerIDs pack)
  ∧ (AddToPack "favourites" [pixelID] ;;; RemoveFromPack "favourites" [pixelID])
      collected
    = (Ok (), collected).
Proof.
  assert ("favourites" ∈ packNamesOf collected) as H2 by by_evaluation.
  assert (pixelID ∈ stickerIDsOf collected) as H3 by by_evaluation.
  split; [exact collected_consistent|]. split; [exact H2|].
  split; [exact H3|]. split; [exact collected_not_member|].
  exact (AddToPack_then_RemoveFromPack "favourites" pixelID collected
           collected_consistent H2 H3 collected_not_member).
Defined.

Lemma emptyDir_consistent : consistent emptyDir.
Proof.
  split; try apply NoDup_nil_2.
  - by intros pack ?%not_elem_of_nil.
  - by intros pack id ?%not_elem_of_nil.
  - by intros s name ?%not_elem_of_nil.
  - by intros pack s ?%not_elem_of_nil.
Qed.

(** X11. Membership stays recorded on both sides along any sequence of
    storage calls in which no [AddSticker] changes the pack list of a
    stored sticker: started on a consistent data directory, and so on the
    empty one, such a sequence ends in a consistent directory, whatever the
    calls return. *)
Theorem storage_calls_keep_consistency calls d :
  consistent d → keepPackLists calls d → consistent (runCalls calls d).
Proof.
  revert d. induction calls as [|call calls IH]; intros d Hd Hkeep; [done|].
  destruct Hkeep as [Hcall Hrest]. simpl. apply IH; [|done].
  by apply runCall_consistent.
Qed.

Lemma storage_calls_keep_consistency_witness :
  consistent emptyDir
  ∧ keepPackLists
      [CallAddSticker freshPixel;
       CallCreatePack "favourites" "Favourites" "@stickerbook:example.org";
       CallAddToPack "favourites" [pixelID];
       CallSetStickerName pixelID "grey_dot";
       CallDeleteSticker pixelID] emptyDir
  ∧ consistent
      (runCalls
         [CallAddSticker freshPixel;
          CallCreatePack "favourites" "Favourites" "@stickerbook:example.org";
          CallAddToPack "favourites" [pixelID];
          CallSetStickerName pixelID "grey_dot";
          CallDeleteSticker pixelID] emptyDir).
Proof.
  assert (keepPackLists
      [CallAddSticker freshPixel;
       CallCreatePack "favourites" "Favourites" "@stickerbook:example.org";
       CallAddToPack "favourites" [pixelID];
       CallSetStickerName pixelID "grey_dot";
       CallDeleteSticker pixelID] emptyDir) as H
    by (vm_compute; repeat split).
  split; [exact emptyDir_consistent|]. split; [exact H|].
  exact (storage_calls_keep_consistency _ emptyDir emptyDir_consistent H).
Defined.

(** The three functions that set one field of a stored pack. *)
Lemma setPackField_effect (f : Pack.t → Pack.t) name d :
  (∀ p, Pack.Name (f p) = Pack.Name p) →
  let call : M DataDir () :=
    λ d, match findPack name (packs d) with
         | Some (i, pack) =>
             (Ok (), {| collection := collection d;
                        packs := <[i := f pack]> (packs d) |})
         | None => (Err ("pack not found: " +:+ name), d)
         end in
  match (GetPack name d).1 with
  | Err _ => call d = (Err ("pack not found: " +:+ name), d)
  | Ok pack =>
      (call d).1 = Ok ()
      ∧ (GetPack name (call d).2).1 = Ok (f pack)
      ∧ collection (call d).2 = collection d
      ∧ packNamesOf (call d).2 = packNamesOf d
      ∧ ∀ other, other ≠ name →
                 (GetPack other (call d).2).1 = (GetPack other d).1
  end.
Proof.
  intros Hf call. subst call. rewrite GetPack_run. simpl.
  destruct (findPack name (packs d)) as [[i p]|] eqn:E; [|done].
  simpl. pose proof (findPack_Some _ _ _ _ E) as [Hi Hid].
  split; [done|]. rewrite GetPack_run. simpl.
  rewrite (findPack_insert _ _ _ p) by (by rewrite ?Hf). simpl.
  split; [done|]. split; [done|].
  split; [by apply (fmap_insert_same _ _ _ p)|].
  intros other Hne. rewrite !GetPack_run. simpl.
  rewrite (findPack_insert_other other _ _ p); rewrite ?Hf; congruence.
Qed.

(** X12. [UpdatePublished] on an unknown pack is an error and writes
    nothing. On a known pack it records the state key for the room in the
    pack's ledger, replacing an earlier entry for that room and keeping the
    entries of the other rooms; what [GetPack] then returns differs from
    before in the ledger only, and the collection and the other packs are
    untouched. *)
Theorem UpdatePublished_effect packName roomID stateKey d :
  match (GetPack packName d).1 with
  | Err _ =>
      UpdatePublished packName roomID stateKey d
      = (Err ("pack not found: " +:+ packName), d)
  | Ok pack =>
      (UpdatePublished packName roomID stateKey d).1 = Ok ()
      ∧ (∃ pack',
           (GetPack packName (UpdatePublished packName roomID stateKey d).2).1
           = Ok pack'
           ∧ Pack.PublishedRooms pack' !! roomID = Some stateKey
           ∧ (∀ room, room ≠ roomID →
                      Pack.PublishedRooms pack' !! room
                      = Pack.PublishedRooms pack !! room)
           ∧ Pack.withPublishedRooms (Pack.PublishedRooms pack) pack' = pack)
      ∧ collection (UpdatePublished packName roomID stateKey d).2
        = collection d
      ∧ ∀ other, other ≠ packName →
          (GetPack other (UpdatePublished packName roomID stateKey d).2).1
          = (GetPack other d).1
  end.
Proof.
  pose proof (setPackField_effect
                (λ p, Pack.withPublishedRooms
                        (<[roomID := stateKey]> (Pack.PublishedRooms p)) p)
                packName d (λ _, eq_refl)) as H.
  assert (UpdatePublished packName roomID stateKey d
          = match findPack packName (packs d) with
            | Some (i, pack) =>
                (Ok (),
                 {| collection := collection d;
                    packs :=
                      <[i := Pack.withPublishedRooms
                               (<[roomID := stateKey]>
                                  (Pack.PublishedRooms pack)) pack]>
                        (packs d) |})
            | None => (Err ("pack not found: " +:+ packName), d)
            end) as ->.
  { unfold UpdatePublished. run. by destruct (findPack _ _) as [[??]|]. }
  simpl in H. destruct (GetPack packName d).1 as [pack|]; [|done].
  destruct H as (H1&H2&H3&_&H5).
  split; [done|]. split; [|done].
  eexists. split; [exact H2|]. simpl.
  split; [apply lookup_insert_eq|].
  split; [intros room Hne; by apply lookup_insert_ne|by destruct pack].
Qed.

(** X13. [SetPackAvatar] and [SetPackUsage]: an unknown pack is an error
    and nothing is written; on a known pack the avatar (the default usage)
    is replaced, and the members, the ledger, the collection and the other
    packs stay as they were. *)
Theorem SetPackAvatar_SetPackUsage_effect packName avatarURL usage d :
  match (GetPack packName d).1 with
  | Err _ =>
      SetPackAvatar packName avatarURL d
      = (Err ("pack not found: " +:+ packName), d)
      ∧ SetPackUsage packName usage d
        = (Err ("pack not found: " +:+ packName), d)
  | Ok pack =>
      ((SetPackAvatar packName avatarURL d).1 = Ok ()
       ∧ (GetPack packName (SetPackAvatar packName avatarURL d).2).1
         = Ok (Pack.withAvatarURL avatarURL pack)
       ∧ collection (SetPackAvatar packName avatarURL d).2 = collection d
       ∧ packNamesOf (SetPackAvatar packName avatarURL d).2 = packNamesOf d
       ∧ ∀ other, other ≠ packName →
           (GetPack other (SetPackAvatar packName avatarURL d).2).1
           = (GetPack other d).1)
      ∧ ((SetPackUsage packName usage d).1 = Ok ()
         ∧ (GetPack packName (SetPackUsage packName usage d).2).1
           = Ok (Pack.withUsage usage pack)
         ∧ collection (SetPackUsage packName usage d).2 = collection d
         ∧ packNamesOf (SetPackUsage packName usage d).2 = packNamesOf d
         ∧ ∀ other, other ≠ packName →
             (GetPack other (SetPackUsage packName usage d).2).1
             = (GetPack other d).1)
  end.
Proof.
  pose proof (setPackField_effect (Pack.withAvatarURL avatarURL) packName d
                (λ _, eq_refl)) as Ha.
  pose proof (setPackField_effect (Pack.withUsage usage) packName d
                (λ _, eq_refl)) as Hu.
  assert (SetPackAvatar packName avatarURL d
          = match findPack packName (packs d) with
            | Some (i, pack) =>
                (Ok (),
                 {| collection := collection d;
                    packs := <[i := Pack.withAvatarURL avatarURL pack]>
                               (packs d) |})
            | None => (Err ("pack not found: " +:+ packName), d)
            end) as ->.
  { unfold SetPackAvatar. run. by destruct (findPack _ _) as [[??]|]. }
  assert (SetPackUsage packName usage d
          = match findPack packName (packs d) with
            | Some (i, pack) =>
                (Ok (),
                 {| collection := collection d;
                    packs := <[i := Pack.withUsage usage pack]> (packs d) |})
            | None => (Err ("pack not found: " +:+ packName), d)
            end) as ->.
  { unfold SetPackUsage. run. by destruct (findPack _ _) as [[??]|]. }
  simpl in Ha, Hu. destruct (GetPack packName d).1; done.
Qed.

(** *** Usage and shortcodes *)

(** X14. What [ParseUsage] accepts, [FormatUsage] names and [ParseUsage]
    reads back: an accepted input gives no override, shown as "(not set)",
    or a usage that [FormatUsage] shows as "sticker", "emoticon" or "both"
    and that parsing this word gives again. *)
Theorem FormatUsage_ParseUsage `{!Unicode} input usage :
  ParseUsage input = Ok usage →
  (usage = [] ∧ FormatUsage usage = "(not set)")
  ∨ (FormatUsage usage ∈ ["sticker"; "emoticon"; "both"]
     ∧ ParseUsage (FormatUsage usage) = Ok usage).
Proof.
  unfold ParseUsage at 1.
  destruct (bool_decide (_ = "sticker")).
  { intros [= <-]. right. split; [by_evaluation|reflexivity]. }
  destruct (bool_decide (_ = "emoticon") || _).
  { intros [= <-]. right. split; [by_evaluation|reflexivity]. }
  destruct (bool_decide (_ = "both")).
  { intros [= <-]. right. split; [by_evaluation|reflexivity]. }
  destruct (bool_decide (_ = "reset")).
  { intros [= <-]. left. by split. }
  intros [=].
Qed.

Lemma FormatUsage_ParseUsage_witness :
  ParseUsage (H := asciiOnly) " Emoji " = Ok ["emoticon"]
  ∧ ((["emoticon"] = [] ∧ FormatUsage ["emoticon"] = "(not set)")
     ∨ (FormatUsage ["emoticon"] ∈ ["sticker"; "emoticon"; "both"]
        ∧ ParseUsage (H := asciiOnly) (FormatUsage ["emoticon"])
          = Ok ["emoticon"])).
Proof.
  split; [reflexivity|].
  exact (FormatUsage_ParseUsage (H := asciiOnly) " Emoji " ["emoticon"]
           eq_refl).
Defined.

Lemma allBytes_impl (f g : ascii → bool) s :
  (∀ c, f c = true → g c = true) →
  strings.allBytes f s = true → strings.allBytes g s = true.
Proof.
  intros Hfg. induction s as [|c s IH]; simpl; [done|].
  intros [Hc Hs]%andb_true_iff. by rewrite (Hfg c Hc), IH.
Qed.

Lemma isASCII_allBytes s :
  strings.isASCII s = strings.allBytes strings.isASCIIByte s.
Proof. induction s as [|c s IH]; simpl; [done|]. by rewrite IH. Qed.



(** *** Media and captions *)

Lemma formatToMimeType_image format :
  ∃ kind, formatToMimeType format = "image/" +:+ kind.
Proof.
  unfold formatToMimeType.
  repeat case_bool_decide; [by exists "png"|by exists "jpeg"|by exists "gif"
                            |by exists "webp"|by exists format].
Qed.

Lemma formatToMimeType_no_fallback format :
  bool_decide (formatToMimeType format = "")
  || bool_decide (formatToMimeType format = "application/octet-stream")
  = false.
Proof.
  destruct (formatToMimeType_image format) as [kind ->].
  change ("image/" +:+ kind) with (String "i" ("mage/" +:+ kind)).
  by rewrite !bool_decide_eq_false_2.
Qed.

Lemma findSticker_after_AddSticker sticker d :
  ∃ i, findSticker (Sticker.ID sticker) (collection (AddSticker sticker d).2)
       = Some (i, sticker).
Proof.
  rewrite AddSticker_run. simpl.
  destruct (findSticker _ (collection d)) as [[i old]|] eqn:E.
  - exists i. by apply (findSticker_insert _ _ _ old).
  - eexists. by apply findSticker_snoc_new.
Qed.

(** X16. A successful run of the collection workflow. Every collaborator
    has answered: the URI parsed, the bytes came, the image decoded, the
    caption was given, and the upload succeeded whenever the URI is on
    another homeserver than the bot's. The sticker is then in the
    collection under the hash of the bytes, with that hash as its name,
    the caption cleaned, no pack and no usage override; its address is the
    source URI itself when that is on the bot's homeserver, else the
    uploaded copy; its MIME type and dimensions are those of the decoded
    image, the type detected from the first bytes never being used. *)
Theorem collectSticker_success `{!Unicode} c roomID eventID mxcURI
    originalBody d d' :
  collectSticker c roomID eventID mxcURI originalBody d = (Ok (), d') →
  ∃ homeserver imageData w h format localMXC caption,
    ParseContentURI c mxcURI = Ok homeserver
    ∧ DownloadBytes c mxcURI = Ok imageData
    ∧ DecodeConfig c imageData = Ok (w, h, format)
    ∧ (if bool_decide (homeserver = Homeserver c) then localMXC = mxcURI
       else UploadBytes c imageData (formatToMimeType format) = Ok localMXC)
    ∧ GenerateAltText c imageData (formatToMimeType format) = Ok caption
    ∧ GetSticker (HashImage c imageData) d'
      = (Ok (Sticker.mk (HashImage c imageData) (HashImage c imageData)
               (Now c) roomID eventID mxcURI localMXC
               (formatToMimeType format) w h (Z.of_nat (length imageData))
               originalBody (cleanAltText caption) [] []),
         d')
    ∧ packs d' = packs d.
Proof.
  unfold collectSticker, DownloadMedia, GetImageInfo, UploadMedia. run.
  destruct (ParseContentURI c mxcURI) as [hs|?] eqn:Ehs; run; [|done].
  destruct (DownloadBytes c mxcURI) as [data|?] eqn:Edl; run; [|done].
  destruct (DecodeConfig c data) as [[[w h] format]|?] eqn:Edec; run; [|done].
  rewrite formatToMimeType_no_fallback.
  destruct (bool_decide (hs ≠ Homeserver c)) eqn:Ehome; run.
  - destruct (UploadBytes c data _) as [mxc|?] eqn:Eup; run; [|done].
    destruct (GenerateAltText c data _) as [alt|?] eqn:Ealt; run; [|done].
    match goal with |- context [AddSticker ?s d] =>
      destruct (findSticker_after_AddSticker s d) as [i Hget];
      rewrite (AddSticker_run s d) in Hget |- * end.
    simpl. intros [= <-].
    exists hs, data, w, h, format, mxc, alt.
    rewrite GetSticker_run. simpl in Hget |- *. rewrite Hget.
    apply bool_decide_eq_true in Ehome.
    rewrite bool_decide_eq_false_2 by done. done.
  - destruct (GenerateAltText c data _) as [alt|?] eqn:Ealt; run; [|done].
    match goal with |- context [AddSticker ?s d] =>
      destruct (findSticker_after_AddSticker s d) as [i Hget];
      rewrite (AddSticker_run s d) in Hget |- * end.
    simpl. intros [= <-].
    exists hs, data, w, h, format, mxcURI, alt.
    rewrite GetSticker_run. simpl in Hget |- *. rewrite Hget.
    apply bool_decide_eq_false in Ehome.
    rewrite bool_decide_eq_true_2 by (by apply dec_stable). done.
Qed.

Lemma collectSticker_success_witness :
  collectSticker (H := asciiOnly) pixelEnv "!room:matrix.org" "$event"
    "mxc://matrix.org/pixel" "pixel.png" emptyDir
  = (Ok (), {| collection := [freshPixel]; packs := [] |})
  ∧ ∃ homeserver imageData w h format localMXC caption,
      ParseContentURI pixelEnv "mxc://matrix.org/pixel" = Ok homeserver
      ∧ DownloadBytes pixelEnv "mxc://matrix.org/pixel" = Ok imageData
      ∧ DecodeConfig pixelEnv imageData = Ok (w, h, format)
      ∧ (if bool_decide (homeserver = Homeserver pixelEnv)
         then localMXC = "mxc://matrix.org/pixel"
         else UploadBytes pixelEnv imageData (formatToMimeType format)
              = Ok localMXC)
      ∧ GenerateAltText pixelEnv imageData (formatToMimeType format)
        = Ok caption
      ∧ GetSticker (HashImage pixelEnv imageData)
          {| collection := [freshPixel]; packs := [] |}
        = (Ok (Sticker.mk (HashImage pixelEnv imageData)
                 (HashImage pixelEnv imageData) (Now pixelEnv)
                 "!room:matrix.org" "$event" "mxc://matrix.org/pixel"
                 localMXC (formatToMimeType format) w h
                 (Z.of_nat (length imageData)) "pixel.png"
                 (cleanAltText (H := asciiOnly) caption) [] []),
           {| collection := [freshPixel]; packs := [] |})
      ∧ packs {| collection := [freshPixel]; packs := [] |} = packs emptyDir.
Proof.
  assert (collectSticker (H := asciiOnly) pixelEnv "!room:matrix.org" "$event"
            "mxc://matrix.org/pixel" "pixel.png" emptyDir
          = (Ok (), {| collection := [freshPixel]; packs := [] |})) as H
    by (vm_compute; reflexivity).
  split; [exact H|].
  exact (collectSticker_success (H := asciiOnly) pixelEnv "!room:matrix.org"
           "$event" "mxc://matrix.org/pixel" "pixel.png" emptyDir _ H).
Defined.

(** X17. A failed run of the collection workflow writes nothing: the data
    directory is the one before the run, also when the failure comes after
    the upload. A run that succeeds adds at most one sticker and leaves the
    packs alone. There is no outcome in which a sticker is stored without a
    caption having been given. *)
Theorem collectSticker_all_or_nothing `{!Unicode} c roomID eventID mxcURI
    originalBody d :
  (∀ msg, (collectSticker c roomID eventID mxcURI originalBody d).1 = Err msg
          → (collectSticker c roomID eventID mxcURI originalBody d).2 = d)
  ∧ length (collection d)
    ≤ length (collection
                (collectSticker c roomID eventID mxcURI originalBody d).2)
    ≤ S (length (collection d))
  ∧ packs (collectSticker c roomID eventID mxcURI originalBody d).2 = packs d
  ∧ ((∀ imageData mimeType,
        isOk (GenerateAltText c imageData mimeType) = false) →
     isOk (collectSticker c roomID eventID mxcURI originalBody d).1 = false
     ∧ (collectSticker c roomID eventID mxcURI originalBody d).2 = d).
Proof.
  destruct (collectSticker_run c roomID eventID mxcURI originalBody d)
    as [[msg ->]|(data&info&mxc&alt&_&Halt&->)]; simpl.
  - split; [done|]. split; [lia|]. done.
  - rewrite AddSticker_run. simpl. split; [done|]. split.
    + destruct (findSticker _ _) as [[i old]|].
      * rewrite length_insert. lia.
      * rewrite length_app. simpl. lia.
    + split; [done|]. intros Hno. specialize (Hno data (ImageInfo.MimeType info)).
      by rewrite Halt in Hno.
Qed.

Lemma byteAt_take data n i b :
  i < n → byteAt (take n data) i b = byteAt data i b.
Proof. intros Hi. unfold byteAt. by rewrite lookup_take_lt. Qed.

(** X18. [detectMimeType] looks at the first twelve bytes and at nothing
    else; data shorter than four bytes is never recognised, whatever it
    starts with; and what is returned is "application/octet-stream" or one
    of the four image types the captioning client accepts. *)
Theorem detectMimeType_signature data :
  detectMimeType data = detectMimeType (take 12 data)
  ∧ (length data < 4 → detectMimeType data = "application/octet-stream")
  ∧ (detectMimeType data = "application/octet-stream"
     ∨ llm.isImageMimeType (detectMimeType data) = true).
Proof.
  split; [|split].
  - unfold detectMimeType. rewrite !byteAt_take by lia.
    rewrite length_take.
    assert (bool_decide (12 `min` length data < 4)
            = bool_decide (length data < 4)) as ->
      by (apply bool_decide_ext; lia).
    assert (bool_decide (12 ≤ 12 `min` length data)
            = bool_decide (12 ≤ length data)) as ->
      by (apply bool_decide_ext; lia).
    done.
  - intros Hlen. unfold detectMimeType. by rewrite bool_decide_eq_true_2.
  - unfold detectMimeType.
    repeat match goal with
           | |- context [if ?b then _ else _] => destruct b
           end; auto.
Qed.

(** X19. The captioning client checks before it asks. Empty image data
    and a MIME type other than PNG, JPEG, GIF or WebP are refused with
    their own errors, whatever the service would answer; a caption is
    returned only if the data is not empty, the type is one of the four
    and the service answered with a text block first, whose text is the
    caption. Of the types [GetImageInfo] can produce, the four accepted
    ones are those of the formats png, jpeg, gif and webp. *)
Theorem llm_GenerateAltText_guard c imageData mimeType :
  (imageData = [] →
   llm.GenerateAltText c imageData mimeType = Err "image data is empty")
  ∧ (imageData ≠ [] →
     mimeType ∉ ["image/png"; "image/jpeg"; "image/gif"; "image/webp"] →
     llm.GenerateAltText c imageData mimeType
     = Err ("invalid MIME type for image: " +:+ mimeType))
  ∧ (∀ text,
       llm.GenerateAltText c imageData mimeType = Ok text →
       imageData ≠ []
       ∧ mimeType ∈ ["image/png"; "image/jpeg"; "image/gif"; "image/webp"]
       ∧ ∃ rest,
           llm.MessagesNew c mimeType (llm.EncodeToString c imageData)
           = Ok ({| llm.BlockType := "text"; llm.Text := text |} :: rest))
  ∧ (∀ format,
       llm.isImageMimeType (formatToMimeType format) = true
       ↔ format ∈ ["png"; "jpeg"; "gif"; "webp"]).
Proof.
  unfold llm.GenerateAltText, llm.isImageMimeType.
  split; [by intros ->|]. split.
  { intros Hne Hmime. destruct imageData; [done|]. simpl.
    by rewrite bool_decide_eq_false_2. }
  split.
  { intros text. destruct imageData as [|b data]; [done|]. simpl.
    case_bool_decide as Hmime; [|done]. simpl.
    destruct (llm.MessagesNew c mimeType _) as [[|block rest]|]; try done.
    case_bool_decide as Htype; [done|]. intros [= <-].
    split; [done|]. split; [done|]. exists rest.
    destruct block. simpl in *. by subst. }
  intros format. rewrite bool_decide_eq_true. unfold formatToMimeType.
  repeat case_bool_decide; subst;
    try (split; intros _; by_evaluation).
  change (?a ∈ [?x1; ?x2; ?x3; ?x4])
    with (a ∈ [x1; x2; x3; x4]).
  rewrite !elem_of_cons, !elem_of_nil.
  split.
  - intros [Heq|[Heq|[Heq|[Heq|[]]]]];
      apply (inj (String.app "image/")) in Heq; by subst.
  - intros [?|[?|[?|[?|[]]]]]; by subst.
Qed.

Lemma allBytes_app f s t :
  strings.allBytes f (s +:+ t) = strings.allBytes f s && strings.allBytes f t.
Proof.
  induction s as [|c s IH]; [done|].
  rewrite append_cons. simpl. by rewrite IH, andb_assoc.
Qed.

Lemma allBytes_mapBytes f g s :
  strings.allBytes f (strings.mapBytes g s) = strings.allBytes (f ∘ g) s.
Proof. induction s as [|c s IH]; simpl; [done|]. by rewrite IH. Qed.

Lemma allBytes_drop f n s :
  strings.allBytes f s = true → strings.allBytes f (strings.drop n s) = true.
Proof.
  revert s. induction n as [|n IH]; intros [|c s]; simpl; try done.
  intros [_ Hs]%andb_true_iff. by apply IH.
Qed.

Lemma allBytes_replaceFrom f fuel s old new :
  strings.allBytes f s = true → strings.allBytes f new = true →
  strings.allBytes f (strings.replaceFrom fuel s old new) = true.
Proof.
  intros Hs Hnew. revert s Hs.
  induction fuel as [|fuel IH]; intros s Hs; simpl; [done|].
  destruct s as [|c s]; [done|].
  destruct (strings.HasPrefix _ _).
  - rewrite allBytes_app, Hnew. simpl. apply IH. by apply allBytes_drop.
  - simpl in *. apply andb_true_iff in Hs as [-> Hs]. simpl. by apply IH.
Qed.

Lemma allBytes_trimLeft f s :
  strings.allBytes f s = true → strings.allBytes f (strings.trimLeft s) = true.
Proof.
  induction s as [|c s IH]; simpl; [done|].
  intros Hs. destruct (Ascii.is_space c); [|done].
  apply andb_true_iff in Hs as [_ Hs]. by apply IH.
Qed.

Lemma allBytes_rev f s :
  strings.allBytes f (String.rev s) = strings.allBytes f s.
Proof. unfold String.rev. rewrite allBytes_rev_app. simpl. apply andb_true_r. Qed.

Lemma allBytes_trimRight f s :
  strings.allBytes f s = true → strings.allBytes f (strings.trimRight s) = true.
Proof.
  intros Hs. unfold strings.trimRight.
  rewrite allBytes_rev. apply allBytes_trimLeft. by rewrite allBytes_rev.
Qed.

Lemma replaceFrom_absent fuel s a old new :
  strings.allBytes (λ c, bool_decide (c ≠ a)) s = true →
  strings.replaceFrom fuel s (String a old) new = s.
Proof.
  revert s. induction fuel as [|fuel IH]; intros s Hs; simpl; [done|].
  destruct s as [|c s]; [done|]. simpl in Hs.
  apply andb_true_iff in Hs as [Hc%bool_decide_eq_true Hs].
  rewrite (bool_decide_eq_false_2 (a = c)) by congruence. simpl.
  f_equal. by apply IH.
Qed.

Lemma mapBytes_id f s :
  strings.allBytes (λ c, bool_decide (f c = c)) s = true →
  strings.mapBytes f s = s.
Proof.
  induction s as [|c s IH]; simpl; [done|].
  intros [Hc%bool_decide_eq_true Hs]%andb_true_iff. by rewrite Hc, IH.
Qed.

Lemma trimLeft_startsClean s : startsClean (strings.trimLeft s) = true.
Proof.
  induction s as [|c s IH]; simpl; [done|].
  destruct (Ascii.is_space c) eqn:Hc; [done|]. simpl. by rewrite Hc.
Qed.

Lemma trimLeft_fixed s : startsClean s = true → strings.trimLeft s = s.
Proof.
  destruct s as [|c s]; simpl; [done|]. by destruct (Ascii.is_space c).
Qed.

Lemma append_assoc s t u : (s +:+ t) +:+ u = s +:+ (t +:+ u).
Proof.
  induction s as [|c s IH]; [done|]. by rewrite !append_cons, IH.
Qed.

Lemma rev_app_append s acc : String.rev_app s acc = String.rev s +:+ acc.
Proof.
  unfold String.rev. revert acc.
  induction s as [|c s IH]; intros acc; simpl; [done|].
  rewrite (IH (String c acc)), (IH (String c "")), append_assoc.
  by rewrite append_cons, append_nil_l.
Qed.

Lemma rev_app_snoc s c acc :
  String.rev_app (s +:+ String c "") acc = String c (String.rev_app s acc).
Proof.
  revert acc. induction s as [|a s IH]; intros acc.
  - by rewrite append_nil_l.
  - rewrite append_cons. simpl. apply IH.
Qed.

Lemma rev_snoc s c : String.rev (s +:+ String c "") = String c (String.rev s).
Proof. apply rev_app_snoc. Qed.

Lemma trimLeft_snoc x c :
  Ascii.is_space c = false →
  ∃ y, strings.trimLeft (x +:+ String c "") = y +:+ String c "".
Proof.
  intros Hc. induction x as [|a x IH].
  - exists "". rewrite !append_nil_l. simpl. by rewrite Hc.
  - rewrite append_cons. simpl. destruct (Ascii.is_space a); [done|].
    exists (String a x). by rewrite append_cons.
Qed.

Lemma trimRight_startsClean s :
  startsClean s = true → startsClean (strings.trimRight s) = true.
Proof.
  destruct s as [|c s]; [done|]. simpl. intros Hc%negb_true_iff.
  unfold strings.trimRight.
  assert (String.rev (String c s) = String.rev s +:+ String c "") as ->.
  { unfold String.rev at 1. simpl. apply rev_app_append. }
  destruct (trimLeft_snoc (String.rev s) c Hc) as [y ->].
  rewrite rev_snoc. simpl. by rewrite Hc.
Qed.

Lemma trim_twice s :
  strings.trimRight (strings.trimLeft (strings.trimRight (strings.trimLeft s)))
  = strings.trimRight (strings.trimLeft s).
Proof.
  rewrite (trimLeft_fixed (strings.trimRight _))
    by apply trimRight_startsClean, trimLeft_startsClean.
  unfold strings.trimRight at 1 2. rewrite rev_rev.
  by rewrite (trimLeft_fixed (strings.trimLeft _))
    by apply trimLeft_startsClean.
Qed.

Lemma lineBreaks_replaced s :
  oneLine
    (strings.mapBytes (λ c, if bool_decide (c = ascii_of_nat 13) then " "%char
                            else c)
       (strings.mapBytes (λ c, if bool_decide (c = ascii_of_nat 10)
                               then " "%char else c) s))
  = true.
Proof.
  unfold oneLine. rewrite !allBytes_mapBytes.
  induction s as [|c s IH]; simpl; [done|]. rewrite IH, andb_true_r.
  clear. destruct c as [[] [] [] [] [] [] [] []]; vm_compute; done.
Qed.

(** X20. Cleaning a caption. On ASCII text [cleanAltText] gives ASCII text
    on one line, without carriage return or line feed, that does not begin
    with white space and that cleaning leaves as it is: trimming it or
    cleaning it a second time changes nothing. *)
Theorem cleanAltText_clean `{!Unicode} altText :
  strings.isASCII altText = true →
  strings.isASCII (cleanAltText altText) = true
  ∧ oneLine (cleanAltText altText) = true
  ∧ startsClean (cleanAltText altText) = true
  ∧ strings.TrimSpace (cleanAltText altText) = cleanAltText altText
  ∧ cleanAltText (cleanAltText altText) = cleanAltText altText.
Proof.
  intros Hascii.
  assert (∀ s, strings.isASCII s = true →
               strings.TrimSpace s = strings.trimRight (strings.trimLeft s))
    as Htrim by (intros s Hs; unfold strings.TrimSpace; by rewrite Hs).
  unfold cleanAltText. unfold CR, LF.
  set (t0 := strings.ReplaceAll altText _ " ").
  rewrite !ReplaceAll_byte.
  set (t2 := strings.mapBytes _ (strings.mapBytes _ t0)).
  assert (strings.isASCII t0 = true) as H0.
  { subst t0. unfold strings.ReplaceAll. rewrite isASCII_allBytes in *.
    by apply allBytes_replaceFrom. }
  assert (strings.isASCII t2 = true) as H2.
  { subst t2. apply isASCII_mapBytes; [by intros c Hc; case_bool_decide|].
    apply isASCII_mapBytes; [by intros c Hc; case_bool_decide|done]. }
  assert (oneLine t2 = true) as Hline by apply lineBreaks_replaced.
  rewrite (Htrim t2 H2).
  set (t := strings.trimRight (strings.trimLeft t2)).
  assert (strings.isASCII t = true) as Ht.
  { subst t. rewrite isASCII_allBytes in *.
    by apply allBytes_trimRight, allBytes_trimLeft. }
  assert (oneLine t = true) as Htline
    by (by apply allBytes_trimRight, allBytes_trimLeft).
  assert (strings.trimRight (strings.trimLeft t) = t) as Htt
    by apply trim_twice.
  split; [done|]. split; [done|].
  split; [apply trimRight_startsClean, trimLeft_startsClean|].
  split; [by rewrite (Htrim t Ht)|].
  assert (strings.ReplaceAll t
            (String (ascii_of_nat 13) "" +:+ String (ascii_of_nat 10) "") " "
          = t) as ->.
  { apply (replaceFrom_absent _ t (ascii_of_nat 13)
             (String (ascii_of_nat 10) "") " "). eapply allBytes_impl; [|exact Htline].
    intros c. destruct c as [[] [] [] [] [] [] [] []]; vm_compute; done. }
  rewrite !mapBytes_id.
  - by rewrite (Htrim t Ht).
  - eapply allBytes_impl; [|exact Htline].
    intros c. destruct c as [[] [] [] [] [] [] [] []]; vm_compute; done.
  - rewrite mapBytes_id; eapply allBytes_impl; try exact Htline;
      intros c; destruct c as [[] [] [] [] [] [] [] []]; vm_compute; done.
Qed.

Lemma cleanAltText_clean_witness :
  strings.isASCII (" Two cats" +:+ CR +:+ LF +:+ "on a sofa" +:+ LF) = true
  ∧ cleanAltText (H := asciiOnly)
      (" Two cats" +:+ CR +:+ LF +:+ "on a sofa" +:+ LF)
    = "Two cats on a sofa"
  ∧ strings.TrimSpace (H := asciiOnly) "Two cats on a sofa"
    = "Two cats on a sofa"
  ∧ cleanAltText (H := asciiOnly) "Two cats on a sofa" = "Two cats on a sofa".
Proof.
  assert (strings.isASCII (" Two cats" +:+ CR +:+ LF +:+ "on a sofa" +:+ LF)
          = true) as H by reflexivity.
  assert (cleanAltText (H := asciiOnly)
            (" Two cats" +:+ CR +:+ LF +:+ "on a sofa" +:+ LF)
          = "Two cats on a sofa") as E by (vm_compute; reflexivity).
  split; [exact H|]. split; [exact E|].
  pose proof (cleanAltText_clean (H := asciiOnly) _ H) as (_&_&_&H4&H5).
  rewrite E in H4, H5. split; [exact H4|exact H5].
Defined.

(** *** Publishing, case by case *)

Lemma buildImages_total collection stickerIDs images0 :
  (∀ id, id ∈ stickerIDs → id ∈ Sticker.ID <$> collection) →
  ∃ images, buildImages collection stickerIDs images0 = Ok images.
Proof.
  revert images0.
  induction stickerIDs as [|x rest IH]; intros images0 Hall; simpl; [eauto|].
  destruct (findSticker_elem x collection) as (i&sticker&->).
  { apply Hall. by left. }
  apply IH. intros id Hid. apply Hall. by right.
Qed.

Lemma buildImages_missing collection stickerIDs images0 :
  (∃ id, id ∈ stickerIDs ∧ id ∉ Sticker.ID <$> collection) →
  ∃ id, id ∈ stickerIDs ∧ (id ∉ Sticker.ID <$> collection)
        ∧ buildImages collection stickerIDs images0
          = Err ("sticker not found in collection: " +:+ id).
Proof.
  revert images0.
  induction stickerIDs as [|x rest IH]; intros images0 (id&Hin&Hmiss).
  - by apply not_elem_of_nil in Hin.
  - simpl. destruct (findSticker x collection) as [[i s]|] eqn:E.
    + apply elem_of_cons in Hin as [->|Hin].
      { apply findSticker_Some in E as [Hi <-]. destruct Hmiss.
        apply list_elem_of_fmap. exists s. split; [done|].
        by eapply lookup_elem_of. }
      destruct (IH (<[shortcodeOf x s := stickerData s]> images0))
        as (id'&?&?&->); [eauto|].
      exists id'. split; [by right|]. done.
    + apply findSticker_None in E. exists x. split; [by left|]. done.
Qed.

(** X21. On a consistent data directory publishing an existing pack always
    gets as far as the homeserver: every member is found, one event is
    handed over, under the pack's name and with the content built from the
    directory, and the call succeeds exactly when the homeserver accepts
    it; when it refuses, the error is the send failure and the directory is
    not written. *)
Theorem PublishPack_on_consistent c packName roomID w :
  consistent (dataDir w) →
  packName ∈ packNamesOf (dataDir w) →
  ∃ pack content,
    (GetPack packName (dataDir w)).1 = Ok pack
    ∧ packContentOf (collection (dataDir w)) pack = Ok content
    ∧ delivered (PublishPack c packName roomID w).2
      = delivered w ++ [packEvent roomID packName content]
    ∧ match SendStateEventResult c (packEvent roomID packName content) with
      | Ok _ => (PublishPack c packName roomID w).1 = Ok ()
      | Err msg =>
          (PublishPack c packName roomID w).1
          = Err ("failed to send state event: " +:+ msg)
          ∧ dataDir (PublishPack c packName roomID w).2 = dataDir w
      end.
Proof.
  intros Hw (i&pack&E)%findPack_elem.
  pose proof (findPack_Some _ _ _ _ E) as [Hi _].
  pose proof (lookup_elem_of _ _ _ Hi) as Hpack.
  destruct (buildImages_total (collection (dataDir w)) (Pack.StickerIDs pack)
              ∅) as [images Himg].
  { intros id Hid. by apply (consistent_members _ Hw pack). }
  assert (packContentOf (collection (dataDir w)) pack
          = Ok (PackContent.mk (packInfoOf pack) images)) as Hcontent.
  { unfold packContentOf, result_bind. by rewrite Himg. }
  exists pack, (PackContent.mk (packInfoOf pack) images).
  rewrite PublishPack_run, GetPack_run, E, Hcontent. simpl.
  split; [done|]. split; [done|].
  by destruct (SendStateEventResult c _).
Qed.

Lemma PublishPack_on_consistent_witness :
  consistent (dataDir curatedWorld)
  ∧ "favourites" ∈ packNamesOf (dataDir curatedWorld)
  ∧ ∃ pack content,
      (GetPack "favourites" (dataDir curatedWorld)).1 = Ok pack
      ∧ packContentOf (collection (dataDir curatedWorld)) pack = Ok content
      ∧ delivered
          (PublishPack pixelEnv "favourites" "!room:example.org"
             curatedWorld).2
        = delivered curatedWorld
          ++ [packEvent "!room:example.org" "favourites" content]
      ∧ match SendStateEventResult pixelEnv
                (packEvent "!room:example.org" "favourites" content) with
        | Ok _ =>
            (PublishPack pixelEnv "favourites" "!room:example.org"
               curatedWorld).1 = Ok ()
        | Err msg =>
            (PublishPack pixelEnv "favourites" "!room:example.org"
               curatedWorld).1
            = Err ("failed to send state event: " +:+ msg)
            ∧ dataDir (PublishPack pixelEnv "favourites" "!room:example.org"
                         curatedWorld).2
              = dataDir curatedWorld
        end.
Proof.
  assert ("favourites" ∈ packNamesOf (dataDir curatedWorld)) as H2
    by by_evaluation.
  split; [exact curated_consistent|]. split; [exact H2|].
  exact (PublishPack_on_consistent pixelEnv "favourites" "!room:example.org"
           curatedWorld curated_consistent H2).
Defined.

(** X22. What publishing never does. [PublishPack] does not touch the
    collection, the names of the packs or their members; when it fails, the
    data directory is exactly as before. An unknown pack and a member that
    is no longer in the collection stop it before anything is handed to the
    homeserver. *)
Theorem PublishPack_frame c packName roomID w :
  collection (dataDir (PublishPack c packName roomID w).2)
  = collection (dataDir w)
  ∧ Pack.StickerIDs <$> packs (dataDir (PublishPack c packName roomID w).2)
    = Pack.StickerIDs <$> packs (dataDir w)
  ∧ packNamesOf (dataDir (PublishPack c packName roomID w).2)
    = packNamesOf (dataDir w)
  ∧ (∀ msg, (PublishPack c packName roomID w).1 = Err msg →
            dataDir (PublishPack c packName roomID w).2 = dataDir w)
  ∧ (packName ∉ packNamesOf (dataDir w) →
     PublishPack c packName roomID w
     = (Err ("failed to load pack: " +:+ "pack not found: " +:+ packName), w))
  ∧ (∀ pack,
       (GetPack packName (dataDir w)).1 = Ok pack →
       (∃ id, id ∈ Pack.StickerIDs pack ∧ id ∉ stickerIDsOf (dataDir w)) →
       ∃ id, id ∈ Pack.StickerIDs pack
             ∧ (id ∉ stickerIDsOf (dataDir w))
             ∧ PublishPack c packName roomID w
               = (Err ("sticker not found in collection: " +:+ id), w)).
Proof.
  rewrite PublishPack_run, GetPack_run.
  destruct (findPack packName (packs (dataDir w))) as [[i pack]|] eqn:E.
  - pose proof (findPack_Some _ _ _ _ E) as [Hi Hname].
    assert (packName ∈ packNamesOf (dataDir w)) as Hin.
    { apply list_elem_of_fmap. exists pack. split; [done|].
      by eapply lookup_elem_of. }
    destruct (packContentOf _ _) as [content|] eqn:Econtent; simpl.
    + destruct (SendStateEventResult c _); simpl.
      * split; [done|].
        split; [by apply (fmap_insert_same _ _ _ pack)|].
        split; [by apply (fmap_insert_same _ _ _ pack)|].
        split; [done|]. split; [done|].
        intros pack' [= <-] Hmiss.
        destruct (buildImages_missing _ _ ∅ Hmiss) as (id&_&_&Herr).
        unfold packContentOf, result_bind in Econtent.
        by rewrite Herr in Econtent.
      * do 5 (split; [done|]).
        intros pack' [= <-] Hmiss.
        destruct (buildImages_missing _ _ ∅ Hmiss) as (id&_&_&Herr).
        unfold packContentOf, result_bind in Econtent.
        by rewrite Herr in Econtent.
    + do 5 (split; [done|]).
      intros pack' [= <-] Hmiss.
      destruct (buildImages_missing _ _ ∅ Hmiss) as (id&?&?&Herr).
      unfold packContentOf, result_bind in Econtent.
      rewrite Herr in Econtent. injection Econtent as <-.
      exists id. done.
  - apply findPack_None in E. simpl. do 4 (split; [done|]).
    split; [done|]. intros pack' [=].
Qed.



Lemma buildImages_size collection stickerIDs images0 images :
  buildImages collection stickerIDs images0 = Ok images →
  size images ≤ size images0 + length stickerIDs.
Proof.
  revert images0.
  induction stickerIDs as [|x rest IH]; intros images0; simpl.
  - intros [= ->]. lia.
  - destruct (findSticker x collection) as [[i s]|]; [|done].
    intros Hrest%IH.
    pose proof (map_size_insert (shortcodeOf x s) (stickerData s) images0)
      as Hsize.
    destruct (images0 !! shortcodeOf x s); simpl in Hsize; unfold id in *; lia.
Qed.

Lemma buildImages_app collection l1 l2 images0 images :
  buildImages collection (l1 ++ l2) images0 = Ok images →
  ∃ images1,
    buildImages collection l1 images0 = Ok images1
    ∧ buildImages collection l2 images1 = Ok images.
Proof.
  revert images0. induction l1 as [|x l1 IH]; intros images0; simpl.
  - intros Himg. by exists images0.
  - destruct (findSticker x collection) as [[i s]|]; [|done]. apply IH.
Qed.

Lemma buildImages_collision collection a mid b after images0 images ia sa ib
    sb :
  buildImages collection (a :: mid ++ b :: after) images0 = Ok images →
  findSticker a collection = Some (ia, sa) →
  findSticker b collection = Some (ib, sb) →
  shortcodeOf a sa = shortcodeOf b sb →
  size images < size images0 + length (a :: mid ++ b :: after).
Proof.
  simpl. intros Himg Ha Hb Hsame. rewrite Ha in Himg.
  apply buildImages_app in Himg as (images1&Hmid&Hrest).
  simpl in Hrest. rewrite Hb in Hrest.
  pose proof (buildImages_size _ _ _ _ Hrest) as Hafter.
  pose proof (buildImages_size _ _ _ _ Hmid) as Hbefore.
  assert (is_Some (images1 !! shortcodeOf b sb)) as [old Hold].
  { apply (buildImages_keeps _ _ _ _ _ Hmid).
    rewrite Hsame, lookup_insert_eq. eauto. }
  pose proof (map_size_insert (shortcodeOf b sb) (stickerData sb) images1)
    as Hb1.
  pose proof (map_size_insert (shortcodeOf a sa) (stickerData sa) images0)
    as Ha1.
  rewrite Hold in Hb1. rewrite length_app. simpl.
  destruct (images0 !! shortcodeOf a sa); simpl in *; unfold id in *; lia.
Qed.

(** X24. Which sticker a shortcode stands for. In the content built for a
    pack, every member is found in the collection, and the entry under a
    member's shortcode is that member's own data unless a member later in
    the pack has the same shortcode. The event never holds more images than
    the pack has members, and it holds fewer as soon as two members share a
    shortcode: of such members the last one is published and the others are
    left out without an error. *)
Theorem packContentOf_last_shortcode_wins collection pack content :
  packContentOf collection pack = Ok content →
  PackContent.Pack content = packInfoOf pack
  ∧ size (PackContent.Images content) ≤ length (Pack.StickerIDs pack)
  ∧ (∀ before stickerID after,
       Pack.StickerIDs pack = before ++ stickerID :: after →
       ∃ i sticker,
         findSticker stickerID collection = Some (i, sticker)
         ∧ ((∀ later j other,
               later ∈ after →
               findSticker later collection = Some (j, other) →
               shortcodeOf later other ≠ shortcodeOf stickerID sticker) →
            PackContent.Images content !! shortcodeOf stickerID sticker
            = Some (stickerData sticker)))
  ∧ (∀ before earlier between later after i sticker j other,
       Pack.StickerIDs pack
       = before ++ earlier :: between ++ later :: after →
       findSticker earlier collection = Some (i, sticker) →
       findSticker later collection = Some (j, other) →
       shortcodeOf earlier sticker = shortcodeOf later other →
       size (PackContent.Images content) < length (Pack.StickerIDs pack)).
Proof.
  unfold packContentOf, result_bind.
  destruct (buildImages collection (Pack.StickerIDs pack) ∅)
    as [images|] eqn:Himg; [|done].
  intros [= <-]. simpl. split; [done|]. split; [|split].
  - apply buildImages_size in Himg. by rewrite map_size_empty in Himg.
  - intros before stickerID after Hsplit. rewrite Hsplit in Himg.
    by eapply buildImages_member.
  - intros before earlier between later after i sticker j other Hsplit
      Hearlier Hlater Hsame.
    rewrite Hsplit in Himg |- *.
    apply buildImages_app in Himg as (images1&Hbefore&Hrest).
    apply buildImages_size in Hbefore. rewrite map_size_empty in Hbefore.
    pose proof (buildImages_collision _ _ _ _ _ _ _ _ _ _ _ Hrest Hearlier
                  Hlater Hsame) as Hless.
    rewrite length_app. lia.
Qed.

Lemma packContentOf_last_shortcode_wins_witness :
  packContentOf (collection twins) twinsPack = Ok (evContent twinsEvent)
  ∧ size (PackContent.Images (evContent twinsEvent))
    < length (Pack.StickerIDs twinsPack)
  ∧ PackContent.Images (evContent twinsEvent) !! "solo"
    = Some (stickerData twinSolo)
  ∧ PackContent.Images (evContent twinsEvent) !! "dup"
    = Some (stickerData twinSecond).
Proof.
  assert (packContentOf (collection twins) twinsPack
          = Ok (evContent twinsEvent)) as H by (vm_compute; reflexivity).
  split; [exact H|].
  destruct (packContentOf_last_shortcode_wins (collection twins) twinsPack
              (evContent twinsEvent) H) as (_&_&Hown&Hfewer).
  split; [|split].
  - exact (Hfewer [] "sha256:first" ["sha256:solo"] "sha256:second" []
             0 twinFirst 2 twinSecond eq_refl eq_refl eq_refl eq_refl).
  - destruct (Hown ["sha256:first"] "sha256:solo" ["sha256:second"] eq_refl)
      as (i&sticker&Hfind&Hentry).
    injection Hfind as <- <-. apply Hentry.
    intros later j other ->%list_elem_of_singleton Hlater.
    injection Hlater as <- <-. discriminate.
  - destruct (Hown ["sha256:first"; "sha256:solo"] "sha256:second" [] eq_refl)
      as (i&sticker&Hfind&Hentry).
    injection Hfind as <- <-. apply Hentry.
    by intros later j other ?%elem_of_nil.
Defined.

(** *** The commands, through the router *)

Lemma onDir_dataDir {A} (m : M DataDir A) w :
  dataDir (onDir m w).2 = (m (dataDir w)).2.
Proof. unfold onDir. by destruct (m (dataDir w)). Qed.

Lemma onDir_delivered {A} (m : M DataDir A) w :
  delivered (onDir m w).2 = delivered w.
Proof. unfold onDir. by destruct (m (dataDir w)). Qed.

Lemma onDir_fst {A} (m : M DataDir A) w :
  (onDir m w).1 = (m (dataDir w)).1.
Proof. unfold onDir. by destruct (m (dataDir w)). Qed.

Lemma onDir_call_consistent call w :
  match call with CallAddSticker _ => False | _ => True end →
  consistent (dataDir w) → consistent (dataDir (onDir (runCall call) w).2).
Proof.
  intros Hcall Hw. rewrite onDir_dataDir. apply runCall_consistent; [done|].
  by destruct call.
Qed.

(** a command that is one storage call and a reply chosen by its result *)
Lemma reply_consistent call (reply : result unit → World → string) w :
  match call with CallAddSticker _ => False | _ => True end →
  consistent (dataDir w) →
  consistent
    (dataDir (let '(r, w') := onDir (runCall call) w in (reply r w', w')).2).
Proof.
  intros Hcall Hw. pose proof (onDir_call_consistent call w Hcall Hw) as Hcons.
  by destruct (onDir (runCall call) w).
Qed.

Lemma packCreate_consistent `{!Unicode} c name w :
  consistent (dataDir w) → consistent (dataDir (packCreate c name w).2).
Proof.
  intros Hw. unfold packCreate. case_bool_decide; [done|].
  pose proof (onDir_call_consistent
                (CallCreatePack
                   (strings.ToLower (strings.ReplaceAll name " " "-")) name
                   (UserID c)) w I Hw) as Hcons.
  simpl in Hcons. by destruct (onDir _ w) as [[] ?].
Qed.

Lemma packAdd_consistent packName stickerID w :
  consistent (dataDir w) →
  consistent (dataDir (packAdd packName stickerID w).2).
Proof.
  intros Hw. unfold packAdd.
  pose proof (onDir_call_consistent (CallAddToPack packName [stickerID]) w I
                Hw) as Hcons.
  simpl in Hcons. by destruct (onDir _ w) as [[] ?].
Qed.

Lemma packRemove_consistent packName stickerID w :
  consistent (dataDir w) →
  consistent (dataDir (packRemove packName stickerID w).2).
Proof.
  intros Hw. unfold packRemove.
  pose proof (onDir_call_consistent (CallRemoveFromPack packName [stickerID])
                w I Hw) as Hcons.
  simpl in Hcons. by destruct (onDir _ w) as [[] ?].
Qed.

Lemma packAvatar_consistent packName avatarURL w :
  consistent (dataDir w) →
  consistent (dataDir (packAvatar packName avatarURL w).2).
Proof.
  intros Hw. unfold packAvatar. destruct (negb _); [done|].
  pose proof (onDir_call_consistent (CallSetPackAvatar packName avatarURL) w
                I Hw) as Hcons.
  simpl in Hcons. by destruct (onDir _ w) as [[] ?].
Qed.

Lemma stickerDelete_consistent stickerID w :
  consistent (dataDir w) →
  consistent (dataDir (stickerDelete stickerID w).2).
Proof.
  intros Hw. unfold stickerDelete.
  pose proof (onDir_call_consistent (CallDeleteSticker stickerID) w I Hw)
    as Hcons.
  simpl in Hcons. by destruct (onDir _ w) as [[] ?].
Qed.

Lemma stickerUsage_consistent `{!Unicode} stickerID usageStr w :
  consistent (dataDir w) →
  consistent (dataDir (stickerUsage stickerID usageStr w).2).
Proof.
  intros Hw. unfold stickerUsage.
  destruct (ParseUsage usageStr) as [usage|]; [|done].
  pose proof (onDir_call_consistent (CallSetStickerUsage stickerID usage) w
                I Hw) as Hcons.
  simpl in Hcons. destruct (onDir _ w) as [[] ?]; [|done].
  by case_bool_decide.
Qed.

Lemma packUsage_consistent `{!Unicode} packName usageStr w :
  consistent (dataDir w) →
  consistent (dataDir (packUsage packName usageStr w).2).
Proof.
  intros Hw. unfold packUsage.
  destruct (ParseUsage usageStr) as [usage|]; [|done].
  pose proof (onDir_call_consistent (CallSetPackUsage packName usage) w I Hw)
    as Hcons.
  simpl in Hcons. destruct (onDir _ w) as [[] ?]; [|done].
  by case_bool_decide.
Qed.

Lemma stickerName_consistent stickerID name w :
  consistent (dataDir w) →
  consistent (dataDir (stickerName stickerID name w).2).
Proof.
  intros Hw. unfold stickerName.
  destruct (ValidateShortcode name); [|done].
  pose proof (onDir_call_consistent (CallSetStickerName stickerID name) w I
                Hw) as Hcons.
  simpl in Hcons. by destruct (onDir _ w) as [[] ?].
Qed.

Lemma republish_consistent c packName rooms successCount errors w :
  consistent (dataDir w) →
  consistent (dataDir (republish c packName rooms successCount errors w).2).
Proof.
  revert successCount errors w.
  induction rooms as [|room rooms IH]; intros successCount errors w Hw;
    [done|].
  simpl. pose proof (PublishPack_consistent c packName room w Hw) as Hcons.
  destruct (PublishPack c packName room w) as [[] w']; by apply IH.
Qed.

Lemma packPublish_consistent c packName roomID w :
  consistent (dataDir w) →
  consistent (dataDir (packPublish c packName roomID w).2).
Proof.
  intros Hw. unfold packPublish. case_bool_decide.
  - assert (onDir (GetPack packName) w
            = ((GetPack packName (dataDir w)).1, w)) as ->.
    { unfold onDir. rewrite GetPack_run. simpl. by destruct w. }
    destruct (GetPack packName (dataDir w)).1 as [pack|]; [|done].
    case_bool_decide; [done|].
    pose proof (republish_consistent c packName
                  (map_to_list (Pack.PublishedRooms pack)).*1 0 [] w Hw) as Hcons.
    destruct (republish _ _ _ _ _ _) as [[n errors] w']. simpl in Hcons.
    by case_bool_decide.
  - destruct (negb _); [done|].
    pose proof (PublishPack_consistent c packName roomID w Hw) as Hcons.
    by destruct (PublishPack c packName roomID w) as [[] w'].
Qed.

(** The commands that only read give back the world they were given. *)
Lemma onDir_read {A} (m : M DataDir A) w :
  (∀ d, (m d).2 = d) → onDir m w = ((m (dataDir w)).1, w).
Proof.
  intros Hread. unfold onDir. specialize (Hread (dataDir w)).
  destruct (m (dataDir w)) as [r d]. simpl in *. subst d. by destruct w.
Qed.

Lemma packList_reads w : (packList w).2 = w.
Proof.
  unfold packList.
  by rewrite (onDir_read ListPacks), (onDir_read LoadCollection) by done.
Qed.

Lemma packShow_reads packName w : (packShow packName w).2 = w.
Proof.
  unfold packShow.
  rewrite (onDir_read (GetPack packName))
    by (intros d; by rewrite GetPack_run).
  destruct (GetPack packName (dataDir w)).1; [|done].
  case_bool_decide; [done|].
  by rewrite (onDir_read LoadCollection) by done.
Qed.

Lemma stickerShow_reads stickerID w : (stickerShow stickerID w).2 = w.
Proof.
  unfold stickerShow. rewrite (onDir_read LoadCollection) by done. simpl.
  by destruct (findSticker _ _) as [[??]|].
Qed.

Lemma listUnsorted_reads w : (listUnsorted w).2 = w.
Proof.
  unfold listUnsorted. rewrite (onDir_read LoadCollection) by done. simpl.
  by case_bool_decide.
Qed.

Lemma handlePackCommand_consistent `{!Unicode} c args w :
  consistent (dataDir w) →
  consistent (dataDir (handlePackCommand c args w).2).
Proof.
  intros Hw. unfold handlePackCommand.
  destruct args as [|subcommand rest]; [done|].
  case_bool_decide; [by rewrite packList_reads|].
  case_bool_decide.
  { destruct rest; [done|]. by apply packCreate_consistent. }
  case_bool_decide.
  { destruct rest as [|? [|? ?]]; try done. by apply packAdd_consistent. }
  case_bool_decide.
  { destruct rest as [|? [|? ?]]; try done. by apply packRemove_consistent. }
  case_bool_decide.
  { destruct rest; [done|]. by rewrite packShow_reads. }
  case_bool_decide.
  { destruct rest; [done|]. by apply packPublish_consistent. }
  case_bool_decide.
  { destruct rest as [|? [|? ?]]; try done. by apply packAvatar_consistent. }
  case_bool_decide.
  { destruct rest as [|? [|? ?]]; try done. by apply packUsage_consistent. }
  done.
Qed.

(** X25. Whatever is typed after "!sticker", the data directory stays
    consistent: [executeCommand] takes a directory in which membership is
    recorded on both sides, ids and pack names are unique and every member
    exists, to a directory of the same kind, whether the command succeeds,
    fails, or is not a command at all. *)
Theorem executeCommand_keeps_consistency `{!Unicode} `{!UnicodeFields} c body
    w :
  consistent (dataDir w) →
  consistent (dataDir (executeCommand c body w).2).
Proof.
  intros Hw. unfold executeCommand.
  case_bool_decide; [done|].
  destruct (strings.Fields _) as [|command rest]; [done|].
  case_bool_decide; [by apply handlePackCommand_consistent|].
  case_bool_decide.
  { unfold handleListCommand. destruct rest; [done|].
    case_bool_decide; [|done]. by rewrite listUnsorted_reads. }
  case_bool_decide.
  { destruct rest; [done|]. by rewrite stickerShow_reads. }
  destruct (_ || _).
  { destruct rest; [done|]. by apply stickerDelete_consistent. }
  case_bool_decide.
  { destruct rest as [|? [|? ?]]; try done. by apply stickerUsage_consistent. }
  case_bool_decide.
  { destruct rest as [|? [|? ?]]; try done. by apply stickerName_consistent. }
  done.
Qed.

Lemma executeCommand_keeps_consistency_witness :
  consistent (dataDir curatedWorld)
  ∧ consistent
      (dataDir
         (executeCommand (H := asciiOnly) (H0 := asciiFields) pixelEnv
            ("!sticker delete " +:+ pixelID) curatedWorld).2).
Proof.
  split; [exact curated_consistent|].
  exact (executeCommand_keeps_consistency (H := asciiOnly)
           (H0 := asciiFields) pixelEnv ("!sticker delete " +:+ pixelID)
           curatedWorld curated_consistent).
Defined.

Lemma RemoveFromPack_lists packName stickerIDs d :
  stickerIDsOf (RemoveFromPack packName stickerIDs d).2 = stickerIDsOf d
  ∧ packNamesOf (RemoveFromPack packName stickerIDs d).2 = packNamesOf d.
Proof.
  rewrite RemoveFromPack_run.
  destruct (findPack packName (packs d)) as [[i pack]|] eqn:E; [|done].
  apply findPack_Some in E as [Hi _]. unfold stickerIDsOf, packNamesOf.
  simpl. split.
  - rewrite <- list_fmap_compose. apply list_fmap_ext.
    intros ? s _. apply unmarkInPack_ID.
  - by apply (fmap_insert_same _ _ _ pack).
Qed.

Lemma warnOnly_run {S} (m : M S ()) s : (warnOnly m s).2 = (m s).2.
Proof. unfold warnOnly. by destruct (m s). Qed.

Lemma forEach_RemoveFromPack_lists id names d :
  stickerIDsOf
    (forEach names (λ packName, warnOnly (RemoveFromPack packName [id])) d).2
  = stickerIDsOf d
  ∧ packNamesOf
      (forEach names (λ packName, warnOnly (RemoveFromPack packName [id]))
         d).2
    = packNamesOf d.
Proof.
  revert d. induction names as [|name names IH]; intros d; [done|].
  cbn [forEach]. unfold bind.
  destruct (RemoveFromPack_lists name [id] d) as [Hi Hn].
  rewrite <- (warnOnly_run (RemoveFromPack name [id]) d) in Hi, Hn.
  destruct (warnOnly (RemoveFromPack name [id]) d) as [[[]|msg] d'] eqn:E;
    simpl in Hi, Hn.
  - destruct (IH d') as [Hi' Hn'].
    split; [exact (eq_trans Hi' Hi)|exact (eq_trans Hn' Hn)].
  - unfold warnOnly in E. by destruct (RemoveFromPack name [id] d).
Qed.

Lemma DeleteSticker_run id d :
  DeleteSticker id d =
  match findSticker id (collection d) with
  | None => (Err ("sticker not found: " +:+ id), d)
  | Some (i, sticker) =>
      forEach (Sticker.InPacks sticker)
        (λ packName, warnOnly (RemoveFromPack packName [id]))
        {| collection := delete i (collection d); packs := packs d |}
  end.
Proof.
  unfold DeleteSticker, bind, LoadCollection, wrap, SaveCollection, fail.
  simpl. by destruct (findSticker _ _) as [[i s]|].
Qed.

(** No storage call but [AddSticker] adds a sticker, and none removes or
    renames a pack. *)
Lemma runCall_lists call d :
  match call with CallAddSticker _ => False | _ => True end →
  stickerIDsOf (runCall call d).2 `sublist_of` stickerIDsOf d
  ∧ packNamesOf d `prefix_of` packNamesOf (runCall call d).2.
Proof.
  intros Hcall. unfold stickerIDsOf, packNamesOf.
  destruct call; simpl; try done.
  - unfold UpdateAltText. run.
    destruct (findSticker _ _) as [[i s]|] eqn:E; simpl; [|done].
    apply findSticker_Some in E as [Hi _].
    by rewrite (fmap_insert_same _ _ _ s).
  - unfold SetStickerUsage. run.
    destruct (findSticker _ _) as [[i s]|] eqn:E; simpl; [|done].
    apply findSticker_Some in E as [Hi _].
    by rewrite (fmap_insert_same _ _ _ s).
  - unfold SetStickerName. run.
    destruct (findSticker _ _) as [[i s]|] eqn:E; simpl; [|done].
    apply findSticker_Some in E as [Hi _].
    by rewrite (fmap_insert_same _ _ _ s).
  - rewrite DeleteSticker_run.
    destruct (findSticker _ _) as [[i s]|] eqn:E; [|done].
    destruct (forEach_RemoveFromPack_lists id (Sticker.InPacks s)
                {| collection := delete i (collection d);
                   packs := packs d |}) as [Hids Hnames].
    unfold stickerIDsOf, packNamesOf in Hids, Hnames.
    rewrite Hids, Hnames. simpl. split; [|done].
    apply fmap_sublist, sublist_delete.
  - unfold CreatePackWithAttribution. run.
    case_bool_decide; simpl; [done|]. split; [done|].
    rewrite fmap_app. by apply prefix_app_r.
  - rewrite AddToPack_run.
    destruct (findPack _ _) as [[i pack]|] eqn:E; [|done].
    apply findPack_Some in E as [Hi _].
    destruct (addMembers _ _ _); [|done]. simpl.
    rewrite markInPack_fmap_ID. split; [done|].
    by rewrite (fmap_insert_same _ _ _ pack).
  - destruct (RemoveFromPack_lists packName stickerIDs d) as [Hids Hnames].
    unfold stickerIDsOf, packNamesOf in Hids, Hnames.
    by rewrite Hids, Hnames.
  - unfold SetPackAvatar. run.
    destruct (findPack _ _) as [[i pack]|] eqn:E; simpl; [|done].
    apply findPack_Some in E as [Hi _].
    by rewrite (fmap_insert_same _ _ _ pack).
  - unfold SetPackUsage. run.
    destruct (findPack _ _) as [[i pack]|] eqn:E; simpl; [|done].
    apply findPack_Some in E as [Hi _].
    by rewrite (fmap_insert_same _ _ _ pack).
Qed.

(** A storage call that returns an error has written nothing. *)
Lemma runCall_Err call d msg :
  (runCall call d).1 = Err msg → (runCall call d).2 = d.
Proof.
  destruct call; simpl.
  - by rewrite AddSticker_run.
  - unfold UpdateAltText. run. by destruct (findSticker _ _) as [[i s]|].
  - unfold SetStickerUsage. run. by destruct (findSticker _ _) as [[i s]|].
  - unfold SetStickerName. run. by destruct (findSticker _ _) as [[i s]|].
  - rewrite DeleteSticker_run.
    destruct (findSticker _ _) as [[i s]|]; [|done].
    by rewrite forEach_warnOnly_Ok.
  - unfold CreatePackWithAttribution. run. by case_bool_decide.
  - rewrite AddToPack_run. destruct (findPack _ _) as [[i pack]|]; [|done].
    by destruct (addMembers _ _ _).
  - rewrite RemoveFromPack_run. by destruct (findPack _ _) as [[i pack]|].
  - unfold SetPackAvatar. run. by destruct (findPack _ _) as [[i pack]|].
  - unfold SetPackUsage. run. by destruct (findPack _ _) as [[i pack]|].
Qed.

Lemma commandStep_refl w : commandStep w w.
Proof. by split. Qed.

Lemma commandStep_trans w1 w2 w3 :
  commandStep w1 w2 → commandStep w2 w3 → commandStep w1 w3.
Proof.
  intros (Ha&Hb&Hc) (Ha'&Hb'&Hc'). split; [by etrans|]. split; by etrans.
Qed.

Lemma onDir_call_step call w :
  match call with CallAddSticker _ => False | _ => True end →
  commandStep w (onDir (runCall call) w).2
  ∧ delivered (onDir (runCall call) w).2 = delivered w
  ∧ (∀ msg, (onDir (runCall call) w).1 = Err msg →
            (onDir (runCall call) w).2 = w).
Proof.
  intros Hcall. destruct (runCall_lists call (dataDir w) Hcall) as [Hi Hn].
  pose proof (runCall_Err call (dataDir w)) as Herr.
  unfold commandStep. rewrite onDir_dataDir, onDir_delivered, onDir_fst.
  split; [done|]. split; [done|]. intros msg Hmsg.
  specialize (Herr msg Hmsg). unfold onDir.
  destruct (runCall call (dataDir w)) as [r d]. simpl in *. subst d.
  by destruct w.
Qed.

Lemma storage_command_quiet call (okReply : string)
    (errReply : string → string) w :
  match call with CallAddSticker _ => False | _ => True end →
  strings.HasPrefix okReply "❌" = false →
  quietStep w
    (match onDir (runCall call) w with
     | (Err msg, w') => (errReply msg, w')
     | (Ok _, w') => (okReply, w')
     end).
Proof.
  intros Hcall Hok. destruct (onDir_call_step call w Hcall) as (Hs&Hd&He).
  unfold quietStep.
  destruct (onDir (runCall call) w) as [[[]|msg] w']; simpl in *.
  - split; [done|]. split; [done|]. by rewrite Hok.
  - split; [done|]. split; [done|]. intros _. by apply (He msg).
Qed.

Lemma quietStep_refused w reply : quietStep w (reply, w).
Proof. split; [apply commandStep_refl|]. by split. Qed.

Lemma packCreate_quiet `{!Unicode} c name w :
  quietStep w (packCreate c name w).
Proof.
  unfold packCreate. case_bool_decide; [apply quietStep_refused|].
  by apply (storage_command_quiet
              (CallCreatePack
                 (strings.ToLower (strings.ReplaceAll name " " "-")) name
                 (UserID c))
              ("✅ Created pack: " +:+ name)
              (λ msg, "❌ Error creating pack: " +:+ msg)).
Qed.

Lemma packAdd_quiet packName stickerID w :
  quietStep w (packAdd packName stickerID w).
Proof.
  by apply (storage_command_quiet (CallAddToPack packName [stickerID])
              ("✅ Added sticker to pack: " +:+ packName)
              (λ msg, "❌ Error adding to pack: " +:+ msg)).
Qed.

Lemma packRemove_quiet packName stickerID w :
  quietStep w (packRemove packName stickerID w).
Proof.
  by apply (storage_command_quiet (CallRemoveFromPack packName [stickerID])
              ("✅ Removed sticker from pack: " +:+ packName)
              (λ msg, "❌ Error removing from pack: " +:+ msg)).
Qed.

Lemma packAvatar_quiet packName avatarURL w :
  quietStep w (packAvatar packName avatarURL w).
Proof.
  unfold packAvatar. destruct (negb _); [apply quietStep_refused|].
  by apply (storage_command_quiet (CallSetPackAvatar packName avatarURL)
              ("✅ Set avatar for pack: " +:+ packName)
              (λ msg, "❌ Error setting pack avatar: " +:+ msg)).
Qed.

Lemma stickerDelete_quiet stickerID w :
  quietStep w (stickerDelete stickerID w).
Proof.
  by apply (storage_command_quiet (CallDeleteSticker stickerID)
              ("✅ Deleted sticker: " +:+ stickerID)
              (λ msg, "❌ Error deleting sticker: " +:+ msg)).
Qed.

Lemma stickerName_quiet stickerID name w :
  quietStep w (stickerName stickerID name w).
Proof.
  unfold stickerName.
  destruct (ValidateShortcode name); [|apply quietStep_refused].
  by apply (storage_command_quiet (CallSetStickerName stickerID name)
              ("✅ Set sticker shortcode to: :" +:+ name +:+ ":")
              (λ msg, "❌ Error setting sticker name: " +:+ msg)).
Qed.

Lemma stickerUsage_quiet `{!Unicode} stickerID usageStr w :
  quietStep w (stickerUsage stickerID usageStr w).
Proof.
  unfold stickerUsage.
  destruct (ParseUsage usageStr) as [usage|]; [|apply quietStep_refused].
  destruct (onDir_call_step (CallSetStickerUsage stickerID usage) w I)
    as (Hs&Hd&He).
  simpl in Hs, Hd, He. unfold quietStep.
  destruct (onDir (SetStickerUsage stickerID usage) w) as [[[]|msg] w'];
    simpl in *.
  - by case_bool_decide.
  - split; [done|]. split; [done|]. intros _. by apply (He msg).
Qed.

Lemma packUsage_quiet `{!Unicode} packName usageStr w :
  quietStep w (packUsage packName usageStr w).
Proof.
  unfold packUsage.
  destruct (ParseUsage usageStr) as [usage|]; [|apply quietStep_refused].
  destruct (onDir_call_step (CallSetPackUsage packName usage) w I)
    as (Hs&Hd&He).
  simpl in Hs, Hd, He. unfold quietStep.
  destruct (onDir (SetPackUsage packName usage) w) as [[[]|msg] w'];
    simpl in *.
  - by case_bool_decide.
  - split; [done|]. split; [done|]. intros _. by apply (He msg).
Qed.

Lemma PublishPack_step c packName roomID w :
  commandStep w (PublishPack c packName roomID w).2
  ∧ (∀ msg, (PublishPack c packName roomID w).1 = Err msg →
            dataDir (PublishPack c packName roomID w).2 = dataDir w).
Proof.
  unfold commandStep. rewrite PublishPack_run.
  destruct (findPack packName (packs (dataDir w))) as [[i pack]|] eqn:E;
    [|done].
  apply findPack_Some in E as [Hi _].
  destruct (packContentOf _ _) as [content|]; [|done].
  simpl. destruct (SendStateEventResult c _); simpl.
  - split; [|done]. split; [done|]. unfold packNamesOf. simpl.
    rewrite (fmap_insert_same _ _ _ pack) by done.
    split; [done|]. by apply prefix_app_r.
  - split; [|done]. split; [done|]. split; [done|]. by apply prefix_app_r.
Qed.

Lemma republish_step c packName rooms successCount errors w :
  commandStep w (republish c packName rooms successCount errors w).2.
Proof.
  revert successCount errors w.
  induction rooms as [|room rooms IH]; intros successCount errors w;
    [apply commandStep_refl|].
  simpl. destruct (PublishPack_step c packName room w) as [Hs _].
  destruct (PublishPack c packName room w) as [[] w'];
    (eapply commandStep_trans; [exact Hs|apply IH]).
Qed.

(** [packPublish] makes a step, and answers with an error only if the data
    directory is as before. *)
Lemma packPublish_step c packName roomID w :
  commandStep w (packPublish c packName roomID w).2
  ∧ (strings.HasPrefix (packPublish c packName roomID w).1 "❌" = true →
     dataDir (packPublish c packName roomID w).2 = dataDir w).
Proof.
  unfold packPublish. case_bool_decide.
  - rewrite (onDir_read (GetPack packName))
      by (intros d; by rewrite GetPack_run).
    destruct (GetPack packName (dataDir w)).1 as [pack|];
      [|split; [apply commandStep_refl|done]].
    case_bool_decide; [split; [apply commandStep_refl|done]|].
    pose proof (republish_step c packName
                  (map_to_list (Pack.PublishedRooms pack)).*1 0 [] w) as Hs.
    destruct (republish _ _ _ _ _ _) as [[n errors] w']. simpl in Hs.
    case_bool_decide; simpl; (split; [done|]); intros [=].
  - destruct (negb _); [split; [apply commandStep_refl|done]|].
    destruct (PublishPack_step c packName roomID w) as [Hs He].
    destruct (PublishPack c packName roomID w) as [[[]|msg] w']; simpl in *.
    + split; [done|]. intros [=].
    + split; [done|]. intros _. by apply (He msg).
Qed.

Lemma quietStep_step w out : quietStep w out → commandStep w out.2.
Proof. by intros (?&_). Qed.

Lemma quietStep_refusal w out :
  quietStep w out →
  strings.HasPrefix out.1 "❌" = true → dataDir out.2 = dataDir w.
Proof. intros (_&_&He) Hp. by rewrite (He Hp). Qed.

(** What the router guarantees of every command. *)
Lemma handlePackCommand_step `{!Unicode} c args w :
  commandStep w (handlePackCommand c args w).2
  ∧ (strings.HasPrefix (handlePackCommand c args w).1 "❌" = true →
     dataDir (handlePackCommand c args w).2 = dataDir w)
  ∧ ((∀ packName rest, args ≠ "publish" :: packName :: rest) →
     delivered (handlePackCommand c args w).2 = delivered w).
Proof.
  assert (∀ out, quietStep w out →
                 commandStep w out.2
                 ∧ (strings.HasPrefix out.1 "❌" = true →
                    dataDir out.2 = dataDir w)
                 ∧ ((∀ packName rest, args ≠ "publish" :: packName :: rest) →
                    delivered out.2 = delivered w)) as Hquiet.
  { intros out Hq. split; [by apply quietStep_step|].
    split; [by apply quietStep_refusal|]. intros _. by destruct Hq as (_&?&_). }
  assert (∀ reply, commandStep w (reply, w).2
                 ∧ (strings.HasPrefix (reply, w).1 "❌" = true →
                    dataDir (reply, w).2 = dataDir w)
                 ∧ ((∀ packName rest, args ≠ "publish" :: packName :: rest) →
                    delivered (reply, w).2 = delivered w)) as Hsame.
  { intros reply. apply Hquiet, quietStep_refused. }
  unfold handlePackCommand.
  destruct args as [|subcommand rest]; [apply Hsame|].
  case_bool_decide.
  { rewrite (surjective_pairing (packList w)), packList_reads. apply Hsame. }
  case_bool_decide.
  { destruct rest; [apply Hsame|]. apply Hquiet, packCreate_quiet. }
  case_bool_decide.
  { destruct rest as [|? [|? ?]]; try apply Hsame.
    apply Hquiet, packAdd_quiet. }
  case_bool_decide.
  { destruct rest as [|? [|? ?]]; try apply Hsame.
    apply Hquiet, packRemove_quiet. }
  case_bool_decide.
  { destruct rest; [apply Hsame|].
    rewrite (surjective_pairing (packShow _ w)), packShow_reads.
    apply Hsame. }
  case_bool_decide.
  { destruct rest as [|packName rest]; [apply Hsame|]. subst subcommand.
    destruct (packPublish_step c packName
                match rest with roomID :: _ => roomID | [] => "" end w)
      as [Hs He].
    split; [done|]. split; [done|]. intros Hno.
    by destruct (Hno packName rest). }
  case_bool_decide.
  { destruct rest as [|? [|? ?]]; try apply Hsame.
    apply Hquiet, packAvatar_quiet. }
  case_bool_decide.
  { destruct rest as [|? [|? ?]]; try apply Hsame.
    apply Hquiet, packUsage_quiet. }
  apply Hsame.
Qed.

(** X26. A command that answers with an error has changed nothing in the
    data directory: when the reply of [executeCommand] begins with the
    cross mark, the collection and the packs are exactly those before the
    command, for every command and every failure, of the arguments, of the
    storage, or of the homeserver. *)
Theorem executeCommand_refusal_writes_nothing `{!Unicode} `{!UnicodeFields}
    c body w :
  strings.HasPrefix (executeCommand c body w).1 "❌" = true →
  dataDir (executeCommand c body w).2 = dataDir w.
Proof.
  unfold executeCommand.
  case_bool_decide; [done|].
  destruct (strings.Fields _) as [|command rest]; [done|].
  case_bool_decide.
  { by destruct (handlePackCommand_step c rest w) as (_&He&_). }
  case_bool_decide.
  { unfold handleListCommand. destruct rest; [done|].
    case_bool_decide; [|done]. by rewrite listUnsorted_reads. }
  case_bool_decide.
  { destruct rest; [done|]. by rewrite stickerShow_reads. }
  destruct (_ || _).
  { destruct rest; [done|]. apply quietStep_refusal, stickerDelete_quiet. }
  case_bool_decide.
  { destruct rest as [|? [|? ?]]; try done.
    apply quietStep_refusal, stickerUsage_quiet. }
  case_bool_decide.
  { destruct rest as [|? [|? ?]]; try done.
    apply quietStep_refusal, stickerName_quiet. }
  done.
Qed.

Lemma executeCommand_refusal_writes_nothing_witness :
  strings.HasPrefix
    (executeCommand (H := asciiOnly) (H0 := asciiFields) pixelEnv
       "!sticker pack add nowhere abc" curatedWorld).1 "❌" = true
  ∧ dataDir
      (executeCommand (H := asciiOnly) (H0 := asciiFields) pixelEnv
         "!sticker pack add nowhere abc" curatedWorld).2
    = dataDir curatedWorld.
Proof.
  assert (strings.HasPrefix
            (executeCommand (H := asciiOnly) (H0 := asciiFields) pixelEnv
               "!sticker pack add nowhere abc" curatedWorld).1 "❌" = true)
    as Hrefused by (vm_compute; reflexivity).
  split; [exact Hrefused|].
  exact (executeCommand_refusal_writes_nothing (H := asciiOnly)
           (H0 := asciiFields) pixelEnv "!sticker pack add nowhere abc"
           curatedWorld Hrefused).
Defined.

(** X27. What no command does. Whatever is typed after "!sticker", the
    command adds no sticker to the collection, removes and renames no pack
    (packs are only ever added, at the end of the list), takes back no
    event handed to the homeserver, and hands one over only when it is
    "pack publish" with a pack name. *)
Theorem executeCommand_never `{!Unicode} `{!UnicodeFields} c body w :
  stickerIDsOf (dataDir (executeCommand c body w).2)
    `sublist_of` stickerIDsOf (dataDir w)
  ∧ packNamesOf (dataDir w)
      `prefix_of` packNamesOf (dataDir (executeCommand c body w).2)
  ∧ delivered w `prefix_of` delivered (executeCommand c body w).2
  ∧ ((∀ packName rest,
        strings.Fields (strings.drop 8 (strings.TrimSpace body))
        ≠ "pack" :: "publish" :: packName :: rest) →
     delivered (executeCommand c body w).2 = delivered w).
Proof.
  assert (∀ out, quietStep w out →
                 commandStep w out.2 ∧ delivered out.2 = delivered w)
    as Hquiet by (by intros out (?&?&_)).
  assert (∀ reply : string,
            commandStep w (reply, w).2
            ∧ delivered (reply, w).2 = delivered w) as Hsame
    by (intros reply; split; [apply commandStep_refl|done]).
  enough (commandStep w (executeCommand c body w).2
          ∧ ((∀ packName rest,
                strings.Fields (strings.drop 8 (strings.TrimSpace body))
                ≠ "pack" :: "publish" :: packName :: rest) →
             delivered (executeCommand c body w).2 = delivered w))
    as [(?&?&?) ?] by done.
  unfold executeCommand.
  case_bool_decide; [by split; [apply commandStep_refl|]|].
  destruct (strings.Fields _) as [|command rest];
    [by split; [apply commandStep_refl|]|].
  case_bool_decide.
  { subst command. destruct (handlePackCommand_step c rest w) as (Hs&_&Hd).
    split; [done|]. intros Hno. apply Hd. intros packName rest' ->.
    by destruct (Hno packName rest'). }
  assert (∀ out : string * World,
            commandStep w out.2 ∧ delivered out.2 = delivered w →
                 commandStep w out.2
                 ∧ ((∀ packName rest',
                       command :: rest
                       ≠ "pack" :: "publish" :: packName :: rest') →
                    delivered out.2 = delivered w)) as Hweak
    by (by intros out [? ?]).
  case_bool_decide.
  { unfold handleListCommand. destruct rest; [apply Hweak, Hsame|].
    case_bool_decide; [|apply Hweak, Hsame].
    rewrite (surjective_pairing (listUnsorted w)), listUnsorted_reads.
    apply Hweak, Hsame. }
  case_bool_decide.
  { destruct rest; [apply Hweak, Hsame|].
    rewrite (surjective_pairing (stickerShow _ w)), stickerShow_reads.
    apply Hweak, Hsame. }
  destruct (_ || _).
  { destruct rest; [apply Hweak, Hsame|].
    apply Hweak, Hquiet, stickerDelete_quiet. }
  case_bool_decide.
  { destruct rest as [|? [|? ?]]; try apply Hweak, Hsame.
    apply Hweak, Hquiet, stickerUsage_quiet. }
  case_bool_decide.
  { destruct rest as [|? [|? ?]]; try apply Hweak, Hsame.
    apply Hweak, Hquiet, stickerName_quiet. }
  apply Hweak, Hsame.
Qed.

Lemma packCreate_run `{!Unicode} c name w :
  packCreate c name w =
  let packID := strings.ToLower (strings.ReplaceAll name " " "-") in
  if bool_decide (packID = "unsorted")
  then ("❌ Cannot create pack named 'unsorted' - this is a reserved name for stickers not in any pack", w)
  else if bool_decide (packID ∈ packNamesOf (dataDir w))
  then ("❌ Error creating pack: " +:+ "pack already exists: " +:+ packID, w)
  else ("✅ Created pack: " +:+ name,
        {| dataDir :=
             {| collection := collection (dataDir w);
                packs := packs (dataDir w)
                         ++ [Pack.mk packID name "" (UserID c) [] ∅ []] |};
           delivered := delivered w |}).
Proof.
  unfold packCreate, onDir, CreatePackWithAttribution, packNamesOf. run.
  case_bool_decide; [done|]. case_bool_decide; simpl; [|done].
  by destruct w.
Qed.

Lemma normalizeName_bytes name :
  strings.allBytes
    (λ ch, negb (bool_decide (ch = " "%char)) && negb (strings.isUpper ch))
    (normalizeName name) = true.
Proof.
  unfold normalizeName. rewrite allBytes_mapBytes.
  induction name as [|ch name IH]; [done|]. simpl. rewrite IH, andb_true_r.
  clear. destruct ch as [[] [] [] [] [] [] [] []]; vm_compute; done.
Qed.

(** X28. Creating a pack. [packCreate] stores the pack under the name as
    typed with spaces turned to hyphens and letters to lower case, keeps
    the name as typed for display, attributes the pack to the bot's user
    and starts it empty, at the end of the list; the stored name of an
    ASCII name has no space and no capital. A name whose stored form is
    taken is refused and nothing is written, so a second creation under any
    name with the same stored form always fails. *)
Theorem packCreate_effect `{!Unicode} c name w :
  let packID := strings.ToLower (strings.ReplaceAll name " " "-") in
  let pack := Pack.mk packID name "" (UserID c) [] ∅ [] in
  (packID ≠ "unsorted" → packID ∉ packNamesOf (dataDir w) →
   packCreate c name w
   = ("✅ Created pack: " +:+ name,
      {| dataDir := {| collection := collection (dataDir w);
                       packs := packs (dataDir w) ++ [pack] |};
         delivered := delivered w |})
   ∧ (GetPack packID (dataDir (packCreate c name w).2)).1 = Ok pack)
  ∧ (packID ∈ packNamesOf (dataDir w) →
     strings.HasPrefix (packCreate c name w).1 "❌" = true
     ∧ (packCreate c name w).2 = w)
  ∧ (strings.isASCII name = true →
     strings.allBytes
       (λ ch, negb (bool_decide (ch = " "%char))
              && negb (strings.isUpper ch)) packID = true)
  ∧ (∀ name',
       strings.ToLower (strings.ReplaceAll name' " " "-") = packID →
       strings.HasPrefix (packCreate c name' (packCreate c name w).2).1 "❌"
       = true
       ∧ (packCreate c name' (packCreate c name w).2).2
         = (packCreate c name w).2).
Proof.
  intros packID pack. split; [|split; [|split]].
  - intros Hres Hnew. rewrite packCreate_run. fold packID. simpl.
    rewrite !bool_decide_eq_false_2 by done. split; [done|].
    rewrite GetPack_run. simpl.
    rewrite (findPack_snoc_new packID _ pack); [done| |done].
    by apply findPack_None.
  - intros Hold. rewrite packCreate_run. fold packID. simpl.
    case_bool_decide; [done|]. by rewrite bool_decide_eq_true_2.
  - intros Hascii. subst packID. rewrite packID_normalizeName by done.
    apply normalizeName_bytes.
  - intros name' Hsame.
    rewrite (packCreate_run c name'), Hsame. simpl.
    case_bool_decide; [done|].
    rewrite bool_decide_eq_true_2; [done|].
    rewrite packCreate_run. fold packID. simpl.
    rewrite bool_decide_eq_false_2 by done.
    case_bool_decide; [done|]. simpl. unfold packNamesOf. simpl.
    rewrite fmap_app. apply elem_of_app. right. simpl. by left.
Qed.

(** *** The handlers *)

Lemma validCommands_lookup reaction :
  default false (validCommands !! reaction)
  = bool_decide (reaction ∈ ["!yoink"; "!nom"; "!grab"]).
Proof.
  unfold validCommands.
  destruct (decide (reaction = "!yoink")) as [->|Hyoink]; [done|].
  rewrite lookup_insert_ne by done.
  destruct (decide (reaction = "!nom")) as [->|Hnom]; [done|].
  rewrite lookup_insert_ne by done.
  destruct (decide (reaction = "!grab")) as [->|Hgrab]; [done|].
  rewrite lookup_singleton_ne by done.
  rewrite bool_decide_eq_false_2; [done|].
  rewrite !elem_of_cons, elem_of_nil. by intros [?|[?|[?|[]]]].
Qed.

Lemma bot_eta b :
  {| world := world b; sent := sent b; redacted := redacted b |} = b.
Proof. by destruct b. Qed.

Lemma processReaction_run `{!Unicode} c t evt b :
  processReaction c t evt b =
  match event.Parsed evt with
  | event.ParsedReaction content =>
      let relatesTo := event.ReactionRelatesTo content in
      if bool_decide (event.Key relatesTo ∈ ["!yoink"; "!nom"; "!grab"])
      then
        match GetEvent t (event.RoomID evt) (event.EventID relatesTo) with
        | Err msg => (Err ("failed to get parent event: " +:+ msg), b)
        | Ok parentEvent =>
            match extractImageData parentEvent with
            | Err msg =>
                (Err ("parent event is not a valid image/sticker: " +:+ msg),
                 b)
            | Ok (mxcURI, body) =>
                match collectSticker c (event.RoomID evt)
                        (event.EventID relatesTo) mxcURI body
                        (dataDir (world b)) with
                | (Err msg, d) =>
                    (Err ("failed to collect sticker: " +:+ msg),
                     {| world := {| dataDir := d;
                                    delivered := delivered (world b) |};
                        sent := sent b; redacted := redacted b |})
                | (Ok _, d) =>
                    (Ok (),
                     {| world := {| dataDir := d;
                                    delivered := delivered (world b) |};
                        sent := sent b;
                        redacted := redacted b
                                    ++ [(event.RoomID evt, event.ID evt)] |})
                end
            end
        end
      else (Ok (), b)
  | _ => (Err "failed to parse reaction content", b)
  end.
Proof.
  unfold processReaction.
  destruct (event.Parsed evt) as [?|content|]; try done.
  rewrite validCommands_lookup. simpl.
  case_bool_decide; simpl; [|done].
  unfold bind at 1, liftR at 1.
  destruct (GetEvent t _ _) as [parentEvent|]; simpl; [|done].
  unfold bind at 1, liftR at 1.
  destruct (extractImageData parentEvent) as [[mxcURI body]|]; simpl;
    [|done].
  unfold bind, wrap, onWorld, onDir, warnOnly, redactReaction.
  destruct (collectSticker c _ _ mxcURI body (dataDir (world b)))
    as [[[]|msg] d]; simpl; done.
Qed.

(** X29. Collecting by reaction. A reaction whose key is not "!yoink",
    "!nom" or "!grab" is ignored without an error, whatever the
    collaborators would answer. With one of these keys the event reacted to
    is fetched; a sticker event, and a message that declares itself an
    image, give their address and body, from the parsed content or else the
    raw one, and nothing else is collected. When the collection workflow
    succeeds on them, the reaction succeeds, the sticker is stored and the
    redaction of the reaction is asked for, whatever the homeserver answers
    to that. A reaction that fails leaves the data directory, the events
    and messages handed to the homeserver and the redactions asked for as
    they were, and no more than that: when the captioning fails after the
    upload of a remote image was accepted, the reaction fails and nothing
    records the uploaded copy. No reaction sends a message or changes a
    pack, and reactions of other users are not looked at. *)
Theorem processReaction_cases `{!Unicode} c t evt b :
  (∀ content,
     event.Parsed evt = event.ParsedReaction content →
     event.Key (event.ReactionRelatesTo content)
       ∉ ["!yoink"; "!nom"; "!grab"] →
     processReaction c t evt b = (Ok (), b))
  ∧ (∀ msg, (processReaction c t evt b).1 = Err msg →
            (processReaction c t evt b).2 = b)
  ∧ (∀ content,
       event.Parsed evt = event.ParsedReaction content →
       event.Key (event.ReactionRelatesTo content)
         ∈ ["!yoink"; "!nom"; "!grab"] →
       (processReaction c t evt b).1 = Ok () →
       ∃ parentEvent mxcURI body,
         GetEvent t (event.RoomID evt)
           (event.EventID (event.ReactionRelatesTo content))
         = Ok parentEvent
         ∧ extractImageData parentEvent = Ok (mxcURI, body)
         ∧ (event.Type_ parentEvent = event.EventSticker
            ∨ event.Type_ parentEvent = event.EventMessage
              ∧ match event.Parsed parentEvent with
                | event.ParsedMessage message =>
                    event.MsgType message = "m.image"
                | _ =>
                    rawString (event.Raw parentEvent) "msgtype"
                    = Some "m.image"
                end)
         ∧ collectSticker c (event.RoomID evt)
             (event.EventID (event.ReactionRelatesTo content)) mxcURI body
             (dataDir (world b))
           = (Ok (), dataDir (world (processReaction c t evt b).2))
         ∧ redacted (processReaction c t evt b).2
           = redacted b ++ [(event.RoomID evt, event.ID evt)])
  ∧ sent (processReaction c t evt b).2 = sent b
  ∧ delivered (world (processReaction c t evt b).2) = delivered (world b)
  ∧ packs (dataDir (world (processReaction c t evt b).2))
    = packs (dataDir (world b))
  ∧ (event.Sender evt ≠ UserID c → handleReaction c t evt b = b)
  ∧ (event.Sender evt = UserID c →
     handleReaction c t evt b = (processReaction c t evt b).2)
  ∧ (∀ content parentEvent mxcURI body homeserver imageData width height
       format localMXC msg,
       event.Parsed evt = event.ParsedReaction content →
       event.Key (event.ReactionRelatesTo content)
         ∈ ["!yoink"; "!nom"; "!grab"] →
       GetEvent t (event.RoomID evt)
         (event.EventID (event.ReactionRelatesTo content))
       = Ok parentEvent →
       extractImageData parentEvent = Ok (mxcURI, body) →
       ParseContentURI c mxcURI = Ok homeserver →
       homeserver ≠ Homeserver c →
       DownloadBytes c mxcURI = Ok imageData →
       DecodeConfig c imageData = Ok (width, height, format) →
       UploadBytes c imageData (formatToMimeType format) = Ok localMXC →
       GenerateAltText c imageData (formatToMimeType format) = Err msg →
       processReaction c t evt b
       = (Err ("failed to collect sticker: " +:+
               "alt-text generation failed: " +:+ msg), b))
  ∧ (∀ content parentEvent mxcURI body d',
       event.Parsed evt = event.ParsedReaction content →
       event.Key (event.ReactionRelatesTo content)
         ∈ ["!yoink"; "!nom"; "!grab"] →
       GetEvent t (event.RoomID evt)
         (event.EventID (event.ReactionRelatesTo content))
       = Ok parentEvent →
       extractImageData parentEvent = Ok (mxcURI, body) →
       collectSticker c (event.RoomID evt)
         (event.EventID (event.ReactionRelatesTo content)) mxcURI body
         (dataDir (world b))
       = (Ok (), d') →
       processReaction c t evt b
       = (Ok (),
          {| world := {| dataDir := d'; delivered := delivered (world b) |};
             sent := sent b;
             redacted := redacted b
                         ++ [(event.RoomID evt, event.ID evt)] |}))
  ∧ (∀ parentEvent message,
       event.Parsed parentEvent = event.ParsedMessage message →
       event.Type_ parentEvent = event.EventSticker
       ∨ event.Type_ parentEvent = event.EventMessage
         ∧ event.MsgType message = "m.image" →
       extractImageData parentEvent
       = Ok (event.URL message, event.Body message))
  ∧ (∀ parentEvent url,
       (∀ message,
          event.Parsed parentEvent ≠ event.ParsedMessage message) →
       rawString (event.Raw parentEvent) "url" = Some url →
       event.Type_ parentEvent = event.EventSticker
       ∨ event.Type_ parentEvent = event.EventMessage
         ∧ rawString (event.Raw parentEvent) "msgtype" = Some "m.image" →
       extractImageData parentEvent
       = Ok (url, default "" (rawString (event.Raw parentEvent) "body"))).
Proof.
  assert (∀ parentEvent mxcURI body,
            extractImageData parentEvent = Ok (mxcURI, body) →
            event.Type_ parentEvent = event.EventSticker
            ∨ event.Type_ parentEvent = event.EventMessage
              ∧ match event.Parsed parentEvent with
                | event.ParsedMessage message =>
                    event.MsgType message = "m.image"
                | _ =>
                    rawString (event.Raw parentEvent) "msgtype"
                    = Some "m.image"
                end) as Himage.
  { intros parentEvent mxcURI body. unfold extractImageData.
    case_bool_decide as Hs; [by left|].
    case_bool_decide as Hm; [|done]. intros Hok. right. split; [done|].
    destruct (event.Parsed parentEvent) as [message| |].
    - by case_bool_decide as Hi.
    - destruct (rawString _ "msgtype") as [msgtype|]; simpl in *; [|done].
      case_bool_decide as Hi; [done|]. by subst.
    - destruct (rawString _ "msgtype") as [msgtype|]; simpl in *; [|done].
      case_bool_decide as Hi; [done|]. by subst. }
  split; [|split; [|split; [|split; [|split; [|split; [|split; [|split;
    [|split; [|split; [|split]]]]]]]]]].
  - intros content Hp Hkey. rewrite processReaction_run, Hp. simpl.
    by rewrite bool_decide_eq_false_2.
  - intros msg. rewrite processReaction_run.
    destruct (event.Parsed evt) as [?|content|]; try done. simpl.
    case_bool_decide; [|done].
    destruct (GetEvent t _ _) as [parentEvent|]; [|done].
    destruct (extractImageData parentEvent) as [[mxcURI body]|]; [|done].
    destruct (collectSticker_run c (event.RoomID evt)
                (event.EventID (event.ReactionRelatesTo content)) mxcURI
                body (dataDir (world b)))
      as [[msg' ->]|(?&?&?&?&_&_&->)].
    + intros _. simpl. by destruct b as [[??] ??].
    + by rewrite AddSticker_run.
  - intros content Hp Hkey. rewrite processReaction_run, Hp. simpl.
    rewrite bool_decide_eq_true_2 by done.
    destruct (GetEvent t _ _) as [parentEvent|]; [|done].
    destruct (extractImageData parentEvent) as [[mxcURI body]|] eqn:Hex;
      [|done].
    destruct (collectSticker c _ _ mxcURI body (dataDir (world b)))
      as [[[]|msg] d] eqn:Ecollect; [|done].
    intros _. exists parentEvent, mxcURI, body.
    split; [done|]. split; [done|]. split; [by eapply Himage|].
    by rewrite Ecollect.
  - rewrite processReaction_run.
    destruct (event.Parsed evt) as [?|content|]; try done. simpl.
    case_bool_decide; [|done].
    destruct (GetEvent t _ _) as [parentEvent|]; [|done].
    destruct (extractImageData parentEvent) as [[mxcURI body]|]; [|done].
    by destruct (collectSticker c _ _ mxcURI body (dataDir (world b)))
      as [[[]|msg] d].
  - rewrite processReaction_run.
    destruct (event.Parsed evt) as [?|content|]; try done. simpl.
    case_bool_decide; [|done].
    destruct (GetEvent t _ _) as [parentEvent|]; [|done].
    destruct (extractImageData parentEvent) as [[mxcURI body]|]; [|done].
    by destruct (collectSticker c _ _ mxcURI body (dataDir (world b)))
      as [[[]|msg] d].
  - rewrite processReaction_run.
    destruct (event.Parsed evt) as [?|content|]; try done. simpl.
    case_bool_decide; [|done].
    destruct (GetEvent t _ _) as [parentEvent|]; [|done].
    destruct (extractImageData parentEvent) as [[mxcURI body]|]; [|done].
    destruct (collectSticker_run c (event.RoomID evt)
                (event.EventID (event.ReactionRelatesTo content)) mxcURI
                body (dataDir (world b)))
      as [[msg' ->]|(?&?&?&?&_&_&->)]; [done|].
    by rewrite AddSticker_run.
  - intros Hother. unfold handleReaction.
    by rewrite bool_decide_eq_true_2.
  - intros Hown. unfold handleReaction.
    rewrite bool_decide_eq_false_2 by (by intros ?).
    apply warnOnly_run.
  - intros content parentEvent mxcURI body homeserver imageData width height
      format localMXC msg Hp Hkey Hget Hextract Hparse Hremote Hdownload
      Hdecode Hupload Hcaption.
    rewrite processReaction_run, Hp. simpl.
    rewrite bool_decide_eq_true_2 by done. rewrite Hget, Hextract.
    assert (collectSticker c (event.RoomID evt)
              (event.EventID (event.ReactionRelatesTo content)) mxcURI body
              (dataDir (world b))
            = (Err ("alt-text generation failed: " +:+ msg),
               dataDir (world b))) as ->.
    { unfold collectSticker, DownloadMedia, GetImageInfo, UploadMedia. run.
      rewrite Hparse. run. rewrite Hdownload. run. rewrite Hdecode. run.
      rewrite formatToMimeType_no_fallback.
      rewrite (bool_decide_eq_true_2 (homeserver ≠ Homeserver c)) by done.
      run. rewrite Hupload. run. by rewrite Hcaption. }
    by destruct b as [[??] ??].
  - intros content parentEvent mxcURI body d' Hp Hkey Hget Hextract Hcollect.
    rewrite processReaction_run, Hp. simpl.
    rewrite bool_decide_eq_true_2 by done.
    by rewrite Hget, Hextract, Hcollect.
  - intros parentEvent message Hparsed Hkind. unfold extractImageData.
    rewrite Hparsed. destruct Hkind as [->|[-> Himg]].
    + by rewrite bool_decide_eq_true_2.
    + rewrite bool_decide_eq_false_2 by done.
      rewrite bool_decide_eq_true_2 by done.
      by rewrite bool_decide_eq_false_2 by (by intros ?).
  - intros parentEvent url Hraw Hurl Hkind. unfold extractImageData.
    destruct (event.Parsed parentEvent) as [message| |];
      [by destruct (Hraw message)| |];
      (destruct Hkind as [->|[-> Himg]];
       [rewrite bool_decide_eq_true_2 by done; by rewrite Hurl
       |rewrite bool_decide_eq_false_2 by done;
        rewrite bool_decide_eq_true_2 by done;
        by rewrite Himg, Hurl]).
Qed.


Lemma processReaction_cases_witness :
  event.Parsed yoink
  = event.ParsedReaction
      {| event.ReactionRelatesTo :=
           {| event.RelType := "m.annotation";
              event.EventID := "$event";
              event.Key := "!yoink" |} |}
  ∧ GetEvent unwilling "!room:matrix.org" "$event" = Ok stickerPosted
  ∧ extractImageData stickerPosted = Ok ("mxc://matrix.org/pixel", "pixel.png")
  ∧ collectSticker (H := asciiOnly) pixelEnv "!room:matrix.org" "$event"
      "mxc://matrix.org/pixel" "pixel.png" emptyDir
    = (Ok (), {| collection := [freshPixel]; packs := [] |})
  ∧ processReaction (H := asciiOnly) pixelEnv unwilling yoink idle
    = (Ok (),
       {| world := {| dataDir := {| collection := [freshPixel]; packs := [] |};
                      delivered := [] |};
          sent := [];
          redacted := [("!room:matrix.org", "$reaction")] |})
  ∧ processReaction (H := asciiOnly) muteEnv unwilling yoink idle
    = (Err ("failed to collect sticker: " +:+
            "alt-text generation failed: " +:+ "overloaded"), idle).
Proof.
  assert (collectSticker (H := asciiOnly) pixelEnv "!room:matrix.org"
            "$event" "mxc://matrix.org/pixel" "pixel.png" emptyDir
          = (Ok (), {| collection := [freshPixel]; packs := [] |}))
    as Hcollect by (vm_compute; reflexivity).
  split; [reflexivity|]. split; [reflexivity|]. split; [reflexivity|].
  split; [exact Hcollect|]. split.
  - destruct (processReaction_cases (H := asciiOnly) pixelEnv unwilling yoink
                idle) as (_&_&_&_&_&_&_&_&_&Hsuccess&_).
    apply (Hsuccess _ stickerPosted "mxc://matrix.org/pixel" "pixel.png"
             {| collection := [freshPixel]; packs := [] |} eq_refl);
      [by_evaluation|reflexivity|reflexivity|exact Hcollect].
  - destruct (processReaction_cases (H := asciiOnly) muteEnv unwilling yoink
                idle) as (_&_&_&_&_&_&_&_&Hleak&_).
    apply (Hleak _ stickerPosted "mxc://matrix.org/pixel" "pixel.png"
             "matrix.org" pixel 1%Z 1%Z "png" "mxc://example.org/rehosted"
             "overloaded" eq_refl); try reflexivity; [by_evaluation|done].
Defined.

(** X30. Commands typed as messages. [handleMessage] leaves everything as
    it is for a message of another user, for an event that is not a
    message, for an edit, for a message that is not text and for text that
    does not begin with "!sticker". Every other message is run as a command
    on the trimmed text and answered by exactly one edit of that message,
    in its room, whose body is the trimmed text, an empty line and the
    reply, whether or not the homeserver accepts the edit; nothing else is
    sent and the world is the one the command leaves. The edit is a message
    [handleMessage] itself ignores, so the bot never answers its own
    answers. No message redacts anything. *)
Theorem handleMessage_cases `{!Unicode} `{!UnicodeFields} c t evt b :
  (event.Sender evt ≠ UserID c → handleMessage c t evt b = b)
  ∧ ((∀ content, event.Parsed evt ≠ event.ParsedMessage content) →
     handleMessage c t evt b = b)
  ∧ (∀ content relatesTo,
       event.Parsed evt = event.ParsedMessage content →
       event.MessageRelatesTo content = Some relatesTo →
       event.RelType relatesTo = "m.replace" →
       handleMessage c t evt b = b)
  ∧ (∀ content,
       event.Parsed evt = event.ParsedMessage content →
       event.MsgType content ≠ "m.text" → handleMessage c t evt b = b)
  ∧ (∀ content,
       event.Parsed evt = event.ParsedMessage content →
       strings.HasPrefix (strings.TrimSpace (event.Body content)) "!sticker"
       = false →
       handleMessage c t evt b = b)
  ∧ (∀ content,
       event.Sender evt = UserID c →
       event.Parsed evt = event.ParsedMessage content →
       (∀ relatesTo,
          event.MessageRelatesTo content = Some relatesTo →
          event.RelType relatesTo ≠ "m.replace") →
       event.MsgType content = "m.text" →
       strings.HasPrefix (strings.TrimSpace (event.Body content)) "!sticker"
       = true →
       ∃ edit,
         handleMessage c t evt b
         = {| world :=
                (executeCommand c (strings.TrimSpace (event.Body content))
                   (world b)).2;
              sent := sent b ++ [(event.RoomID evt, edit)];
              redacted := redacted b |}
         ∧ event.Body edit
           = strings.TrimSpace (event.Body content) +:+ LF +:+ LF +:+
             (executeCommand c (strings.TrimSpace (event.Body content))
                (world b)).1
         ∧ event.MsgType edit = "m.text"
         ∧ event.URL edit = ""
         ∧ event.Format edit = "org.matrix.custom.html"
         ∧ event.FormattedBody edit = markdownToHTML t (event.Body edit)
         ∧ event.NewContent edit
           = Some (event.mkMessage "m.text" (event.Body edit) ""
                     "org.matrix.custom.html" (event.FormattedBody edit)
                     None None)
         ∧ event.MessageRelatesTo edit
           = Some {| event.RelType := "m.replace";
                     event.EventID := event.ID evt;
                     event.Key := "" |}
         ∧ ∀ evt' b',
             event.Parsed evt' = event.ParsedMessage edit →
             handleMessage c t evt' b' = b')
  ∧ redacted (handleMessage c t evt b) = redacted b.
Proof.
  unfold handleMessage.
  case_bool_decide as Hsender.
  { split; [done|]. split; [done|]. split; [done|]. split; [done|].
    split; [done|]. split; [|done]. by intros ? ?. }
  destruct (event.Parsed evt) as [content| |].
  2,3: split; [done|]; split; [done|]; split; [done|]; split; [done|];
       split; [done|]; split; [|done]; by intros ? ? [=].
  destruct (match event.MessageRelatesTo content with
            | Some relatesTo =>
                bool_decide (event.RelType relatesTo = event.RelReplace)
            | None => false
            end) eqn:Hedit.
  { split; [done|]. split; [done|]. split; [done|]. split; [done|].
    split; [done|]. split; [|done].
    intros ? _ [= <-] Hnot. exfalso.
    destruct (event.MessageRelatesTo content) as [relatesTo|]; [|done].
    apply bool_decide_eq_true in Hedit. by apply (Hnot relatesTo). }
  case_bool_decide as Htext.
  { split; [done|]. split; [done|]. split; [done|]. split; [done|].
    split; [done|]. split; [|done]. by intros ? _ [= <-] _ ?. }
  destruct (strings.HasPrefix _ "!sticker") eqn:Hprefix; cbn [negb].
  2:{ split; [done|]. split; [done|]. split; [done|]. split; [done|].
      split; [done|]. split; [|done].
      intros ? _ [= <-] _ _ Hyes. exfalso. cut (true = false); [done|].
      rewrite <- Hprefix. symmetry. exact Hyes. }
  destruct (executeCommand c _ (world b)) as [result w] eqn:Hrun.
  unfold warnOnly, editMessage. simpl.
  split; [done|]. split; [intros Hnone; by destruct (Hnone content)|].
  split.
  { intros ? relatesTo [= <-] Hrel Hreplace. rewrite Hrel in Hedit.
    by rewrite bool_decide_eq_true_2 in Hedit. }
  split; [by intros ? [= <-] ?|].
  split.
  { intros ? [= <-] Hno. exfalso. cut (true = false); [done|].
    rewrite <- Hprefix. exact Hno. }
  split; [|done].
  intros ? _ [= <-] _ _ _. eexists. rewrite !Hrun.
  split; [reflexivity|]. simpl. do 7 (split; [done|]).
  intros evt' b' ->. case_bool_decide; [done|]. simpl. done.
Qed.

Lemma handleMessage_cases_witness :
  event.Sender createTwins = UserID pixelEnv
  ∧ strings.HasPrefix
      (strings.TrimSpace (H := asciiOnly) " !sticker pack create Twins ")
      "!sticker" = true
  ∧ ∃ edit,
      handleMessage (H := asciiOnly) (H0 := asciiFields) pixelEnv unwilling
        createTwins idle
      = {| world :=
             (executeCommand (H := asciiOnly) (H0 := asciiFields) pixelEnv
                (strings.TrimSpace (H := asciiOnly)
                   " !sticker pack create Twins ")
                (world idle)).2;
           sent := sent idle ++ [("!room:matrix.org", edit)];
           redacted := redacted idle |}
      ∧ event.Body edit
        = strings.TrimSpace (H := asciiOnly) " !sticker pack create Twins "
          +:+ LF +:+ LF +:+
          (executeCommand (H := asciiOnly) (H0 := asciiFields) pixelEnv
             (strings.TrimSpace (H := asciiOnly)
                " !sticker pack create Twins ")
             (world idle)).1
      ∧ event.MessageRelatesTo edit
        = Some {| event.RelType := "m.replace";
                  event.EventID := "$command";
                  event.Key := "" |}.
Proof.
  assert (strings.HasPrefix
            (strings.TrimSpace (H := asciiOnly)
               " !sticker pack create Twins ")
            "!sticker" = true) as Hprefix by (vm_compute; reflexivity).
  split; [reflexivity|]. split; [exact Hprefix|].
  destruct (handleMessage_cases (H := asciiOnly) (H0 := asciiFields)
              pixelEnv unwilling createTwins idle) as (_&_&_&_&_&Hrun&_).
  destruct (Hrun _ eq_refl eq_refl) as (edit&Hdone&Hbody&_&_&_&_&_&Hrel&_);
    [by intros ? [=]|reflexivity|exact Hprefix|].
  exists edit. split; [exact Hdone|]. split; [exact Hbody|exact Hrel].
Defined.
